(** * Analog racing controller server: control state, protocol handler and
    output adapters

    A shallow embedding of [AnalogRacingServer] (racing_server.py) and the
    properties of its control-state core.

    Python values are modelled as the interpreter has them: a JSON number is a
    [bool], an arbitrary-precision [int] or a binary64 [float]; floats are
    IEEE 754 binary64 values ([spec_float] at precision 53, exponent bound
    1024), so NaN, the infinities and the signed zeros are all present.
    Exceptions are values of [exn]; a method of the server is a computation
    in a state-and-exception monad over the server object, in which what was
    assigned before a [raise] stays assigned. *)

From Stdlib Require Import ZArith Bool String List Lia.
From Stdlib Require Import SpecFloat.
From stdpp Require Import base gmap sets strings list.

Open Scope Z_scope.

(** ** Python numbers *)

Module Py.

(** binary64 *)
Definition prec : Z := 53.
Definition emax : Z := 1024.

Abbreviation float := spec_float.

Definition fopp : float -> float := SFopp.
Definition fabs : float -> float := SFabs.
Definition fadd : float -> float -> float := SFadd prec emax.
Definition fmul : float -> float -> float := SFmul prec emax.
Definition fdiv : float -> float -> float := SFdiv prec emax.
Definition fcompare : float -> float -> option comparison := SFcompare.

(** The exceptions the modelled code can meet. *)
Inductive exn : Set :=
  | JSONDecodeError
  | AttributeError
  | TypeError
  | KeyError
  | OverflowError
  | ZeroDivisionError
  | ValueError
  | RecursionError.

Inductive res (A : Type) : Type :=
  | Ok (a : A)
  | Raise (e : exn).
Arguments Ok {A} a.
Arguments Raise {A} e.

(** [float(z)] for an [int]: round to nearest, ties to even; an [int] too
    large for a finite float raises [OverflowError]. *)
Definition float_of_int (z : Z) : res float :=
  match binary_normalize prec emax z 0 false with
  | S754_infinity _ => Raise OverflowError
  | f => Ok f
  end.

(** Float literals of the source. *)
Definition f0 : float := S754_zero false.
Definition lit (z : Z) : float := binary_normalize prec emax z 0 false.
Definition f1 : float := Eval vm_compute in lit 1.
Definition f2 : float := Eval vm_compute in lit 2.
Definition f100 : float := Eval vm_compute in lit 100.
Definition f900 : float := Eval vm_compute in lit 900.
Definition f32767 : float := Eval vm_compute in lit 32767.
(** [0.1] is the binary64 value 0x1.999999999999ap-4. *)
Definition f0_1 : float := S754_finite false 7205759403792794 (-56).

(** A Python number: [bool] is a subclass of [int]. *)
Inductive num : Set :=
  | NBool (b : bool)
  | NInt (z : Z)
  | NFloat (f : float).

(** The value of a float with sign [s], mantissa [m] and exponent [e] is
    [(-1)^s * m * 2^e]. An [int] and a float are compared exactly, without
    converting the [int] to a float. *)
Definition signed (s : bool) (m : positive) : Z :=
  if s then Z.neg m else Z.pos m.

Definition compare_int_float (z : Z) (f : float) : option comparison :=
  match f with
  | S754_nan => None
  | S754_infinity s => Some (if s then Gt else Lt)
  | S754_zero _ => Some (z ?= 0)
  | S754_finite s m e =>
      Some (if 0 <=? e
            then z ?= signed s m * 2 ^ e
            else z * 2 ^ (- e) ?= signed s m)
  end.

Definition compare_opp (c : option comparison) : option comparison :=
  match c with Some c => Some (CompOpp c) | None => None end.

Definition num_compare (a b : num) : option comparison :=
  match a, b with
  | NFloat x, NFloat y => fcompare x y
  | NFloat x, NBool b => compare_opp (compare_int_float (Z.b2z b) x)
  | NFloat x, NInt z => compare_opp (compare_int_float z x)
  | NBool b, NFloat y => compare_int_float (Z.b2z b) y
  | NInt z, NFloat y => compare_int_float z y
  | NBool a, NBool b => Some (Z.b2z a ?= Z.b2z b)
  | NBool a, NInt z => Some (Z.b2z a ?= z)
  | NInt z, NBool b => Some (z ?= Z.b2z b)
  | NInt x, NInt y => Some (x ?= y)
  end.

(** [a < b], [a > b], [a <= b], [a == b] *)
Definition num_lt (a b : num) : bool :=
  match num_compare a b with Some Lt => true | _ => false end.
Definition num_gt (a b : num) : bool :=
  match num_compare a b with Some Gt => true | _ => false end.
Definition num_le (a b : num) : bool :=
  match num_compare a b with Some (Lt | Eq) => true | _ => false end.
Definition num_eq (a b : num) : bool :=
  match num_compare a b with Some Eq => true | _ => false end.

(** The builtins [min(a, b)] and [max(a, b)]: the first argument is kept
    unless the second is strictly smaller (larger). *)
Definition min (a b : num) : num := if num_lt b a then b else a.
Definition max (a b : num) : num := if num_gt b a then b else a.

(** [min] and [max] when both arguments are floats. *)
Definition fmin (a b : float) : float :=
  match fcompare b a with Some Lt => b | _ => a end.
Definition fmax (a b : float) : float :=
  match fcompare b a with Some Gt => b | _ => a end.

(** [abs(a)] *)
Definition abs (a : num) : num :=
  match a with
  | NBool b => NInt (Z.b2z b)
  | NInt z => NInt (Z.abs z)
  | NFloat f => NFloat (fabs f)
  end.

(** The float operand of a binary float operation. *)
Definition to_float (a : num) : res float :=
  match a with
  | NBool b => float_of_int (Z.b2z b)
  | NInt z => float_of_int z
  | NFloat f => Ok f
  end.

Definition is_zero (f : float) : bool :=
  match f with S754_zero _ => true | _ => false end.

(** [a / d] with a float divisor [d]. *)
Definition truediv (a : num) (d : float) : res float :=
  match to_float a with
  | Raise e => Raise e
  | Ok x => if is_zero d then Raise ZeroDivisionError else Ok (fdiv x d)
  end.

(** [int(f)]: truncation towards zero. *)
Definition int_of_float (f : float) : res Z :=
  match f with
  | S754_nan => Raise ValueError
  | S754_infinity _ => Raise OverflowError
  | S754_zero _ => Ok 0
  | S754_finite s m e =>
      let a := if 0 <=? e then Z.pos m * 2 ^ e else Z.pos m / 2 ^ (- e) in
      Ok (if s then - a else a)
  end.

(** ** Python objects, as [json.loads] builds them *)

#[local] Set Warnings "-register-all".

(** A decoded JSON document: [null], a number ([true] and [false] are the
    [bool]s), a string, an array or an object. An object is a [dict] with
    string keys, kept as its list of items. *)
Inductive obj : Type :=
  | ONone
  | ONum (n : num)
  | OStr (s : string)
  | OList (l : list obj)
  | ODict (d : list (string * obj)).

Fixpoint dict_lookup (k : string) (d : list (string * obj)) : option obj :=
  match d with
  | [] => None
  | (k', v) :: d' => if String.eqb k k' then Some v else dict_lookup k d'
  end.

(** [o == 'k'] for a string literal ['k'] *)
Definition eq_str (o : obj) (k : string) : bool :=
  match o with
  | OStr s => String.eqb s k
  | _ => false
  end.

(** [needle in hay] on strings: substring test *)
Definition str_contains (needle hay : string) : bool :=
  match String.index 0 needle hay with
  | Some _ => true
  | None => false
  end.

(** [o.get(k)] and [o.get(k, default)]: only a [dict] has the method. *)
Definition get (o : obj) (k : string) (default : obj) : res obj :=
  match o with
  | ODict d => Ok (match dict_lookup k d with Some v => v | None => default end)
  | _ => Raise AttributeError
  end.

(** ['k' in o] *)
Definition contains (k : string) (o : obj) : res bool :=
  match o with
  | ODict d => Ok (match dict_lookup k d with Some _ => true | None => false end)
  | OList l => Ok (existsb (fun x => eq_str x k) l)
  | OStr s => Ok (str_contains k s)
  | ONone | ONum _ => Raise TypeError
  end.

(** [o['k']] once ['k' in o] holds: a string or a list is not indexed by a
    string. *)
Definition getitem (o : obj) (k : string) : res obj :=
  match o with
  | ODict d => match dict_lookup k d with Some v => Ok v | None => Raise KeyError end
  | _ => Raise TypeError
  end.

(** The operand of a comparison with a float, or of a division by one. *)
Definition as_num (o : obj) : res num :=
  match o with
  | ONum n => Ok n
  | _ => Raise TypeError
  end.

End Py.

(** ** The server object *)

Import Py.

Inductive controller : Set := VGAMEPAD_XBOX | VJOY | KEYBOARD | NONE.

Inductive button : Set := XUSB_GAMEPAD_A | XUSB_GAMEPAD_X.
Inductive axis : Set := HID_USAGE_X | HID_USAGE_Y | HID_USAGE_Z.

(** A call into the device library in use (vgamepad, pyvjoy or pyautogui).
    The libraries are outside the repository: a call is recorded, in order,
    and returns normally. *)
Inductive call : Type :=
  | left_joystick_float (x_value_float y_value_float : float)
  | right_trigger_float (value_float : float)
  | left_trigger_float (value_float : float)
  | press_button (b : button)
  | release_button (b : button)
  | update
  | reset
  | set_axis (a : axis) (v : Z)
  | set_button (n : Z) (v : bool)
  | keyDown (key : string)
  | keyUp (key : string).

(** [logger.error] records, by call site. *)
Inductive log_entry : Set :=
  | Invalid_JSON (e : exn)
  | Error_handling_message (e : exn)
  | vgamepad_error (e : exn)
  | VJoy_error (e : exn)
  | Keyboard_error (e : exn)
  | Error_pressing (key : string) (e : exn)
  | Error_releasing (key : string) (e : exn)
  | Client_handler_error (e : exn).

Record server : Type := mk_server {
  connected_clients : gset nat;
  current_steering : num;
  max_steering_angle : float;
  current_accelerator : float;
  current_brake : float;
  handbrake_pressed : bool;
  horn_pressed : bool;
  controller_type : controller;
  keys_pressed : gset string;
  device : list call;
  log : list log_entry
}.

Definition set_connected_clients (v : gset nat) (s : server) : server :=
  mk_server v (current_steering s) (max_steering_angle s)
    (current_accelerator s) (current_brake s) (handbrake_pressed s)
    (horn_pressed s) (controller_type s) (keys_pressed s) (device s) (log s).
Definition set_current_steering (v : num) (s : server) : server :=
  mk_server (connected_clients s) v (max_steering_angle s)
    (current_accelerator s) (current_brake s) (handbrake_pressed s)
    (horn_pressed s) (controller_type s) (keys_pressed s) (device s) (log s).
Definition set_current_accelerator (v : float) (s : server) : server :=
  mk_server (connected_clients s) (current_steering s) (max_steering_angle s)
    v (current_brake s) (handbrake_pressed s)
    (horn_pressed s) (controller_type s) (keys_pressed s) (device s) (log s).
Definition set_current_brake (v : float) (s : server) : server :=
  mk_server (connected_clients s) (current_steering s) (max_steering_angle s)
    (current_accelerator s) v (handbrake_pressed s)
    (horn_pressed s) (controller_type s) (keys_pressed s) (device s) (log s).
Definition set_handbrake_pressed (v : bool) (s : server) : server :=
  mk_server (connected_clients s) (current_steering s) (max_steering_angle s)
    (current_accelerator s) (current_brake s) v
    (horn_pressed s) (controller_type s) (keys_pressed s) (device s) (log s).
Definition set_horn_pressed (v : bool) (s : server) : server :=
  mk_server (connected_clients s) (current_steering s) (max_steering_angle s)
    (current_accelerator s) (current_brake s) (handbrake_pressed s)
    v (controller_type s) (keys_pressed s) (device s) (log s).
Definition set_keys_pressed (v : gset string) (s : server) : server :=
  mk_server (connected_clients s) (current_steering s) (max_steering_angle s)
    (current_accelerator s) (current_brake s) (handbrake_pressed s)
    (horn_pressed s) (controller_type s) v (device s) (log s).
Definition set_device (v : list call) (s : server) : server :=
  mk_server (connected_clients s) (current_steering s) (max_steering_angle s)
    (current_accelerator s) (current_brake s) (handbrake_pressed s)
    (horn_pressed s) (controller_type s) (keys_pressed s) v (log s).
Definition set_log (v : list log_entry) (s : server) : server :=
  mk_server (connected_clients s) (current_steering s) (max_steering_angle s)
    (current_accelerator s) (current_brake s) (handbrake_pressed s)
    (horn_pressed s) (controller_type s) (keys_pressed s) (device s) v.

(** ** Methods: state and exceptions *)

(** A method run on the server object [self] ends normally with a value or
    raises, and leaves the object as it then is. *)
Definition M (A : Type) : Type := server -> res A * server.

#[export] Instance M_ret : MRet M := fun A a self => (Ok a, self).
#[export] Instance M_bind : MBind M := fun A B k m self =>
  match m self with
  | (Ok a, self') => k a self'
  | (Raise e, self') => (Raise e, self')
  end.

Definition lift {A} (r : res A) : M A := fun self => (r, self).
Definition attr {A} (f : server -> A) : M A := fun self => (Ok (f self), self).
Definition assign (f : server -> server) : M unit := fun self => (Ok tt, f self).

(** [try: body except Exception as e: handler e] *)
Definition try_except {A} (body : M A) (handler : exn -> M A) : M A :=
  fun self =>
    match body self with
    | (Raise e, self') => handler e self'
    | r => r
    end.

(** [try: body finally: final] *)
Definition try_finally {A} (body : M A) (final : M unit) : M A :=
  fun self =>
    match body self with
    | (r, self') =>
        match final self' with
        | (Ok _, self'') => (r, self'')
        | (Raise e, self'') => (Raise e, self'')
        end
    end.

Fixpoint for_each {A} (l : list A) (body : A -> M unit) : M unit :=
  match l with
  | [] => mret tt
  | x :: l' => body x ;; for_each l' body
  end.

(** A call into the device library: it is recorded and returns. The calls
    the server makes, and the keys it books as held, are those of a device
    that accepts every call. *)
Definition emit (c : call) : M unit :=
  assign (fun self => set_device (device self ++ [c]) self).
Definition logger_error (e : log_entry) : M unit :=
  assign (fun self => set_log (log self ++ [e]) self).

(** ** Output adapters *)

(** [update_vgamepad_controller] *)
Definition update_vgamepad_controller : M unit :=
  try_except
    (steering ← attr current_steering;
     msa ← attr max_steering_angle;
     q ← lift (truediv steering msa);
     let steering_normalized := fmax (fopp f1) (fmin f1 q) in
     emit (left_joystick_float steering_normalized f0) ;;
     accelerator ← attr current_accelerator;
     emit (right_trigger_float accelerator) ;;
     brake ← attr current_brake;
     emit (left_trigger_float brake) ;;
     handbrake ← attr handbrake_pressed;
     (if handbrake : bool
      then emit (press_button XUSB_GAMEPAD_A)
      else emit (release_button XUSB_GAMEPAD_A)) ;;
     horn ← attr horn_pressed;
     (if horn : bool
      then emit (press_button XUSB_GAMEPAD_X)
      else emit (release_button XUSB_GAMEPAD_X)) ;;
     emit update)
    (fun e => logger_error (vgamepad_error e)).

(** [update_vjoy_controller] *)
Definition update_vjoy_controller : M unit :=
  try_except
    (steering ← attr current_steering;
     msa ← attr max_steering_angle;
     q ← lift (truediv steering msa);
     let steering_normalized := fmax (fopp f1) (fmin f1 q) in
     t ← lift (int_of_float
                 (fmul (fdiv (fadd steering_normalized f1) f2) f32767));
     let steering_vjoy := t + 1 in
     emit (set_axis HID_USAGE_X steering_vjoy) ;;
     accelerator ← attr current_accelerator;
     t ← lift (int_of_float (fmul accelerator f32767));
     let accel_vjoy := t + 1 in
     emit (set_axis HID_USAGE_Y (32768 - accel_vjoy)) ;;
     brake ← attr current_brake;
     t ← lift (int_of_float (fmul brake f32767));
     let brake_vjoy := t + 1 in
     emit (set_axis HID_USAGE_Z brake_vjoy) ;;
     handbrake ← attr handbrake_pressed;
     emit (set_button 1 handbrake) ;;
     horn ← attr horn_pressed;
     emit (set_button 2 horn))
    (fun e => logger_error (VJoy_error e)).

(** [press_key] *)
Definition press_key (key : string) : M unit :=
  keys ← attr keys_pressed;
  if bool_decide (key ∉ keys)
  then
    try_except
      (emit (keyDown key) ;;
       assign (fun self => set_keys_pressed ({[key]} ∪ keys_pressed self) self))
      (fun e => logger_error (Error_pressing key e))
  else mret tt.

(** [release_key] *)
Definition release_key (key : string) : M unit :=
  keys ← attr keys_pressed;
  if bool_decide (key ∈ keys)
  then
    try_except
      (emit (keyUp key) ;;
       assign (fun self => set_keys_pressed (keys_pressed self ∖ {[key]}) self))
      (fun e => logger_error (Error_releasing key e))
  else mret tt.

(** [update_keyboard_controller] *)
Definition update_keyboard_controller : M unit :=
  try_except
    (steering ← attr current_steering;
     (if num_lt (abs steering) (NInt 10)
      then release_key "a" ;; release_key "d"
      else if num_lt steering (NInt (-10))
      then release_key "d" ;; press_key "a"
      else if num_gt steering (NInt 10)
      then release_key "a" ;; press_key "d"
      else mret tt) ;;
     accelerator ← attr current_accelerator;
     (if num_gt (NFloat accelerator) (NFloat f0_1)
      then press_key "w"
      else release_key "w") ;;
     brake ← attr current_brake;
     (if num_gt (NFloat brake) (NFloat f0_1)
      then press_key "s"
      else release_key "s") ;;
     handbrake ← attr handbrake_pressed;
     (if handbrake : bool
      then press_key "space"
      else release_key "space") ;;
     horn ← attr horn_pressed;
     (if horn : bool
      then press_key "h"
      else release_key "h"))
    (fun e => logger_error (Keyboard_error e)).

(** [update_controller] *)
Definition update_controller : M unit :=
  ct ← attr controller_type;
  match ct with
  | VGAMEPAD_XBOX => update_vgamepad_controller
  | VJOY => update_vjoy_controller
  | KEYBOARD => update_keyboard_controller
  | NONE => mret tt
  end.

(** [release_all_inputs] *)
Definition release_all_inputs : M unit :=
  assign (set_current_steering (NFloat f0)) ;;
  assign (set_current_accelerator f0) ;;
  assign (set_current_brake f0) ;;
  assign (set_handbrake_pressed false) ;;
  assign (set_horn_pressed false) ;;
  ct ← attr controller_type;
  match ct with
  | KEYBOARD =>
      keys ← attr keys_pressed;
      for_each (elements keys) release_key
  | VGAMEPAD_XBOX => emit reset ;; emit update
  | _ => mret tt
  end ;;
  update_controller.

(** ** Session registry *)

(** [register_client] *)
Definition register_client (websocket : nat) : M unit :=
  assign (fun self =>
    set_connected_clients ({[websocket]} ∪ connected_clients self) self).

(** [unregister_client] *)
Definition unregister_client (websocket : nat) : M unit :=
  assign (fun self =>
    set_connected_clients (connected_clients self ∖ {[websocket]}) self) ;;
  clients ← attr connected_clients;
  if bool_decide (clients = ∅)
  then release_all_inputs
  else mret tt.

(** ** Message protocol handler *)

(** A frame received on the websocket, by what [json.loads] makes of its
    text: it raises [JSONDecodeError] on text that is not JSON; it raises
    another exception on text it refuses for another reason ([ValueError]
    for an integer literal beyond the interpreter's digit limit or for bytes
    that are not Unicode text, [RecursionError] for a document nested too
    deep); or it returns the decoded document. *)
Inductive message : Type :=
  | Undecodable (text : string)
  | Refused (text : string) (e : exn)
  | Json (document : obj).

Definition json_loads (m : message) : res obj :=
  match m with
  | Undecodable _ => Raise JSONDecodeError
  | Refused _ e => Raise e
  | Json document => Ok document
  end.

(** [max(-self.max_steering_angle, min(self.max_steering_angle, v))] *)
Definition clamp_steering (msa : float) (v : obj) : res num :=
  match as_num v with
  | Raise e => Raise e
  | Ok x => Ok (max (NFloat (fopp msa)) (min (NFloat msa) x))
  end.

(** [max(0.0, min(1.0, v / 100.0))] *)
Definition clamp_pedal (v : obj) : res float :=
  match as_num v with
  | Raise e => Raise e
  | Ok x =>
      match truediv x f100 with
      | Raise e => Raise e
      | Ok q => Ok (fmax f0 (fmin f1 q))
      end
  end.

(** [handle_message] *)
Definition handle_message (websocket : nat) (m : message) : M unit :=
  try_except
    (data ← lift (json_loads m);
     command ← lift (get data "command" ONone);
     payload ← lift (get data "data" (ODict []));
     if eq_str command "update" then
       has_steering ← lift (contains "steering" payload);
       (if has_steering : bool then
          v ← lift (getitem payload "steering");
          msa ← attr max_steering_angle;
          x ← lift (clamp_steering msa v);
          assign (set_current_steering x)
        else mret tt) ;;
       has_accelerator ← lift (contains "accelerator" payload);
       (if has_accelerator : bool then
          v ← lift (getitem payload "accelerator");
          x ← lift (clamp_pedal v);
          assign (set_current_accelerator x)
        else mret tt) ;;
       has_brake ← lift (contains "brake" payload);
       (if has_brake : bool then
          v ← lift (getitem payload "brake");
          x ← lift (clamp_pedal v);
          assign (set_current_brake x)
        else mret tt) ;;
       update_controller
     else if eq_str command "handbrake_press" then
       assign (set_handbrake_pressed true) ;; update_controller
     else if eq_str command "handbrake_release" then
       assign (set_handbrake_pressed false) ;; update_controller
     else if eq_str command "horn_press" then
       assign (set_horn_pressed true) ;; update_controller
     else if eq_str command "horn_release" then
       assign (set_horn_pressed false) ;; update_controller
     else if eq_str command "reset" then
       release_all_inputs
     else mret tt)
    (fun e =>
       match e with
       | JSONDecodeError => logger_error (Invalid_JSON e)
       | _ => logger_error (Error_handling_message e)
       end).

(** ** Connections *)

(** [handle_client] on a connection that delivers [frames] and then closes:
    the read loop ends at the first exception of the handler, and the client
    is unregistered in every case. *)
Definition handle_client (websocket : nat) (frames : list message) : M unit :=
  register_client websocket ;;
  try_finally
    (try_except
       (for_each frames (handle_message websocket))
       (fun e => logger_error (Client_handler_error e)))
    (unregister_client websocket).

(** With several clients the connections interleave; what the server sees
    is a sequence of connects, received frames and disconnects. *)
Inductive event : Type :=
  | Connect (websocket : nat)
  | Receive (websocket : nat) (m : message)
  | Disconnect (websocket : nat).

Definition on_event (e : event) : M unit :=
  match e with
  | Connect websocket => register_client websocket
  | Receive websocket m => handle_message websocket m
  | Disconnect websocket => unregister_client websocket
  end.

(** An exception that escaped an event would end the serving task; nothing
    after it would run. *)
Fixpoint run (events : list event) (self : server) : res unit * server :=
  match events with
  | [] => (Ok tt, self)
  | e :: events' =>
      match on_event e self with
      | (Ok _, self') => run events' self'
      | (Raise x, self') => (Raise x, self')
      end
  end.

(** ** Start-up *)

(** What the host offers when the module is imported and the controller
    is opened. *)
Record host : Set := mk_host {
  VGAMEPAD_AVAILABLE : bool;
  VX360Gamepad_opens : bool;
  VJOY_AVAILABLE : bool;
  VJoyDevice_opens : bool;
  PYAUTOGUI_AVAILABLE : bool
}.

(** [init_controller] *)
Definition init_controller (h : host) : controller :=
  if VGAMEPAD_AVAILABLE h && VX360Gamepad_opens h then VGAMEPAD_XBOX
  else if VJOY_AVAILABLE h && VJoyDevice_opens h then VJOY
  else if PYAUTOGUI_AVAILABLE h then KEYBOARD
  else NONE.

(** [__init__] *)
Definition init (h : host) : server :=
  {| connected_clients := ∅;
     current_steering := NFloat f0;
     max_steering_angle := f900;
     current_accelerator := f0;
     current_brake := f0;
     handbrake_pressed := false;
     horn_pressed := false;
     controller_type := init_controller h;
     keys_pressed := ∅;
     device := [];
     log := [] |}.

(** The server with a given output variant. *)
Definition host_of (ct : controller) : host :=
  match ct with
  | VGAMEPAD_XBOX => mk_host true true false false false
  | VJOY => mk_host false false true true false
  | KEYBOARD => mk_host false false false false true
  | NONE => mk_host false false false false false
  end.

(** ** The control state *)

Record control_state : Type := mk_control_state {
  steering_angle : num;
  accelerator : float;
  brake : float;
  handbrake_engaged : bool;
  horn_engaged : bool
}.

Definition control (self : server) : control_state :=
  {| steering_angle := current_steering self;
     accelerator := current_accelerator self;
     brake := current_brake self;
     handbrake_engaged := handbrake_pressed self;
     horn_engaged := horn_pressed self |}.

Definition neutral : control_state :=
  {| steering_angle := NFloat f0;
     accelerator := f0;
     brake := f0;
     handbrake_engaged := false;
     horn_engaged := false |}.

(** * Specification *)

(** ** Clamping *)

Definition in_range (lo hi r : num) : bool := num_le lo r && num_le r hi.

(** [r] is [x] clamped to [[lo, hi]]: within the bounds, the bound that [x]
    is beyond, and [x] itself (as a number) when [x] is within them. *)
Record clamped (lo hi x r : num) : Prop := {
  clamped_in_range : in_range lo hi r = true;
  clamped_below : num_lt x lo = true -> num_eq r lo = true;
  clamped_above : num_gt x hi = true -> num_eq r hi = true;
  clamped_within : in_range lo hi x = true -> num_eq r x = true
}.

(** The order of [x] against the two bounds is consistent. *)
Record ordered_between (lo hi x : num) : Prop := {
  ob_below : num_compare x lo = Some Lt -> num_compare x hi = Some Lt;
  ob_above : num_compare x hi = Some Gt -> num_compare x lo = Some Gt;
  ob_top : num_compare x hi = Some Eq -> num_compare x lo = num_compare hi lo
}.

(** A float [m] with [0.0 <= m]: a zero, a positive finite float or
    [+inf]. *)
Definition nonneg (m : float) : bool := num_le (NFloat f0) (NFloat m).

(** ** Running methods *)

(** What a method leaves of the server, and how it ends. *)
Definition after {A} (m : M A) (self : server) : server := snd (m self).
Definition outcome {A} (m : M A) (self : server) : res A := fst (m self).

(** A method that never raises. *)
Definition returns (m : M unit) : Prop := forall self, outcome m self = Ok tt.

(** ** What a method leaves alone *)

(** [m] never changes what [f] reads of the server. *)
Definition keeps {X A} (f : server -> X) (m : M A) : Prop :=
  forall self, f (after m self) = f self.

(** Everything of the server but the adapter's own book-keeping (the calls
    made, the log, the held keys). *)
Definition core (self : server) :=
  (connected_clients self, control self, max_steering_angle self,
   controller_type self).

Abbreviation adapter_only m := (keeps core m).

(** ** The handler, by parts *)

Definition on_exception (e : exn) : M unit :=
  match e with
  | JSONDecodeError => logger_error (Invalid_JSON e)
  | _ => logger_error (Error_handling_message e)
  end.

(** The three assignments of an [update], one per field. *)
Definition ingest_steering (payload : obj) : M unit :=
  has_steering ← lift (contains "steering" payload);
  if has_steering : bool then
    v ← lift (getitem payload "steering");
    msa ← attr max_steering_angle;
    x ← lift (clamp_steering msa v);
    assign (set_current_steering x)
  else mret tt.

Definition ingest_accelerator (payload : obj) : M unit :=
  has_accelerator ← lift (contains "accelerator" payload);
  if has_accelerator : bool then
    v ← lift (getitem payload "accelerator");
    x ← lift (clamp_pedal v);
    assign (set_current_accelerator x)
  else mret tt.

Definition ingest_brake (payload : obj) : M unit :=
  has_brake ← lift (contains "brake" payload);
  if has_brake : bool then
    v ← lift (getitem payload "brake");
    x ← lift (clamp_pedal v);
    assign (set_current_brake x)
  else mret tt.

(** The dispatch on [command]. *)
Definition on_command (command payload : obj) : M unit :=
  if eq_str command "update" then
    ingest_steering payload ;; ingest_accelerator payload ;;
    ingest_brake payload ;; update_controller
  else if eq_str command "handbrake_press" then
    assign (set_handbrake_pressed true) ;; update_controller
  else if eq_str command "handbrake_release" then
    assign (set_handbrake_pressed false) ;; update_controller
  else if eq_str command "horn_press" then
    assign (set_horn_pressed true) ;; update_controller
  else if eq_str command "horn_release" then
    assign (set_horn_pressed false) ;; update_controller
  else if eq_str command "reset" then
    release_all_inputs
  else mret tt.

(** [data.get('command')] and [data.get('data', {})] on a decoded object *)
Definition command_of (top : list (string * obj)) : obj :=
  match dict_lookup "command" top with Some v => v | None => ONone end.
Definition payload_of (top : list (string * obj)) : obj :=
  match dict_lookup "data" top with Some v => v | None => ODict [] end.

(** The fields [release_all_inputs] assigns before it turns to the device. *)
Definition zeroed (self : server) : server :=
  set_horn_pressed false (set_handbrake_pressed false
    (set_current_brake f0 (set_current_accelerator f0
      (set_current_steering (NFloat f0) self)))).

(** The variant's own reset, then the apply step. *)
Definition reset_then_apply : M unit :=
  ct ← attr controller_type;
  match ct with
  | KEYBOARD =>
      keys ← attr keys_pressed;
      for_each (elements keys) release_key
  | VGAMEPAD_XBOX => emit reset ;; emit update
  | _ => mret tt
  end ;;
  update_controller.

(** A server in mid-race: one client, full throttle, handbrake on. *)
Definition racing (ct : controller) : server :=
  set_handbrake_pressed true
    (set_current_accelerator f1
       (set_current_steering (NInt 450)
          (set_connected_clients {[ 1%nat ]} (init (host_of ct))))).

Definition reset_command : list (string * obj) :=
  [("command"%string, OStr "reset"); ("data"%string, ODict [])].

(** ** Partial updates *)

Definition brake_only : list (string * obj) :=
  [("command"%string, OStr "update");
   ("data"%string, ODict [("brake"%string, ONum (NInt 50))])].

(** ** Clamping at ingestion *)

(** A field of [data] that the handler can take in: absent, or a number
    (for a pedal, one that [/ 100.0] accepts: any [float] or [bool], and any
    [int] within the range of a float). *)
Definition numeric (field : option obj) : Prop :=
  match field with
  | None => True
  | Some v => exists x, v = ONum x
  end.
Definition percentage (field : option obj) : Prop :=
  match field with
  | None => True
  | Some v => exists x q, v = ONum x /\ truediv x f100 = Ok q
  end.


(** ** Errors inside an [update] *)

Definition non_numeric (v : obj) : Prop := forall n, v <> ONum n.

Definition mistyped_accelerator : list (string * obj) :=
  [("command"%string, OStr "update");
   ("data"%string,
    ODict [("steering"%string, ONum (NInt 50));
           ("accelerator"%string, OStr "full")])].

Definition mistyped_brake : list (string * obj) :=
  [("command"%string, OStr "update");
   ("data"%string,
    ODict [("steering"%string, ONum (NInt 50));
           ("brake"%string, ONone)])].

(** ** Malformed frames *)

(** The structure the protocol expects of a frame, in the specification's
    words: a record with the fields [command: string] and [data: mapping]. *)
Definition expected_structure (m : message) : bool :=
  match m with
  | Json (ODict top) =>
      match dict_lookup "command" top, dict_lookup "data" top with
      | Some (OStr _), Some (ODict _) => true
      | _, _ => false
      end
  | _ => false
  end.

(** The handler checks no structure: it fails where it reads something it
    cannot read. The frames it drops for their structure alone are these:
    the text is refused by [json.loads], or the document is not an object,
    or the object's [command] is not a string, or the [data] of an [update]
    is not an object. *)
Definition malformed (m : message) : Prop :=
  match m with
  | Undecodable _ => True
  | Refused _ _ => True
  | Json (ODict top) =>
      (forall c, command_of top <> OStr c) \/
      (command_of top = OStr "update" /\ forall d, payload_of top <> ODict d)
  | Json _ => True
  end.

(** [{"command": "horn_press", "data": null}] and
    [{"command": 5, "data": {}}]: neither has the expected structure. *)
Definition horn_press_null : message :=
  Json (ODict [("command"%string, OStr "horn_press"); ("data"%string, ONone)]).
Definition numeric_command : message :=
  Json (ODict [("command"%string, ONum (NInt 5)); ("data"%string, ODict [])]).

(** ** The domain invariant *)

(** The declared domains of the control state, for a maximum rotation [m]:
    steering within [[-m, +m]], each pedal within [[0.0, 1.0]] (the two
    buttons are booleans by their type). *)
Definition in_domain_of (m : float) (c : control_state) : bool :=
  in_range (NFloat (fopp m)) (NFloat m) (steering_angle c) &&
  in_range (NFloat f0) (NFloat f1) (NFloat (accelerator c)) &&
  in_range (NFloat f0) (NFloat f1) (NFloat (brake c)).

Definition in_domain (self : server) : bool :=
  in_domain_of (max_steering_angle self) (control self).

(** The invariant: the maximum rotation is not negative (nor NaN) and the
    control state is within its domain. *)
Definition sound (self : server) : Prop :=
  nonneg (max_steering_angle self) = true /\ in_domain self = true.

Definition preserves (P : server -> Prop) {A} (m : M A) : Prop :=
  forall self, P self -> P (after m self).

(** ** The keyboard adapter *)

(** The server after [key] went down, and after it went up. *)
Definition key_down (key : string) (self : server) : server :=
  set_keys_pressed ({[key]} ∪ keys_pressed self)
    (set_device (device self ++ [keyDown key]) self).
Definition key_up (key : string) (self : server) : server :=
  set_keys_pressed (keys_pressed self ∖ {[key]})
    (set_device (device self ++ [keyUp key]) self).

(** The held keys, replayed from the calls made: what is down after
    [calls], starting with [held] down. *)
Fixpoint held_after (held : gset string) (calls : list call) : gset string :=
  match calls with
  | [] => held
  | keyDown key :: calls' => held_after ({[key]} ∪ held) calls'
  | keyUp key :: calls' => held_after (held ∖ {[key]}) calls'
  | _ :: calls' => held_after held calls'
  end.

(** Every [keyDown] is of a key that is up, every [keyUp] of a key that is
    down. *)
Fixpoint transitions_only (held : gset string) (calls : list call) : bool :=
  match calls with
  | [] => true
  | keyDown key :: calls' =>
      bool_decide (key ∉ held) && transitions_only ({[key]} ∪ held) calls'
  | keyUp key :: calls' =>
      bool_decide (key ∈ held) && transitions_only (held ∖ {[key]}) calls'
  | _ :: calls' => transitions_only held calls'
  end.

(** The number of [keyDown key] calls. *)
Fixpoint presses (key : string) (calls : list call) : nat :=
  match calls with
  | [] => 0%nat
  | keyDown k :: calls' =>
      ((if String.eqb k key then 1 else 0) + presses key calls')%nat
  | _ :: calls' => presses key calls'
  end.

(** The calls made so far are transitions only, and replaying them gives
    the set the adapter tracks. *)
Definition keys_tracked (self : server) : Prop :=
  transitions_only ∅ (device self) = true /\
  held_after ∅ (device self) = keys_pressed self.

Definition is_key_call (c : call) : bool :=
  match c with keyDown _ | keyUp _ => true | _ => false end.

(** What [keys_tracked] reads of the server. *)
Definition keyboard (self : server) := (device self, keys_pressed self).

Definition steer (degrees : Z) : message :=
  Json (ODict [("command"%string, OStr "update");
               ("data"%string, ODict [("steering"%string, ONum (NInt degrees))])]).

(** ** Disconnects *)

(** The calls of the reset-then-apply path, by output variant: the
    variant's own reset and one apply of the neutral state. The keyboard
    variant releases the held keys in the order in which the set yields
    them, and the apply of the neutral state then has nothing to release. *)
Definition reset_calls (ct : controller) (held : gset string) : list call :=
  match ct with
  | VGAMEPAD_XBOX =>
      [reset; update;
       left_joystick_float f0 f0; right_trigger_float f0; left_trigger_float f0;
       release_button XUSB_GAMEPAD_A; release_button XUSB_GAMEPAD_X; update]
  | VJOY =>
      [set_axis HID_USAGE_X 16384; set_axis HID_USAGE_Y 32767;
       set_axis HID_USAGE_Z 1; set_button 1 false; set_button 2 false]
  | KEYBOARD => map keyUp (elements held)
  | NONE => []
  end.

(** The same, whatever the order in which the keyboard's held keys are
    released. *)
Definition reset_then_apply_calls (ct : controller) (held : gset string)
    (calls : list call) : Prop :=
  match ct with
  | KEYBOARD => calls ≡ₚ map keyUp (elements held)
  | _ => calls = reset_calls ct held
  end.

(** ** The keyboard apply step *)

(** The held keys after the left/right step of the apply, by the three
    cases of the source. *)
Definition steer_keys (steering : num) (held : gset string) : gset string :=
  if num_lt (abs steering) (NInt 10) then (held ∖ {["a"]}) ∖ {["d"]}
  else if num_lt steering (NInt (-10)) then {["a"]} ∪ (held ∖ {["d"]})
  else if num_gt steering (NInt 10) then {["d"]} ∪ (held ∖ {["a"]})
  else held.

(** A key pressed if [down], released if not. *)
Definition with_key (down : bool) (key : string) (held : gset string) : gset string :=
  if down then {[key]} ∪ held else held ∖ {[key]}.

(** The held keys after one apply of the control state [c]. *)
Definition keys_applied (c : control_state) (held : gset string) : gset string :=
  with_key (horn_engaged c) "h"
    (with_key (handbrake_engaged c) "space"
       (with_key (num_gt (NFloat (brake c)) (NFloat f0_1)) "s"
          (with_key (num_gt (NFloat (accelerator c)) (NFloat f0_1)) "w"
             (steer_keys (steering_angle c) held)))).

(** [m], run on a server whose control state is [c], returns, touches only
    the adapter's book-keeping and takes the held keys from [held] to
    [g held]. *)
Definition keys_to (c : control_state) (m : M unit)
    (g : gset string -> gset string) : Prop :=
  forall self, control self = c ->
    outcome m self = Ok tt /\ core (after m self) = core self /\
    keys_pressed (after m self) = g (keys_pressed self).

(** ** Magnitude of binary64 values *)

(** A float that is a zero or finite, of magnitude at most [k]: its value
    is below [2 ^ k]. *)
Definition magnitude_le (k : Z) (f : float) : Prop :=
  match f with
  | S754_zero _ => True
  | S754_finite _ m e => Zdigits2 (Z.pos m) + e <= k
  | _ => False
  end.

(** ** The joystick axes *)

Definition binary64 (f : float) : bool := valid_binary prec emax f.

(** [int(f)] where it is defined, and 0 elsewhere. *)
Definition truncate (f : float) : Z :=
  match int_of_float f with Ok z => z | Raise _ => 0 end.

(** The spec's axis conversions. [AXIS_MAX] is 32767. *)
Definition AXIS_MAX : Z := 32767.

(** [unit * AXIS_MAX + 1], truncated: the axis value of a pedal. *)
Definition axis_value (unit : float) : Z :=
  truncate (fmul unit (lit AXIS_MAX)) + 1.

(** [((normalized + 1) / 2) * AXIS_MAX + 1], truncated: the steering axis. *)
Definition steering_axis_value (normalized : float) : Z :=
  truncate (fmul (fdiv (fadd normalized f1) f2) (lit AXIS_MAX)) + 1.

(** [steering_angle / max_rotation], clamped to [[-1, 1]]. *)
Definition normalized_steering (self : server) : float :=
  match truediv (current_steering self) (max_steering_angle self) with
  | Ok q => fmax (fopp f1) (fmin f1 q)
  | Raise _ => f0
  end.

(** The floats of the control state are binary64 values. *)
Definition binary64_state (self : server) : bool :=
  match current_steering self with NFloat f => binary64 f | _ => true end &&
  binary64 (current_accelerator self) && binary64 (current_brake self).

(** The calls of one apply in the joystick variant. *)
Definition joystick_calls (self : server) : list call :=
  [set_axis HID_USAGE_X (steering_axis_value (normalized_steering self));
   set_axis HID_USAGE_Y (AXIS_MAX + 1 - axis_value (current_accelerator self));
   set_axis HID_USAGE_Z (axis_value (current_brake self));
   set_button 1 (handbrake_pressed self);
   set_button 2 (horn_pressed self)].

(** The accelerator axis as the claim has it: [AXIS_MAX - value]. *)
Definition claimed_accelerator_axis (self : server) : Z :=
  AXIS_MAX - axis_value (current_accelerator self).

(** ** Commands *)

(** The six commands the handler knows. *)
Definition known_command (command : obj) : bool :=
  eq_str command "update" || eq_str command "handbrake_press" ||
  eq_str command "handbrake_release" || eq_str command "horn_press" ||
  eq_str command "horn_release" || eq_str command "reset".

Definition ping : list (string * obj) :=
  [("command"%string, OStr "ping");
   ("data"%string, ODict [("steering"%string, ONum (NInt 30))])].

(** The control state with one of its two buttons set. *)
Definition with_handbrake (b : bool) (c : control_state) : control_state :=
  {| steering_angle := steering_angle c; accelerator := accelerator c;
     brake := brake c; handbrake_engaged := b; horn_engaged := horn_engaged c |}.
Definition with_horn (b : bool) (c : control_state) : control_state :=
  {| steering_angle := steering_angle c; accelerator := accelerator c;
     brake := brake c; handbrake_engaged := handbrake_engaged c; horn_engaged := b |}.

Definition button_command (name : string) : list (string * obj) :=
  [("command"%string, OStr name); ("data"%string, ONone)].

(** ** The registry over a run *)

(** The clients connected after [events], from those connected before:
    only connects and disconnects count. *)
Fixpoint online (events : list event) (clients : gset nat) : gset nat :=
  match events with
  | [] => clients
  | Connect websocket :: events' => online events' ({[websocket]} ∪ clients)
  | Receive _ _ :: events' => online events' clients
  | Disconnect websocket :: events' => online events' (clients ∖ {[websocket]})
  end.

(** Every frame of [events] comes from a client that is connected when it
    arrives, as [handle_client] has it. *)
Fixpoint from_clients (events : list event) (clients : gset nat) : bool :=
  match events with
  | [] => true
  | Connect websocket :: events' => from_clients events' ({[websocket]} ∪ clients)
  | Receive websocket _ :: events' =>
      bool_decide (websocket ∈ clients) && from_clients events' clients
  | Disconnect websocket :: events' => from_clients events' (clients ∖ {[websocket]})
  end.

(** What no frame changes: the registry and the two settings made at
    start-up. *)
Definition settings (self : server) :=
  (connected_clients self, max_steering_angle self, controller_type self).

(** ** The calls of a backend *)

(** The calls that belong to the library of an output variant. *)
Definition backend_call (ct : controller) (c : call) : bool :=
  match ct, c with
  | VGAMEPAD_XBOX,
    (left_joystick_float _ _ | right_trigger_float _ | left_trigger_float _
     | press_button _ | release_button _ | update | reset) => true
  | VJOY, (set_axis _ _ | set_button _ _) => true
  | KEYBOARD, (keyDown _ | keyUp _) => true
  | _, _ => false
  end.

(** The variant in use is [ct], and the calls made so far all belong to
    its library. *)
Definition own (ct : controller) (self : server) : Prop :=
  controller_type self = ct /\ forallb (backend_call ct) (device self) = true.

(** What [own] reads of the server. *)
Definition backend (self : server) := (controller_type self, device self).

(** Whenever nobody is connected, the control state is neutral. *)
Definition idle_neutral (self : server) : Prop :=
  connected_clients self = ∅ -> control self = neutral.

(** A session: two clients, frames of each, the second leaving last. *)
Definition two_clients : list event :=
  [Connect 1; Receive 1 (steer 300); Connect 2; Receive 2 (steer (-40));
   Disconnect 1; Receive 2 (steer 25); Disconnect 2].

(** ** The keys of the keyboard variant *)





(** ** The gamepad variant *)


Definition nan_update : list (string * obj) :=
  [("command"%string, OStr "update");
   ("data"%string,
    ODict [("steering"%string, ONum (NFloat S754_nan));
           ("accelerator"%string, ONum (NFloat S754_nan));
           ("brake"%string, ONum (NFloat S754_nan))])].

(** ** Bounds of binary64 values *)

(** What a shift record stands for, rounded up: its mantissa when nothing
    was shifted out, and one more when something was. *)
Definition round_up (mrs : shr_record) : Z :=
  match loc_of_shr_record mrs with
  | loc_Exact => shr_m mrs
  | loc_Inexact _ => shr_m mrs + 1
  end.

(** The same for a mantissa and the location of the exact value above it. *)
Definition located_up (m : Z) (l : location) : Z :=
  match l with
  | loc_Exact => m
  | loc_Inexact _ => m + 1
  end.

(** A float that is a zero, or has the sign [neg] and a magnitude of at
    most [K]. *)
Definition bounded_by (neg : bool) (K : Z) (f : float) : Prop :=
  match f with
  | S754_zero _ => True
  | S754_finite s m e => s = neg /\ e <= 0 /\ Z.pos m <= K * 2 ^ (- e)
  | _ => False
  end.

(** ** Well-formed floats *)

Definition binary64_num (x : num) : bool :=
  match x with NFloat f => binary64 f | _ => true end.

(** The numbers of an [update]'s [data] are Python numbers: its floats are
    binary64 values. *)
Definition binary64_payload (p : obj) : bool :=
  match p with
  | ODict d =>
      forallb (fun item => match snd item with
                           | ONum x => binary64_num x
                           | _ => true
                           end) d
  | _ => true
  end.

Definition binary64_message (m : message) : bool :=
  match m with
  | Json (ODict top) => binary64_payload (payload_of top)
  | _ => true
  end.

Definition binary64_event (e : event) : bool :=
  match e with
  | Receive _ m => binary64_message m
  | _ => true
  end.

(** The floats the server holds are binary64 values. *)
Definition binary64_server (self : server) : Prop :=
  binary64 (max_steering_angle self) = true /\ binary64_state self = true.

(** ** The axes of the joystick variant *)

(** The range the joystick variant keeps each axis in: 1 to 32768 for
    steering and brake, 0 to 32767 for the inverted accelerator. *)
Definition axis_in_range (c : call) : bool :=
  match c with
  | set_axis HID_USAGE_Y v => (0 <=? v) && (v <=? 32767)
  | set_axis _ v => (1 <=? v) && (v <=? 32768)
  | _ => true
  end.

(** A server of the joystick variant whose state is well formed. *)
Definition joystick_ready (self : server) : Prop :=
  (max_steering_angle self, controller_type self) = (f900, VJOY) /\
  sound self /\ binary64_server self.

(** The same, and its axis writes so far were all in range. *)
Definition joystick_ok (self : server) : Prop :=
  joystick_ready self /\ forallb axis_in_range (device self) = true.

(** What [joystick_ok] reads of the server beside its control state. *)
Definition joystick_frame (self : server) :=
  (max_steering_angle self, controller_type self, device self).

(** A drive with float and integer values, until the client leaves. *)
Definition drive : list event :=
  [Connect 1;
   Receive 1 (Json (ODict [("command"%string, OStr "update");
                            ("data"%string,
                             ODict [("steering"%string, ONum (NFloat f900));
                                    ("accelerator"%string, ONum (NInt 100));
                                    ("brake"%string, ONum (NFloat f0_1))])]));
   Receive 1 (Json (ODict [("command"%string, OStr "horn_press")]));
   Receive 1 (steer (-2000));
   Disconnect 1].

(** ** The values of the gamepad variant *)

(** The range of each analog value of the gamepad: the stick within
    [[-1, 1]] with its vertical axis at rest, a trigger within [[0, 1]]. *)
Definition gamepad_in_range (c : call) : bool :=
  match c with
  | left_joystick_float x y =>
      in_range (NFloat (fopp f1)) (NFloat f1) (NFloat x) &&
      num_eq (NFloat y) (NFloat f0)
  | right_trigger_float v | left_trigger_float v =>
      in_range (NFloat f0) (NFloat f1) (NFloat v)
  | _ => true
  end.

(** A server of the gamepad variant, within its domain, whose analog
    values so far were all in range. *)
Definition gamepad_ok (self : server) : Prop :=
  controller_type self = VGAMEPAD_XBOX /\ sound self /\
  forallb gamepad_in_range (device self) = true.

(** What [gamepad_ok] reads of the server beside its control state. *)
Definition gamepad_frame (self : server) := (controller_type self, device self).

Definition overflowing_update : list (string * obj) :=
  [("command"%string, OStr "update");
   ("data"%string,
    ODict [("steering"%string, ONum (NInt (2 ^ 1024)));
           ("accelerator"%string, ONum (NInt (2 ^ 1024)))])].

(** ** What an [update] takes in *)

(** The server once the [steering] of the data [d] is taken in: clamped
    and assigned when it is a number. *)
Definition take_steering (d : list (string * obj)) (self : server) : server :=
  match dict_lookup "steering" d with
  | Some (ONum x) =>
      set_current_steering
        (max (NFloat (fopp (max_steering_angle self)))
             (min (NFloat (max_steering_angle self)) x)) self
  | _ => self
  end.

(** The same for the pedal under the key [k], assigned by [set]. *)
Definition take_pedal (k : string) (set : float -> server -> server)
    (d : list (string * obj)) (self : server) : server :=
  match dict_lookup k d with
  | Some (ONum x) =>
      match truediv x f100 with
      | Ok q => set (fmax f0 (fmin f1 q)) self
      | Raise _ => self
      end
  | _ => self
  end.

(** The server once the three fields of [d] are taken in, in the order of
    the source. *)
Definition taken (d : list (string * obj)) (self : server) : server :=
  take_pedal "brake" set_current_brake d
    (take_pedal "accelerator" set_current_accelerator d (take_steering d self)).

(** Every field of [d] that is present is a number the handler can take
    in. *)
Definition well_formed_update (d : list (string * obj)) : Prop :=
  numeric (dict_lookup "steering" d) /\
  percentage (dict_lookup "accelerator" d) /\
  percentage (dict_lookup "brake" d).

Definition full_update : list (string * obj) :=
  [("command"%string, OStr "update");
   ("data"%string,
    ODict [("steering"%string, ONum (NInt (-450)));
           ("accelerator"%string, ONum (NInt 25));
           ("brake"%string, ONum (NInt 100))])].

(** ** The keys after a frame *)

(** A frame the handler acts on to the end: one of the six commands, and
    for an [update] data that it can take in. *)
Definition handled (top : list (string * obj)) : Prop :=
  known_command (command_of top) = true /\
  (command_of top = OStr "update" ->
   exists d, payload_of top = ODict d /\ well_formed_update d).

(** * Properties *)

(** ** Order on Python numbers *)

Lemma compare_opp_involutive c : compare_opp (compare_opp c) = c.
Proof. destruct c as [[]|]; reflexivity. Qed.

Lemma fcompare_antisym x y : fcompare y x = compare_opp (fcompare x y).
Proof.
  destruct x as [sx|sx| |sx mx ex], y as [sy|sy| |sy my ey]; simpl;
    try reflexivity;
    try (destruct sx; reflexivity); try (destruct sy; reflexivity);
    try (destruct sx, sy; reflexivity).
  pose proof (Pos.compare_cont_antisym mx my Eq) as E; simpl in E.
  destruct sx, sy; simpl; try reflexivity;
    rewrite (Z.compare_antisym ex ey); destruct (ex ?= ey); simpl;
    try reflexivity; rewrite <- E, ?CompOpp_involutive; reflexivity.
Qed.

Lemma num_compare_antisym a b : num_compare b a = compare_opp (num_compare a b).
Proof.
  destruct a as [a|a|a], b as [b|b|b]; simpl;
    rewrite ?compare_opp_involutive;
    try (rewrite Z.compare_antisym; reflexivity); try reflexivity.
  apply fcompare_antisym.
Qed.

Lemma fcompare_refl x c y : fcompare x y = Some c -> fcompare x x = Some Eq.
Proof.
  destruct x as [sx|sx| |sx mx ex]; simpl; intros H.
  - reflexivity.
  - destruct sx; reflexivity.
  - discriminate.
  - rewrite Z.compare_refl, Pos.compare_cont_refl. destruct sx; reflexivity.
Qed.

Lemma num_compare_refl a b c : num_compare a b = Some c -> num_compare a a = Some Eq.
Proof.
  destruct a as [a|a|a]; simpl.
  1-2: intros _; rewrite Z.compare_refl; reflexivity.
  destruct b as [b|b|b]; simpl.
  3: apply fcompare_refl.
  all: destruct a as [sx|sx| |sx mx ex]; simpl; intros H; try discriminate.
  all: rewrite ?Z.compare_refl, ?Pos.compare_cont_refl.
  all: destruct sx; reflexivity.
Qed.

Lemma num_gt_lt a b : num_gt a b = num_lt b a.
Proof.
  unfold num_gt, num_lt. rewrite (num_compare_antisym b a).
  destruct (num_compare b a) as [[]|]; reflexivity.
Qed.

Lemma num_lt_le a b : num_lt a b = true -> num_le a b = true.
Proof.
  unfold num_lt, num_le. destruct (num_compare a b) as [[]|]; congruence.
Qed.

Lemma num_le_refl_l a b : num_le a b = true -> num_le a a = true.
Proof.
  unfold num_le. destruct (num_compare a b) as [c|] eqn:H; [|discriminate].
  intros _. rewrite (num_compare_refl _ _ _ H). reflexivity.
Qed.

Lemma num_le_refl_r a b : num_le a b = true -> num_le b b = true.
Proof.
  unfold num_le. destruct (num_compare a b) as [c|] eqn:H; [|discriminate].
  intros _. assert (H' : num_compare b a = Some (CompOpp c))
    by (rewrite num_compare_antisym, H; reflexivity).
  rewrite (num_compare_refl _ _ _ H'). reflexivity.
Qed.

Lemma min_float a b : min (NFloat a) (NFloat b) = NFloat (fmin a b).
Proof.
  unfold min, fmin, num_lt; simpl.
  destruct (fcompare b a) as [[]|]; reflexivity.
Qed.

Lemma max_float a b : max (NFloat a) (NFloat b) = NFloat (fmax a b).
Proof.
  unfold max, fmax, num_gt; simpl.
  destruct (fcompare b a) as [[]|]; reflexivity.
Qed.

(** ** Clamping *)

Section Clamp.
Variables lo hi : num.
Hypothesis lo_le_hi : num_le lo hi = true.

Lemma max_min_in_range x : in_range lo hi (max lo (min hi x)) = true.
Proof.
  pose proof (num_le_refl_l _ _ lo_le_hi) as Hll.
  pose proof (num_le_refl_r _ _ lo_le_hi) as Hhh.
  unfold in_range, max, min.
  destruct (num_lt x hi) eqn:Hxh.
  - destruct (num_gt x lo) eqn:Hxl.
    + rewrite num_gt_lt in Hxl.
      rewrite (num_lt_le _ _ Hxl), (num_lt_le _ _ Hxh). reflexivity.
    + rewrite Hll, lo_le_hi. reflexivity.
  - destruct (num_gt hi lo); rewrite ?Hll, ?Hhh, lo_le_hi; reflexivity.
Qed.

Lemma max_min_clamped x :
  ordered_between lo hi x -> clamped lo hi x (max lo (min hi x)).
Proof.
  intros [Hb Ha Ht].
  split; [apply max_min_in_range| | |];
    unfold num_le in lo_le_hi;
    destruct (num_compare lo hi) as [clh|] eqn:Elh; try discriminate;
    pose proof (num_compare_refl _ _ _ Elh) as Hll;
    assert (Ehl : num_compare hi lo = Some (CompOpp clh))
      by (rewrite num_compare_antisym, Elh; reflexivity);
    pose proof (num_compare_refl _ _ _ Ehl) as Hhh;
    rewrite Ehl in Ht;
    pose proof (num_compare_antisym x hi) as Ehx;
    pose proof (num_compare_antisym x lo) as Elx;
    unfold in_range, num_le, num_eq, max, min, num_lt, num_gt;
    rewrite ?Elx;
    destruct (num_compare x hi) as [cxh|] eqn:Exh;
    destruct (num_compare x lo) as [cxl|] eqn:Exl;
    try (intros; discriminate);
    try (destruct cxl; try (intros; discriminate);
         specialize (Hb eq_refl); discriminate);
    try (destruct cxh; try (intros; discriminate);
         specialize (Ha eq_refl); discriminate).
  all: pose proof (num_compare_refl _ _ _ Exh) as Hxx;
    destruct cxh, cxl, clh; simpl in *;
      try (intros; discriminate);
      try (specialize (Hb eq_refl); discriminate);
      try (specialize (Ha eq_refl); discriminate);
      try (specialize (Ht eq_refl); discriminate);
      intros _;
      rewrite ?Exl, ?Exh, ?Ehl, ?Elh; simpl;
      rewrite ?Hll, ?Hhh, ?Hxx, ?Elx, ?Ehx, ?Exl, ?Exh, ?Ehl, ?Elh; reflexivity.
Qed.
End Clamp.

Lemma opp_le_self m :
  nonneg m = true -> num_le (NFloat (fopp m)) (NFloat m) = true.
Proof. destruct m as [s|s| |s mm e]; try destruct s; simpl; easy. Qed.

Lemma compare_int_pos_neg z m e :
  (compare_int_float z (S754_finite true m e) = Some Lt ->
   compare_int_float z (S754_finite false m e) = Some Lt) /\
  (compare_int_float z (S754_finite false m e) = Some Gt ->
   compare_int_float z (S754_finite true m e) = Some Gt) /\
  (compare_int_float z (S754_finite false m e) = Some Eq ->
   compare_int_float z (S754_finite true m e) = Some Gt).
Proof.
  unfold compare_int_float, signed.
  destruct (0 <=? e) eqn:He.
  - apply Z.leb_le in He.
    assert (Hq : 0 < Z.pos m * 2 ^ e)
      by (apply Z.mul_pos_pos; [lia | apply Z.pow_pos_nonneg; lia]).
    change (Z.neg m) with (- Z.pos m). rewrite Z.mul_opp_l.
    generalize dependent (Z.pos m * 2 ^ e). intros P HP.
    repeat split; intros H; injection H as H; f_equal.
    + rewrite Z.compare_lt_iff in *. lia.
    + rewrite Z.compare_gt_iff in *. lia.
    + rewrite Z.compare_eq_iff in H. rewrite Z.compare_gt_iff. lia.
  - repeat split; intros H; injection H as H; f_equal.
    + rewrite Z.compare_lt_iff in *. lia.
    + rewrite Z.compare_gt_iff in *. lia.
    + rewrite Z.compare_eq_iff in H. rewrite Z.compare_gt_iff. lia.
Qed.

Lemma symmetric_ordered m x :
  nonneg m = true -> ordered_between (NFloat (fopp m)) (NFloat m) x.
Proof.
  intros Hm.
  destruct m as [s|s| |s mm e]; try discriminate; try (destruct s; try discriminate).
  1-2: destruct x as [b|z|[sx|sx| |sx mx ex]]; split; simpl in *; try congruence;
    try (destruct sx; simpl; congruence).
  - destruct x as [b|z|[sx|sx| |sx mx ex]]; split; simpl in *; try congruence;
    try (destruct sx; simpl; congruence).
  - destruct x as [b|z|[sx|sx| |sx mx ex]].
    3-6: split; simpl in *; try congruence; try (destruct sx; simpl; congruence).
    + destruct (compare_int_pos_neg (Z.b2z b) mm e) as (H1 & H2 & H3).
      split; simpl in *; try congruence; eauto.
    + destruct (compare_int_pos_neg z mm e) as (H1 & H2 & H3).
      split; simpl in *; try congruence; eauto.
Qed.


Lemma pedal_in_range q :
  in_range (NFloat f0) (NFloat f1) (NFloat (fmax f0 (fmin f1 q))) = true.
Proof.
  rewrite <- max_float, <- min_float. apply max_min_in_range. reflexivity.
Qed.


Lemma steering_clamped m x :
  nonneg m = true ->
  clamped (NFloat (fopp m)) (NFloat m) x
    (max (NFloat (fopp m)) (min (NFloat m) x)).
Proof.
  intros Hm. apply max_min_clamped; [apply opp_le_self, Hm | apply symmetric_ordered, Hm].
Qed.

(** ** Running methods *)

Lemma run_eq {A} (m : M A) self : m self = (outcome m self, after m self).
Proof. unfold outcome, after. destruct (m self); reflexivity. Qed.

Lemma bind_Ok {A B} (m : M A) (k : A -> M B) self a self' :
  m self = (Ok a, self') -> (m ≫= k) self = k a self'.
Proof. intros H. unfold mbind, M_bind. rewrite H. reflexivity. Qed.

Lemma bind_Raise {A B} (m : M A) (k : A -> M B) self e self' :
  m self = (Raise e, self') -> (m ≫= k) self = (Raise e, self').
Proof. intros H. unfold mbind, M_bind. rewrite H. reflexivity. Qed.

Lemma returns_ret : returns (mret tt).
Proof. intros self. reflexivity. Qed.

Lemma returns_assign f : returns (assign f).
Proof. intros self. reflexivity. Qed.

Lemma returns_bind (m k : M unit) : returns m -> returns k -> returns (m ;; k).
Proof.
  intros Hm Hk self. unfold outcome, mbind, M_bind.
  specialize (Hm self). unfold outcome in Hm.
  destruct (m self) as [[[]|e] self']; simpl in Hm; [apply Hk | discriminate].
Qed.

Lemma returns_attr {A} (f : server -> A) (k : A -> M unit) :
  (forall a, returns (k a)) -> returns (attr f ≫= k).
Proof. intros Hk self. apply Hk. Qed.

Lemma returns_try_except (body : M unit) handler :
  (forall e, returns (handler e)) -> returns (try_except body handler).
Proof.
  intros Hh self. unfold outcome, try_except.
  destruct (body self) as [[[]|e] self']; [reflexivity | apply Hh].
Qed.

Lemma returns_for_each {A} (l : list A) body :
  (forall x, returns (body x)) -> returns (for_each l body).
Proof.
  intros Hb. induction l as [|x l IH]; simpl.
  - apply returns_ret.
  - apply returns_bind; [apply Hb | apply IH].
Qed.

Lemma returns_emit c : returns (emit c).
Proof. apply returns_assign. Qed.

Lemma returns_logger_error e : returns (logger_error e).
Proof. apply returns_assign. Qed.

Lemma returns_press_key key : returns (press_key key).
Proof.
  unfold press_key. apply returns_attr. intros keys.
  destruct (bool_decide _); [|apply returns_ret].
  apply returns_try_except. intros e. apply returns_logger_error.
Qed.

Lemma returns_release_key key : returns (release_key key).
Proof.
  unfold release_key. apply returns_attr. intros keys.
  destruct (bool_decide _); [|apply returns_ret].
  apply returns_try_except. intros e. apply returns_logger_error.
Qed.

Lemma returns_update_controller : returns update_controller.
Proof.
  unfold update_controller. apply returns_attr. intros [].
  - apply returns_try_except. intros e. apply returns_logger_error.
  - apply returns_try_except. intros e. apply returns_logger_error.
  - apply returns_try_except. intros e. apply returns_logger_error.
  - apply returns_ret.
Qed.

Lemma returns_release_all_inputs : returns release_all_inputs.
Proof.
  unfold release_all_inputs.
  repeat (apply returns_bind; [apply returns_assign|]).
  apply returns_attr. intros ct.
  apply returns_bind; [|apply returns_update_controller].
  destruct ct; try (apply returns_bind; apply returns_emit);
    try apply returns_ret.
  apply returns_attr. intros keys. apply returns_for_each, returns_release_key.
Qed.

Lemma returns_register_client ws : returns (register_client ws).
Proof. apply returns_assign. Qed.

Lemma returns_unregister_client ws : returns (unregister_client ws).
Proof.
  unfold unregister_client. apply returns_bind; [apply returns_assign|].
  apply returns_attr. intros clients.
  destruct (bool_decide _); [apply returns_release_all_inputs | apply returns_ret].
Qed.

Lemma returns_handle_message ws m : returns (handle_message ws m).
Proof.
  unfold handle_message. apply returns_try_except.
  intros []; apply returns_logger_error.
Qed.

Lemma returns_on_event e : returns (on_event e).
Proof.
  destruct e; simpl.
  - apply returns_register_client.
  - apply returns_handle_message.
  - apply returns_unregister_client.
Qed.

(** ** What a method leaves alone *)

Section Keeps.
Context {X : Type} (f : server -> X).

Lemma keeps_ret {A} (a : A) : keeps f (mret a).
Proof. intros self. reflexivity. Qed.

Lemma keeps_lift {A} (r : res A) : keeps f (lift r).
Proof. intros self. reflexivity. Qed.

Lemma keeps_attr {A} (g : server -> A) : keeps f (attr g).
Proof. intros self. reflexivity. Qed.

Lemma keeps_assign g : (forall self, f (g self) = f self) -> keeps f (assign g).
Proof. intros H self. apply H. Qed.

Lemma keeps_bind {A B} (m : M A) (k : A -> M B) :
  keeps f m -> (forall a, keeps f (k a)) -> keeps f (m ≫= k).
Proof.
  intros Hm Hk self. unfold after, mbind, M_bind.
  specialize (Hm self). unfold after in Hm.
  destruct (m self) as [[a|e] self']; simpl in *; [|assumption].
  rewrite <- Hm. apply Hk.
Qed.

Lemma keeps_try_except {A} (body : M A) handler :
  keeps f body -> (forall e, keeps f (handler e)) ->
  keeps f (try_except body handler).
Proof.
  intros Hb Hh self. unfold after, try_except.
  specialize (Hb self). unfold after in Hb.
  destruct (body self) as [[a|e] self']; simpl in *; [assumption|].
  rewrite <- Hb. apply Hh.
Qed.

Lemma keeps_for_each {A} (l : list A) body :
  (forall x, keeps f (body x)) -> keeps f (for_each l body).
Proof.
  intros Hb. induction l as [|x l IH]; simpl.
  - apply keeps_ret.
  - apply keeps_bind; [apply Hb | intros _; apply IH].
Qed.

Lemma keeps_ext {A} (m m' : M A) :
  (forall self, m self = m' self) -> keeps f m' -> keeps f m.
Proof. intros H Hm self. unfold after. rewrite H. apply Hm. Qed.
End Keeps.

Lemma keeps_through {X Y A} (f : server -> X) (g : X -> Y) (m : M A) :
  keeps f m -> keeps (fun self => g (f self)) m.
Proof. intros H self. rewrite H. reflexivity. Qed.

(** One step of a [keeps] goal, by the shape of the method. *)
Ltac keeps_step :=
  first
    [ apply keeps_ret
    | apply keeps_lift
    | apply keeps_attr
    | apply keeps_assign; intros ?; reflexivity
    | apply keeps_try_except; [|intros ?]
    | apply keeps_bind; [|intros ?]
    | match goal with
      | |- keeps _ (if ?c then _ else _) => destruct c
      | |- keeps _ (match ?c with _ => _ end) => destruct c
      end
    | progress cbv zeta ].

Lemma adapter_only_emit c : adapter_only (emit c).
Proof. unfold emit. keeps_step. Qed.

Lemma adapter_only_logger_error e : adapter_only (logger_error e).
Proof. unfold logger_error. keeps_step. Qed.

Lemma adapter_only_press_key key : adapter_only (press_key key).
Proof. unfold press_key, emit, logger_error. repeat keeps_step. Qed.

Lemma adapter_only_release_key key : adapter_only (release_key key).
Proof. unfold release_key, emit, logger_error. repeat keeps_step. Qed.

Lemma adapter_only_update_controller : adapter_only update_controller.
Proof.
  unfold update_controller, update_vgamepad_controller,
    update_vjoy_controller, update_keyboard_controller.
  repeat first [ apply adapter_only_press_key | apply adapter_only_release_key
               | apply adapter_only_emit | apply adapter_only_logger_error
               | keeps_step ].
Qed.

(** ** The handler, by parts *)

Lemma bind_assoc {A B C} (m : M A) (k : A -> M B) (k' : B -> M C) self :
  ((m ≫= k) ≫= k') self = (m ≫= fun a => k a ≫= k') self.
Proof. unfold mbind, M_bind. destruct (m self) as [[a|e] self']; reflexivity. Qed.

Lemma bind_ext {A B} (m : M A) (k k' : A -> M B) self :
  (forall a self', k a self' = k' a self') -> (m ≫= k) self = (m ≫= k') self.
Proof.
  intros H. unfold mbind, M_bind. destruct (m self) as [[a|e] self']; [apply H | reflexivity].
Qed.

Lemma try_except_ext {A} (body body' : M A) handler self :
  body self = body' self -> try_except body handler self = try_except body' handler self.
Proof. intros H. unfold try_except. rewrite H. reflexivity. Qed.

Lemma handle_message_object ws top self :
  handle_message ws (Json (ODict top)) self =
  try_except (on_command (command_of top) (payload_of top)) on_exception self.
Proof.
  unfold handle_message. apply try_except_ext.
  change (on_command (command_of top) (payload_of top) self) with
    ((lift (json_loads (Json (ODict top))) ≫= fun data =>
      lift (get data "command" ONone) ≫= fun command =>
      lift (get data "data" (ODict [])) ≫= fun payload =>
      on_command command payload) self).
  apply bind_ext; intros data s1.
  apply bind_ext; intros command s2.
  apply bind_ext; intros payload s3.
  unfold on_command. destruct (eq_str command "update"); [|reflexivity].
  unfold ingest_steering, ingest_accelerator, ingest_brake.
  symmetry. etransitivity; [apply bind_assoc|]. apply bind_ext; intros hs s4.
  apply bind_ext; intros [] s5.
  etransitivity; [apply bind_assoc|]. apply bind_ext; intros ha s6.
  apply bind_ext; intros [] s7.
  etransitivity; [apply bind_assoc|]. reflexivity.
Qed.

Lemma handle_message_undecodable ws text self :
  handle_message ws (Undecodable text) self =
  (Ok tt, set_log (log self ++ [Invalid_JSON JSONDecodeError]) self).
Proof. reflexivity. Qed.

Lemma handle_message_not_object ws document self :
  (forall top, document <> ODict top) ->
  handle_message ws (Json document) self =
  (Ok tt, set_log (log self ++ [Error_handling_message AttributeError]) self).
Proof. intros H. destruct document; try reflexivity. destruct (H d eq_refl). Qed.

Lemma try_except_Ok {A} (body : M A) handler self a :
  outcome body self = Ok a -> try_except body handler self = body self.
Proof.
  unfold outcome, try_except. destruct (body self) as [[]]; simpl; congruence.
Qed.

Lemma release_all_inputs_eq self :
  release_all_inputs self = reset_then_apply (zeroed self).
Proof. reflexivity. Qed.

Lemma adapter_only_reset_then_apply : adapter_only reset_then_apply.
Proof.
  unfold reset_then_apply.
  apply keeps_bind; [apply keeps_attr|]. intros ct.
  apply keeps_bind; [|intros _; apply adapter_only_update_controller].
  destruct ct; repeat first [apply adapter_only_emit | keeps_step].
  apply keeps_for_each, adapter_only_release_key.
Qed.

Lemma core_control self self' : core self' = core self -> control self' = control self.
Proof. unfold core. congruence. Qed.

Lemma release_all_inputs_control self :
  control (after release_all_inputs self) = neutral.
Proof.
  unfold after. rewrite release_all_inputs_eq.
  apply (core_control (zeroed self)), adapter_only_reset_then_apply.
Qed.

Lemma handle_reset ws top self :
  command_of top = OStr "reset" ->
  handle_message ws (Json (ODict top)) self = release_all_inputs self.
Proof.
  intros Hc. rewrite handle_message_object.
  unfold on_command. rewrite Hc.
  change (try_except release_all_inputs on_exception self = release_all_inputs self).
  apply try_except_Ok with (a := tt), returns_release_all_inputs.
Qed.

(** C9. Handling a [reset] command zeroes the five control fields whatever
    they were, and handling it again at once leaves the very same control
    state: all zero and false both times. *)
Theorem reset_idempotent ws top self :
  command_of top = OStr "reset" ->
  let once := after (handle_message ws (Json (ODict top))) self in
  let twice := after (handle_message ws (Json (ODict top))) once in
  control once = neutral /\ control twice = neutral /\
  control twice = control once.
Proof.
  intros Hc once twice.
  assert (H : forall s, control (after (handle_message ws (Json (ODict top))) s) = neutral).
  { intros s. unfold after. rewrite (handle_reset _ _ _ Hc).
    apply release_all_inputs_control. }
  unfold twice, once. rewrite !H. auto.
Qed.

Lemma reset_idempotent_witness :
  command_of reset_command = OStr "reset" /\
  control (after (handle_message 1 (Json (ODict reset_command))) (racing VJOY)) = neutral /\
  control (after (handle_message 1 (Json (ODict reset_command)))
             (after (handle_message 1 (Json (ODict reset_command))) (racing VJOY))) = neutral /\
  control (after (handle_message 1 (Json (ODict reset_command)))
             (after (handle_message 1 (Json (ODict reset_command))) (racing VJOY))) =
  control (after (handle_message 1 (Json (ODict reset_command))) (racing VJOY)).
Proof.
  split; [reflexivity|].
  apply (reset_idempotent 1%nat reset_command (racing VJOY)). reflexivity.
Defined.

(** ** Partial updates *)

Lemma keeps_on_exception {X} (f : server -> X) e :
  (forall l self, f (set_log l self) = f self) -> keeps f (on_exception e).
Proof. intros H. destruct e; apply keeps_assign; intros self; apply H. Qed.

Lemma keeps_handle_update {X} (f : server -> X) ws top :
  command_of top = OStr "update" ->
  keeps f (ingest_steering (payload_of top)) ->
  keeps f (ingest_accelerator (payload_of top)) ->
  keeps f (ingest_brake (payload_of top)) ->
  keeps f update_controller ->
  (forall l self, f (set_log l self) = f self) ->
  keeps f (handle_message ws (Json (ODict top))).
Proof.
  intros Hc Hs Ha Hb Hu Hl.
  apply (keeps_ext f _ _ (handle_message_object ws top)).
  apply keeps_try_except; [|intros e; apply keeps_on_exception, Hl].
  unfold on_command. rewrite Hc.
  change (keeps f (ingest_steering (payload_of top) ;;
                   ingest_accelerator (payload_of top) ;;
                   ingest_brake (payload_of top) ;; update_controller)).
  repeat (apply keeps_bind; [assumption | intros _]). assumption.
Qed.

Lemma keeps_absent {X A} (f : server -> X) (k : string) (p : obj) (body : M A) (a : A) :
  contains k p <> Ok true ->
  keeps f (has ← lift (contains k p); if has : bool then body else mret a).
Proof.
  intros H self. unfold after, mbind, M_bind, lift.
  destruct (contains k p) as [[]|e]; simpl; congruence.
Qed.

Lemma keeps_update_controller_control {Y} (g : control_state -> Y) :
  keeps (fun self => g (control self)) update_controller.
Proof.
  apply (keeps_through core (fun c => g (snd (fst (fst c))))).
  apply adapter_only_update_controller.
Qed.

(** C4. An [update] leaves every field its [data] omits as it was: one
    without [steering] leaves [steering_angle] unchanged, one without
    [accelerator] leaves [accelerator] unchanged, one without [brake] leaves
    [brake] unchanged; the handbrake and the horn are never changed by an
    [update]. In particular [{"brake": 50}] changes none of steering,
    accelerator, handbrake and horn. *)
Theorem partial_update_frame ws top self :
  command_of top = OStr "update" ->
  let self' := after (handle_message ws (Json (ODict top))) self in
  (contains "steering" (payload_of top) <> Ok true ->
   current_steering self' = current_steering self) /\
  (contains "accelerator" (payload_of top) <> Ok true ->
   current_accelerator self' = current_accelerator self) /\
  (contains "brake" (payload_of top) <> Ok true ->
   current_brake self' = current_brake self) /\
  handbrake_pressed self' = handbrake_pressed self /\
  horn_pressed self' = horn_pressed self.
Proof.
  intros Hc self'. unfold self'.
  repeat split; try intros Habs.
  - apply (keeps_handle_update current_steering ws top Hc); try reflexivity.
    + apply keeps_absent, Habs.
    + unfold ingest_accelerator. repeat keeps_step.
    + unfold ingest_brake. repeat keeps_step.
    + apply (keeps_update_controller_control steering_angle).
  - apply (keeps_handle_update current_accelerator ws top Hc); try reflexivity.
    + unfold ingest_steering. repeat keeps_step.
    + apply keeps_absent, Habs.
    + unfold ingest_brake. repeat keeps_step.
    + apply (keeps_update_controller_control accelerator).
  - apply (keeps_handle_update current_brake ws top Hc); try reflexivity.
    + unfold ingest_steering. repeat keeps_step.
    + unfold ingest_accelerator. repeat keeps_step.
    + apply keeps_absent, Habs.
    + apply (keeps_update_controller_control brake).
  - apply (keeps_handle_update handbrake_pressed ws top Hc); try reflexivity.
    + unfold ingest_steering. repeat keeps_step.
    + unfold ingest_accelerator. repeat keeps_step.
    + unfold ingest_brake. repeat keeps_step.
    + apply (keeps_update_controller_control handbrake_engaged).
  - apply (keeps_handle_update horn_pressed ws top Hc); try reflexivity.
    + unfold ingest_steering. repeat keeps_step.
    + unfold ingest_accelerator. repeat keeps_step.
    + unfold ingest_brake. repeat keeps_step.
    + apply (keeps_update_controller_control horn_engaged).
Qed.

Lemma partial_update_frame_witness :
  let self' := after (handle_message 1 (Json (ODict brake_only))) (racing KEYBOARD) in
  (command_of brake_only = OStr "update" /\
   contains "steering" (payload_of brake_only) <> Ok true /\
   contains "accelerator" (payload_of brake_only) <> Ok true) /\
  current_steering self' = NInt 450 /\
  current_accelerator self' = f1 /\
  handbrake_pressed self' = true /\
  horn_pressed self' = false.
Proof.
  intros self'.
  assert (Hs : contains "steering" (payload_of brake_only) <> Ok true) by discriminate.
  assert (Ha : contains "accelerator" (payload_of brake_only) <> Ok true) by discriminate.
  split; [repeat split; assumption|].
  destruct (partial_update_frame 1%nat brake_only (racing KEYBOARD) eq_refl)
    as (H1 & H2 & _ & H3 & H4).
  split; [exact (H1 Hs)|]. split; [exact (H2 Ha)|]. split; [exact H3 | exact H4].
Defined.

(** ** Clamping at ingestion *)

Lemma ingest_steering_absent d self :
  dict_lookup "steering" d = None -> ingest_steering (ODict d) self = (Ok tt, self).
Proof.
  intros H. unfold ingest_steering, mbind, M_bind, lift; simpl. rewrite H. reflexivity.
Qed.

Lemma ingest_steering_num d x self :
  dict_lookup "steering" d = Some (ONum x) ->
  ingest_steering (ODict d) self =
  (Ok tt, set_current_steering
            (max (NFloat (fopp (max_steering_angle self)))
                 (min (NFloat (max_steering_angle self)) x)) self).
Proof.
  intros H. unfold ingest_steering, mbind, M_bind, lift; simpl. rewrite H. reflexivity.
Qed.

Lemma ingest_steering_bad d v self :
  dict_lookup "steering" d = Some v -> (forall x, v <> ONum x) ->
  ingest_steering (ODict d) self = (Raise TypeError, self).
Proof.
  intros H Hv. unfold ingest_steering, mbind, M_bind, lift; simpl. rewrite H.
  destruct v; try reflexivity. destruct (Hv n eq_refl).
Qed.

Lemma ingest_accelerator_absent d self :
  dict_lookup "accelerator" d = None -> ingest_accelerator (ODict d) self = (Ok tt, self).
Proof.
  intros H. unfold ingest_accelerator, mbind, M_bind, lift; simpl. rewrite H. reflexivity.
Qed.

Lemma ingest_accelerator_num d x q self :
  dict_lookup "accelerator" d = Some (ONum x) -> truediv x f100 = Ok q ->
  ingest_accelerator (ODict d) self =
  (Ok tt, set_current_accelerator (fmax f0 (fmin f1 q)) self).
Proof.
  intros H Hq. unfold ingest_accelerator, mbind, M_bind, lift; simpl. rewrite H.
  unfold clamp_pedal; simpl. rewrite Hq. reflexivity.
Qed.

Lemma ingest_accelerator_bad d v self :
  dict_lookup "accelerator" d = Some v -> (forall x, v <> ONum x) ->
  ingest_accelerator (ODict d) self = (Raise TypeError, self).
Proof.
  intros H Hv. unfold ingest_accelerator, mbind, M_bind, lift; simpl. rewrite H.
  destruct v; try reflexivity. destruct (Hv n eq_refl).
Qed.

Lemma ingest_brake_absent d self :
  dict_lookup "brake" d = None -> ingest_brake (ODict d) self = (Ok tt, self).
Proof.
  intros H. unfold ingest_brake, mbind, M_bind, lift; simpl. rewrite H. reflexivity.
Qed.

Lemma ingest_brake_num d x q self :
  dict_lookup "brake" d = Some (ONum x) -> truediv x f100 = Ok q ->
  ingest_brake (ODict d) self =
  (Ok tt, set_current_brake (fmax f0 (fmin f1 q)) self).
Proof.
  intros H Hq. unfold ingest_brake, mbind, M_bind, lift; simpl. rewrite H.
  unfold clamp_pedal; simpl. rewrite Hq. reflexivity.
Qed.

Lemma ingest_brake_bad d v self :
  dict_lookup "brake" d = Some v -> (forall x, v <> ONum x) ->
  ingest_brake (ODict d) self = (Raise TypeError, self).
Proof.
  intros H Hv. unfold ingest_brake, mbind, M_bind, lift; simpl. rewrite H.
  destruct v; try reflexivity. destruct (Hv n eq_refl).
Qed.

(** A field that is taken in leaves the server as it was or assigns it. *)
Lemma ingest_steering_numeric d self :
  numeric (dict_lookup "steering" d) ->
  outcome (ingest_steering (ODict d)) self = Ok tt /\
  forall {X} (f : server -> X), (forall x s, f (set_current_steering x s) = f s) ->
    f (after (ingest_steering (ODict d)) self) = f self.
Proof.
  unfold numeric, outcome, after.
  destruct (dict_lookup "steering" d) as [v|] eqn:E.
  - intros [x ->]. rewrite (ingest_steering_num _ _ _ E). split; [reflexivity|].
    intros X f Hf. apply Hf.
  - intros _. rewrite (ingest_steering_absent _ _ E). auto.
Qed.

Lemma ingest_accelerator_percentage d self :
  percentage (dict_lookup "accelerator" d) ->
  outcome (ingest_accelerator (ODict d)) self = Ok tt /\
  forall {X} (f : server -> X), (forall x s, f (set_current_accelerator x s) = f s) ->
    f (after (ingest_accelerator (ODict d)) self) = f self.
Proof.
  unfold percentage, outcome, after.
  destruct (dict_lookup "accelerator" d) as [v|] eqn:E.
  - intros (x & q & -> & Hq). rewrite (ingest_accelerator_num _ _ _ _ E Hq).
    split; [reflexivity|]. intros X f Hf. apply Hf.
  - intros _. rewrite (ingest_accelerator_absent _ _ E). auto.
Qed.

Lemma ingest_brake_percentage d self :
  percentage (dict_lookup "brake" d) ->
  outcome (ingest_brake (ODict d)) self = Ok tt /\
  forall {X} (f : server -> X), (forall x s, f (set_current_brake x s) = f s) ->
    f (after (ingest_brake (ODict d)) self) = f self.
Proof.
  unfold percentage, outcome, after.
  destruct (dict_lookup "brake" d) as [v|] eqn:E.
  - intros (x & q & -> & Hq). rewrite (ingest_brake_num _ _ _ _ E Hq).
    split; [reflexivity|]. intros X f Hf. apply Hf.
  - intros _. rewrite (ingest_brake_absent _ _ E). auto.
Qed.

(** [handle_message] on an [update] whose data is the dict [d], as the run
    of its four steps under the handler. *)
Lemma handle_update_dict ws top d self :
  command_of top = OStr "update" -> payload_of top = ODict d ->
  handle_message ws (Json (ODict top)) self =
  try_except
    (ingest_steering (ODict d) ;; ingest_accelerator (ODict d) ;;
     ingest_brake (ODict d) ;; update_controller)
    on_exception self.
Proof.
  intros Hc Hp. rewrite handle_message_object. unfold on_command.
  rewrite Hc, Hp. reflexivity.
Qed.

Lemma seq_Ok (m k : M unit) self :
  outcome m self = Ok tt -> (m ;; k) self = k (after m self).
Proof.
  unfold outcome, after, mbind, M_bind. destruct (m self) as [[[]|e] s]; simpl; congruence.
Qed.

Lemma seq_Raise (m k : M unit) self e :
  outcome m self = Raise e -> (m ;; k) self = (Raise e, after m self).
Proof.
  unfold outcome, after, mbind, M_bind. destruct (m self) as [[[]|e'] s]; simpl; congruence.
Qed.

Lemma try_except_Raise {A} (body : M A) handler self e :
  outcome body self = Raise e ->
  try_except body handler self = handler e (after body self).
Proof.
  unfold outcome, after, try_except. destruct (body self) as [[]]; simpl; congruence.
Qed.

Lemma try_except_seq (m k : M unit) handler self :
  outcome m self = Ok tt ->
  try_except (m ;; k) handler self = try_except k handler (after m self).
Proof. intros H. unfold try_except. rewrite (seq_Ok _ _ _ H). reflexivity. Qed.

Lemma after_try_seq {X} (f : server -> X) (m k : M unit) handler self :
  outcome m self = Ok tt -> keeps f k -> (forall e, keeps f (handler e)) ->
  f (after (try_except (m ;; k) handler) self) = f (after m self).
Proof.
  intros Hm Hk Hh. unfold after at 1. rewrite (try_except_seq _ _ _ _ Hm).
  apply (keeps_try_except f k handler Hk Hh).
Qed.

Lemma keeps_ingest_steering {X} (f : server -> X) p :
  (forall x s, f (set_current_steering x s) = f s) -> keeps f (ingest_steering p).
Proof.
  intros H. unfold ingest_steering.
  repeat first [apply keeps_assign; intros ?; apply H | keeps_step].
Qed.

Lemma keeps_ingest_accelerator {X} (f : server -> X) p :
  (forall x s, f (set_current_accelerator x s) = f s) -> keeps f (ingest_accelerator p).
Proof.
  intros H. unfold ingest_accelerator.
  repeat first [apply keeps_assign; intros ?; apply H | keeps_step].
Qed.

Lemma keeps_ingest_brake {X} (f : server -> X) p :
  (forall x s, f (set_current_brake x s) = f s) -> keeps f (ingest_brake p).
Proof.
  intros H. unfold ingest_brake.
  repeat first [apply keeps_assign; intros ?; apply H | keeps_step].
Qed.



(** ** Errors inside an [update] *)

(** C10. An [update] is not atomic. When [steering] is a number and
    [accelerator] is not one (a string, say), the handler has already
    assigned the clamped steering when the accelerator raises [TypeError];
    it logs, returns without raising, and makes no call to the device: the
    control state has changed and the device has not been told. The same
    holds when [accelerator] is taken in and [brake] is not a number. *)
Theorem update_not_atomic ws top d x self :
  command_of top = OStr "update" -> payload_of top = ODict d ->
  dict_lookup "steering" d = Some (ONum x) ->
  let clamped_steering :=
    max (NFloat (fopp (max_steering_angle self)))
        (min (NFloat (max_steering_angle self)) x) in
  let self' := after (handle_message ws (Json (ODict top))) self in
  (forall v, dict_lookup "accelerator" d = Some v -> non_numeric v ->
     handle_message ws (Json (ODict top)) self =
     (Ok tt, set_log (log self ++ [Error_handling_message TypeError])
               (set_current_steering clamped_steering self))) /\
  (forall v, percentage (dict_lookup "accelerator" d) ->
     dict_lookup "brake" d = Some v -> non_numeric v ->
     outcome (handle_message ws (Json (ODict top))) self = Ok tt /\
     current_steering self' = clamped_steering /\
     device self' = device self /\
     log self' = log self ++ [Error_handling_message TypeError]).
Proof.
  intros Hc Hp Hx clamped_steering self'.
  assert (Hs1 : outcome (ingest_steering (ODict d)) self = Ok tt)
    by (unfold outcome; rewrite (ingest_steering_num _ _ _ Hx); reflexivity).
  assert (Es1 : after (ingest_steering (ODict d)) self =
                set_current_steering clamped_steering self)
    by (unfold after; rewrite (ingest_steering_num _ _ _ Hx); reflexivity).
  split.
  - intros v Hv Hn.
    rewrite (handle_update_dict _ _ _ _ Hc Hp).
    rewrite (try_except_seq _ _ _ _ Hs1), Es1.
    unfold try_except.
    rewrite (seq_Raise _ _ _ TypeError);
      unfold outcome, after; rewrite (ingest_accelerator_bad _ _ _ Hv Hn); reflexivity.
  - intros v Ha Hv Hn. unfold self', outcome, after.
    rewrite (handle_update_dict _ _ _ _ Hc Hp).
    rewrite (try_except_seq _ _ _ _ Hs1), Es1.
    destruct (ingest_accelerator_percentage d
                (set_current_steering clamped_steering self) Ha) as [Ha1 Ha2].
    rewrite (try_except_seq _ _ _ _ Ha1).
    unfold try_except.
    rewrite (seq_Raise _ _ _ TypeError);
      unfold outcome, after; rewrite (ingest_brake_bad _ _ _ Hv Hn); simpl;
      [|reflexivity].
    repeat split.
    + apply (Ha2 _ current_steering). reflexivity.
    + apply (Ha2 _ device). reflexivity.
    + f_equal. apply (Ha2 _ log). reflexivity.
Qed.

Lemma update_not_atomic_witness :
  (command_of mistyped_accelerator = OStr "update" /\
   payload_of mistyped_accelerator =
     ODict [("steering"%string, ONum (NInt 50)); ("accelerator"%string, OStr "full")] /\
   dict_lookup "accelerator"
     [("steering"%string, ONum (NInt 50)); ("accelerator"%string, OStr "full")] =
     Some (OStr "full") /\
   non_numeric (OStr "full")) /\
  handle_message 1 (Json (ODict mistyped_accelerator)) (racing KEYBOARD) =
  (Ok tt, set_log [Error_handling_message TypeError]
            (set_current_steering (NInt 50) (racing KEYBOARD))).
Proof.
  assert (Hn : non_numeric (OStr "full")) by (intros n; discriminate).
  split; [repeat split; exact Hn|].
  apply (proj1 (update_not_atomic 1%nat mistyped_accelerator _ (NInt 50)
                  (racing KEYBOARD) eq_refl eq_refl eq_refl) (OStr "full"));
    [reflexivity | exact Hn].
Defined.

(** ** Malformed frames *)

Lemma getitem_not_dict p k : (forall d, p <> ODict d) -> getitem p k = Raise TypeError.
Proof. intros H. destruct p; try reflexivity. destruct (H d eq_refl). Qed.

Lemma ingest_steering_not_dict p self :
  (forall d, p <> ODict d) -> after (ingest_steering p) self = self.
Proof.
  intros H. unfold after, ingest_steering, mbind, M_bind, lift.
  destruct (contains "steering" p) as [[]|e]; simpl; try reflexivity.
  rewrite (getitem_not_dict _ _ H). reflexivity.
Qed.

Lemma ingest_accelerator_not_dict p self :
  (forall d, p <> ODict d) -> after (ingest_accelerator p) self = self.
Proof.
  intros H. unfold after, ingest_accelerator, mbind, M_bind, lift.
  destruct (contains "accelerator" p) as [[]|e]; simpl; try reflexivity.
  rewrite (getitem_not_dict _ _ H). reflexivity.
Qed.

Lemma ingest_brake_not_dict p self :
  (forall d, p <> ODict d) -> after (ingest_brake p) self = self.
Proof.
  intros H. unfold after, ingest_brake, mbind, M_bind, lift.
  destruct (contains "brake" p) as [[]|e]; simpl; try reflexivity.
  rewrite (getitem_not_dict _ _ H). reflexivity.
Qed.

Lemma on_command_not_string command payload self :
  (forall c, command <> OStr c) -> on_command command payload self = (Ok tt, self).
Proof.
  intros H. unfold on_command.
  destruct command; try reflexivity. destruct (H s eq_refl).
Qed.

Lemma handle_message_refused ws text e self :
  handle_message ws (Refused text e) self = on_exception e self.
Proof. destruct e; reflexivity. Qed.

Lemma malformed_keeps_core ws m self :
  malformed m ->
  core (after (handle_message ws m) self) = core self.
Proof.
  destruct m as [text|text e|document];
    [reflexivity|intros _; destruct e; reflexivity|].
  destruct document as [| | | |top]; try reflexivity.
  intros [Hc|[Hc Hp]].
  - unfold after. rewrite handle_message_object. unfold try_except.
    rewrite (on_command_not_string _ _ _ Hc). reflexivity.
  - apply (keeps_handle_update core ws top Hc); try reflexivity.
    + intros s. apply (f_equal core), ingest_steering_not_dict, Hp.
    + intros s. apply (f_equal core), ingest_accelerator_not_dict, Hp.
    + intros s. apply (f_equal core), ingest_brake_not_dict, Hp.
    + apply adapter_only_update_controller.
Qed.

Lemma malformed_not_expected m : malformed m -> expected_structure m = false.
Proof.
  destruct m as [text|text e|document]; try reflexivity.
  destruct document as [| | | |top]; try reflexivity.
  unfold malformed, command_of, payload_of. simpl.
  destruct (dict_lookup "command" top) as [[| |c| |]|]; try reflexivity.
  intros [Hc|[_ Hp]]; [destruct (Hc c eq_refl)|].
  destruct (dict_lookup "data" top) as [[| | | |d]|]; try reflexivity.
  destruct (Hp d eq_refl).
Qed.

(** C5 (amended). The frames the handler drops for their structure alone
    (the text is refused by [json.loads], as ["{not json"] is; or the
    document is not an object; or the [command] of the object is not a
    string; or the [data] of an [update] is not an object) do not have the
    expected structure, and for each of them, whatever the control state,
    the handler leaves the five fields as they were and returns without
    raising, so the read loop of the connection goes on with the next frame
    and the client stays registered. A text that [json.loads] refuses and a
    document that is not an object are logged, by one entry, and nothing
    else changes: no device call is made. An object whose [command] is not
    a string is ignored without a log entry. *)
Theorem malformed_dropped ws m self :
  malformed m ->
  let self' := after (handle_message ws m) self in
  expected_structure m = false /\
  outcome (handle_message ws m) self = Ok tt /\
  control self' = control self /\
  connected_clients self' = connected_clients self /\
  (forall frames,
     for_each (m :: frames) (handle_message ws) self =
     for_each frames (handle_message ws) self') /\
  (forall text, m = Undecodable text ->
     self' = set_log (log self ++ [Invalid_JSON JSONDecodeError]) self) /\
  (forall text e, m = Refused text e -> e <> JSONDecodeError ->
     self' = set_log (log self ++ [Error_handling_message e]) self) /\
  (forall document, m = Json document -> (forall top, document <> ODict top) ->
     self' = set_log (log self ++ [Error_handling_message AttributeError]) self) /\
  (forall top, m = Json (ODict top) -> (forall c, command_of top <> OStr c) ->
     self' = self).
Proof.
  intros Hm self'.
  pose proof (malformed_keeps_core ws m self Hm) as Hcore.
  pose proof (returns_handle_message ws m self) as Hret.
  split; [apply malformed_not_expected, Hm|].
  split; [exact Hret|].
  split; [apply core_control, Hcore|].
  split; [unfold core in Hcore; injection Hcore; intros; assumption|].
  split; [intros frames; simpl; apply seq_Ok, Hret|].
  split; [intros text ->; reflexivity|].
  split; [|split].
  - intros text e -> He. unfold self', after.
    rewrite handle_message_refused.
    destruct e; try reflexivity. destruct (He eq_refl).
  - intros document -> Hd. unfold self', after.
    rewrite (handle_message_not_object _ _ _ Hd). reflexivity.
  - intros top -> Hc. unfold self', after.
    rewrite handle_message_object. unfold try_except.
    rewrite (on_command_not_string _ _ _ Hc). reflexivity.
Qed.

Lemma malformed_dropped_witness :
  malformed (Undecodable "{not json") /\
  expected_structure (Undecodable "{not json") = false /\
  outcome (handle_message 1 (Undecodable "{not json")) (racing VGAMEPAD_XBOX) = Ok tt /\
  control (after (handle_message 1 (Undecodable "{not json")) (racing VGAMEPAD_XBOX)) =
    control (racing VGAMEPAD_XBOX) /\
  after (handle_message 1 (Undecodable "{not json")) (racing VGAMEPAD_XBOX) =
    set_log [Invalid_JSON JSONDecodeError] (racing VGAMEPAD_XBOX).
Proof.
  split; [exact I|].
  destruct (malformed_dropped 1%nat (Undecodable "{not json") (racing VGAMEPAD_XBOX) I)
    as (H0 & H1 & H2 & _ & _ & H3 & _).
  split; [exact H0|].
  split; [exact H1|]. split; [exact H2|]. apply (H3 "{not json"%string eq_refl).
Defined.

(** A frame that has not the expected structure is not always logged and
    dropped. [{"command": "horn_press", "data": null}] is no record with a
    string [command] and a mapping [data], yet it is acted on: the horn flag
    is set, the gamepad is driven, and nothing is logged. And
    [{"command": 5, "data": {}}] is dropped without a log entry. *)
Lemma structure_not_checked_counterexample :
  let self := racing VGAMEPAD_XBOX in
  let self' := after (handle_message 1 horn_press_null) self in
  expected_structure horn_press_null = false /\
  horn_engaged (control self) = false /\
  horn_engaged (control self') = true /\
  control self' <> control self /\
  log self' = log self /\
  device self' <> device self /\
  expected_structure numeric_command = false /\
  after (handle_message 1 numeric_command) self = self.
Proof.
  repeat split; try reflexivity; intros H; discriminate H.
Qed.

(** ** The domain invariant *)

Lemma preserves_bind P {A B} (m : M A) (k : A -> M B) :
  preserves P m -> (forall a, preserves P (k a)) -> preserves P (m ≫= k).
Proof.
  intros Hm Hk self HP. unfold after, mbind, M_bind.
  specialize (Hm self HP). unfold after in Hm.
  destruct (m self) as [[a|e] self']; simpl in *; [|assumption].
  apply Hk, Hm.
Qed.

Lemma preserves_try_except P {A} (body : M A) handler :
  preserves P body -> (forall e, preserves P (handler e)) ->
  preserves P (try_except body handler).
Proof.
  intros Hb Hh self HP. unfold after, try_except.
  specialize (Hb self HP). unfold after in Hb.
  destruct (body self) as [[a|e] self']; simpl in *; [assumption|].
  apply Hh, Hb.
Qed.

Lemma preserves_ext P {A} (m m' : M A) :
  (forall self, m self = m' self) -> preserves P m' -> preserves P m.
Proof. intros H Hm self HP. unfold after. rewrite H. apply Hm, HP. Qed.

Lemma sound_core self self' : core self' = core self -> sound self -> sound self'.
Proof.
  intros H. pose proof (core_control _ _ H) as Hc.
  assert (Hm : max_steering_angle self' = max_steering_angle self)
    by (apply (f_equal (fun c => snd (fst c))) in H; exact H).
  unfold sound, in_domain. rewrite Hc, Hm. tauto.
Qed.

Lemma preserves_sound_adapter_only {A} (m : M A) :
  adapter_only m -> preserves sound m.
Proof. intros H self. apply sound_core, H. Qed.

Lemma neutral_in_domain m : nonneg m = true -> in_domain_of m neutral = true.
Proof. destruct m as [s|s| |s mm e]; try destruct s; simpl; easy. Qed.

Lemma sound_zeroed self : sound self -> sound (zeroed self).
Proof. intros [Hm _]. split; [exact Hm | apply neutral_in_domain, Hm]. Qed.

Lemma preserves_sound_release_all_inputs : preserves sound release_all_inputs.
Proof.
  intros self H. unfold after. rewrite release_all_inputs_eq.
  apply (sound_core (zeroed self)); [apply adapter_only_reset_then_apply|].
  apply sound_zeroed, H.
Qed.

Lemma sound_set_steering self x :
  sound self ->
  sound (set_current_steering
           (max (NFloat (fopp (max_steering_angle self)))
                (min (NFloat (max_steering_angle self)) x)) self).
Proof.
  intros [Hm Hd]. split; [exact Hm|].
  unfold in_domain, in_domain_of in *; simpl in *.
  apply andb_prop in Hd as [Hd Hb]. apply andb_prop in Hd as [_ Ha].
  rewrite Ha, Hb, (clamped_in_range _ _ _ _ (steering_clamped _ x Hm)). reflexivity.
Qed.

Lemma sound_set_accelerator self q :
  sound self -> sound (set_current_accelerator (fmax f0 (fmin f1 q)) self).
Proof.
  intros [Hm Hd]. split; [exact Hm|].
  unfold in_domain, in_domain_of in *; simpl in *.
  apply andb_prop in Hd as [Hd Hb]. apply andb_prop in Hd as [Hs _].
  rewrite Hs, Hb, pedal_in_range. reflexivity.
Qed.

Lemma sound_set_brake self q :
  sound self -> sound (set_current_brake (fmax f0 (fmin f1 q)) self).
Proof.
  intros [Hm Hd]. split; [exact Hm|].
  unfold in_domain, in_domain_of in *; simpl in *.
  apply andb_prop in Hd as [Hd _]. apply andb_prop in Hd as [Hs Ha].
  rewrite Hs, Ha, pedal_in_range. reflexivity.
Qed.

Lemma preserves_sound_ingest_steering p : preserves sound (ingest_steering p).
Proof.
  intros self H. unfold after, ingest_steering, mbind, M_bind, lift, clamp_steering.
  destruct (contains "steering" p) as [[]|e]; simpl; try assumption.
  destruct (getitem p "steering") as [v|e]; simpl; try assumption.
  destruct (as_num v) as [x|e]; simpl; try assumption.
  apply sound_set_steering, H.
Qed.

Lemma preserves_sound_ingest_accelerator p : preserves sound (ingest_accelerator p).
Proof.
  intros self H. unfold after, ingest_accelerator, mbind, M_bind, lift, clamp_pedal.
  destruct (contains "accelerator" p) as [[]|e]; simpl; try assumption.
  destruct (getitem p "accelerator") as [v|e]; simpl; try assumption.
  destruct (as_num v) as [x|e]; simpl; try assumption.
  destruct (truediv x f100) as [q|e]; simpl; try assumption.
  apply sound_set_accelerator, H.
Qed.

Lemma preserves_sound_ingest_brake p : preserves sound (ingest_brake p).
Proof.
  intros self H. unfold after, ingest_brake, mbind, M_bind, lift, clamp_pedal.
  destruct (contains "brake" p) as [[]|e]; simpl; try assumption.
  destruct (getitem p "brake") as [v|e]; simpl; try assumption.
  destruct (as_num v) as [x|e]; simpl; try assumption.
  destruct (truediv x f100) as [q|e]; simpl; try assumption.
  apply sound_set_brake, H.
Qed.

Lemma preserves_sound_button g :
  (forall self, max_steering_angle (g self) = max_steering_angle self) ->
  (forall self, steering_angle (control (g self)) = steering_angle (control self)) ->
  (forall self, accelerator (control (g self)) = accelerator (control self)) ->
  (forall self, brake (control (g self)) = brake (control self)) ->
  preserves sound (assign g).
Proof.
  intros Hm Hs Ha Hb self [H1 H2]. unfold after, assign; simpl.
  unfold sound, in_domain, in_domain_of in *.
  rewrite Hm, Hs, Ha, Hb. auto.
Qed.

Lemma preserves_sound_on_command command payload :
  preserves sound (on_command command payload).
Proof.
  pose proof (preserves_sound_adapter_only _ adapter_only_update_controller) as Hu.
  unfold on_command.
  repeat match goal with
         | |- preserves _ (if ?c then _ else _) => destruct c
         end.
  - apply preserves_bind; [apply preserves_sound_ingest_steering | intros _].
    apply preserves_bind; [apply preserves_sound_ingest_accelerator | intros _].
    apply preserves_bind; [apply preserves_sound_ingest_brake | intros _].
    exact Hu.
  - apply preserves_bind; [apply preserves_sound_button; reflexivity | intros _; exact Hu].
  - apply preserves_bind; [apply preserves_sound_button; reflexivity | intros _; exact Hu].
  - apply preserves_bind; [apply preserves_sound_button; reflexivity | intros _; exact Hu].
  - apply preserves_bind; [apply preserves_sound_button; reflexivity | intros _; exact Hu].
  - apply preserves_sound_release_all_inputs.
  - intros self H. exact H.
Qed.

Lemma preserves_sound_on_exception e : preserves sound (on_exception e).
Proof.
  apply preserves_sound_adapter_only.
  destruct e; apply adapter_only_logger_error.
Qed.

Lemma preserves_sound_handle_message ws m : preserves sound (handle_message ws m).
Proof.
  destruct m as [text|text e|document].
  - intros self H. exact H.
  - apply (preserves_ext sound _ _ (handle_message_refused ws text e)).
    apply preserves_sound_on_exception.
  - destruct document as [| | | |top]; try (intros self H; exact H).
    apply (preserves_ext sound _ _ (handle_message_object ws top)).
    apply preserves_try_except;
      [apply preserves_sound_on_command | apply preserves_sound_on_exception].
Qed.

Lemma preserves_sound_on_event e : preserves sound (on_event e).
Proof.
  destruct e as [ws|ws m|ws]; simpl.
  - intros self H. exact H.
  - apply preserves_sound_handle_message.
  - unfold unregister_client.
    apply preserves_bind; [intros self H; exact H | intros _].
    apply preserves_bind; [intros self H; exact H | intros clients].
    destruct (bool_decide _); [apply preserves_sound_release_all_inputs|].
    intros self H. exact H.
Qed.

Lemma run_sound events : forall self,
  sound self ->
  fst (run events self) = Ok tt /\ sound (snd (run events self)).
Proof.
  induction events as [|e events IH]; intros self H; simpl.
  - auto.
  - pose proof (returns_on_event e self) as Hr.
    pose proof (preserves_sound_on_event e self H) as Hs.
    unfold outcome in Hr. unfold after in Hs.
    destruct (on_event e self) as [[[]|x] self']; simpl in *; [|discriminate].
    apply IH, Hs.
Qed.

Lemma sound_init h : sound (init h).
Proof. split; reflexivity. Qed.

(** C2. From the initial all-zero state, after any sequence of connects,
    received frames (commands, resets, malformed frames) and disconnects,
    no event has raised and the control state is within its declared
    domains: steering within [[-max_rotation, +max_rotation]], accelerator
    and brake within [[0.0, 1.0]]. As every prefix of a sequence is a
    sequence, this holds after each step. *)
Theorem control_state_always_in_domain h events :
  fst (run events (init h)) = Ok tt /\
  in_domain (snd (run events (init h))) = true.
Proof.
  destruct (run_sound events (init h) (sound_init h)) as [Hr [_ Hd]]. auto.
Qed.

(** ** The keyboard adapter *)

Lemma press_key_eq key self :
  press_key key self =
  (Ok tt, if bool_decide (key ∈ keys_pressed self) then self else key_down key self).
Proof.
  unfold press_key, mbind, M_bind, attr.
  destruct (bool_decide (key ∉ keys_pressed self)) eqn:E.
  - apply bool_decide_eq_true in E. rewrite bool_decide_eq_false_2 by exact E.
    reflexivity.
  - apply bool_decide_eq_false in E. rewrite bool_decide_eq_true_2; [reflexivity|].
    destruct (decide (key ∈ keys_pressed self)); [assumption | contradiction].
Qed.

Lemma release_key_eq key self :
  release_key key self =
  (Ok tt, if bool_decide (key ∈ keys_pressed self) then key_up key self else self).
Proof.
  unfold release_key, mbind, M_bind, attr.
  destruct (bool_decide (key ∈ keys_pressed self)); reflexivity.
Qed.

Lemma held_after_app held calls calls' :
  held_after held (calls ++ calls') = held_after (held_after held calls) calls'.
Proof.
  revert held. induction calls as [|c calls IH]; intros held; [reflexivity|].
  destruct c; simpl; apply IH.
Qed.

Lemma transitions_only_app held calls calls' :
  transitions_only held (calls ++ calls') =
  transitions_only held calls && transitions_only (held_after held calls) calls'.
Proof.
  revert held. induction calls as [|c calls IH]; intros held; [reflexivity|].
  destruct c; simpl; rewrite ?IH, ?andb_assoc; reflexivity.
Qed.

Lemma keys_tracked_emit c self :
  is_key_call c = false -> keys_tracked self -> keys_tracked (after (emit c) self).
Proof.
  intros Hc [H1 H2]. unfold keys_tracked, after, emit, assign; simpl.
  rewrite transitions_only_app, held_after_app, H1, H2.
  destruct c; try discriminate; split; reflexivity.
Qed.

Lemma keys_tracked_key_down key self :
  key ∉ keys_pressed self -> keys_tracked self -> keys_tracked (key_down key self).
Proof.
  intros Hk [H1 H2]. unfold keys_tracked, key_down; simpl.
  rewrite transitions_only_app, held_after_app, H1, H2; simpl.
  rewrite bool_decide_eq_true_2 by exact Hk. split; reflexivity.
Qed.

Lemma keys_tracked_key_up key self :
  key ∈ keys_pressed self -> keys_tracked self -> keys_tracked (key_up key self).
Proof.
  intros Hk [H1 H2]. unfold keys_tracked, key_up; simpl.
  rewrite transitions_only_app, held_after_app, H1, H2; simpl.
  rewrite bool_decide_eq_true_2 by exact Hk. split; reflexivity.
Qed.

Lemma preserves_keys_tracked_press_key key : preserves keys_tracked (press_key key).
Proof.
  intros self H. unfold after. rewrite press_key_eq; simpl.
  destruct (bool_decide (key ∈ keys_pressed self)) eqn:E; [exact H|].
  apply bool_decide_eq_false in E. apply keys_tracked_key_down; assumption.
Qed.

Lemma preserves_keys_tracked_release_key key : preserves keys_tracked (release_key key).
Proof.
  intros self H. unfold after. rewrite release_key_eq; simpl.
  destruct (bool_decide (key ∈ keys_pressed self)) eqn:E; [|exact H].
  apply bool_decide_eq_true in E. apply keys_tracked_key_up; assumption.
Qed.

Lemma preserves_keeps P {X A} (f : server -> X) (m : M A) :
  (forall self self', f self' = f self -> P self -> P self') ->
  keeps f m -> preserves P m.
Proof. intros HP Hk self H. apply (HP self); [apply Hk | exact H]. Qed.

Lemma preserves_for_each P {A} (l : list A) body :
  (forall x, preserves P (body x)) -> preserves P (for_each l body).
Proof.
  intros Hb. induction l as [|x l IH]; simpl.
  - intros self H. exact H.
  - apply preserves_bind; [apply Hb | intros _; apply IH].
Qed.

Lemma keys_tracked_keyboard self self' :
  keyboard self' = keyboard self -> keys_tracked self -> keys_tracked self'.
Proof.
  unfold keyboard, keys_tracked. intros H. injection H as Hd Hk.
  rewrite Hd, Hk. tauto.
Qed.

(** One step of a [preserves keys_tracked] goal. *)
Ltac tracked_step :=
  first
    [ apply preserves_keys_tracked_press_key
    | apply preserves_keys_tracked_release_key
    | (intros ? ?; apply keys_tracked_emit; [reflexivity | assumption])
    | apply preserves_try_except; [|intros ?]
    | apply preserves_bind; [|intros ?]
    | match goal with
      | |- preserves _ (if ?c then _ else _) => destruct c
      | |- preserves _ (match ?c with _ => _ end) => destruct c
      end
    | (apply (preserves_keeps keys_tracked keyboard);
       [exact keys_tracked_keyboard | solve [repeat keeps_step]])
    | progress cbv zeta ].

Lemma preserves_keys_tracked_update_controller :
  preserves keys_tracked update_controller.
Proof.
  unfold update_controller, update_vgamepad_controller,
    update_vjoy_controller, update_keyboard_controller, logger_error.
  repeat tracked_step.
Qed.

Lemma preserves_keys_tracked_release_all_inputs :
  preserves keys_tracked release_all_inputs.
Proof.
  apply (preserves_ext keys_tracked _ _ release_all_inputs_eq).
  intros self H. unfold after.
  assert (Hz : keys_tracked (zeroed self)) by exact H.
  revert Hz. generalize (zeroed self). clear self H.
  change (preserves keys_tracked reset_then_apply). unfold reset_then_apply.
  apply preserves_bind; [intros self H; exact H | intros ct].
  apply preserves_bind; [|intros _; apply preserves_keys_tracked_update_controller].
  destruct ct; repeat tracked_step.
  apply preserves_for_each, preserves_keys_tracked_release_key.
Qed.

Lemma preserves_keys_tracked_on_command command payload :
  preserves keys_tracked (on_command command payload).
Proof.
  pose proof preserves_keys_tracked_update_controller as Hu.
  pose proof preserves_keys_tracked_release_all_inputs as Hr.
  unfold on_command, ingest_steering, ingest_accelerator, ingest_brake.
  repeat first [exact Hu | exact Hr | tracked_step].
Qed.

Lemma preserves_keys_tracked_handle_message ws m :
  preserves keys_tracked (handle_message ws m).
Proof.
  assert (Hlog : forall e, preserves keys_tracked (logger_error e)).
  { intros e. apply (preserves_keeps keys_tracked keyboard);
      [exact keys_tracked_keyboard | unfold logger_error; repeat keeps_step]. }
  destruct m as [text|text e|document].
  - apply Hlog.
  - destruct e; apply Hlog.
  - destruct document as [| | | |top]; try apply Hlog.
    apply (preserves_ext keys_tracked _ _ (handle_message_object ws top)).
    apply preserves_try_except; [apply preserves_keys_tracked_on_command|].
    intros []; apply Hlog.
Qed.

Lemma preserves_keys_tracked_on_event e : preserves keys_tracked (on_event e).
Proof.
  destruct e as [ws|ws m|ws]; simpl.
  - intros self H. exact H.
  - apply preserves_keys_tracked_handle_message.
  - unfold unregister_client.
    apply preserves_bind; [intros self H; exact H | intros _].
    apply preserves_bind; [intros self H; exact H | intros clients].
    destruct (bool_decide _); [apply preserves_keys_tracked_release_all_inputs|].
    intros self H. exact H.
Qed.

Lemma run_keys_tracked events : forall self,
  keys_tracked self -> keys_tracked (snd (run events self)).
Proof.
  induction events as [|e events IH]; intros self H; simpl; [exact H|].
  pose proof (preserves_keys_tracked_on_event e self H) as Hs. unfold after in Hs.
  destruct (on_event e self) as [[[]|x] self']; simpl in *; [apply IH, Hs | exact Hs].
Qed.

(** C7. The keyboard adapter emits transitions only. After any sequence of
    events, every [keyDown] among the calls made was of a key not then in
    the held-key set and every [keyUp] of a key then in it, and the set the
    adapter tracks is the set of keys that are down. In particular two
    [update]s with steering 50 and then 60 press the right key once. *)
Theorem keyboard_emits_transitions_only h events :
  let self := snd (run events (init h)) in
  transitions_only ∅ (device self) = true /\
  held_after ∅ (device self) = keys_pressed self /\
  let twice := snd (run [Connect 1; Receive 1 (steer 50); Receive 1 (steer 60)]
                        (init (host_of KEYBOARD))) in
  device twice = [keyDown "d"] /\ presses "d" (device twice) = 1%nat.
Proof.
  intros self.
  assert (H0 : keys_tracked (init h)) by (split; reflexivity).
  destruct (run_keys_tracked events (init h) H0) as [H1 H2].
  split; [exact H1|]. split; [exact H2|].
  split; vm_compute; reflexivity.
Qed.

(** ** Disconnects *)

Lemma server_eta self :
  mk_server (connected_clients self) (current_steering self)
    (max_steering_angle self) (current_accelerator self) (current_brake self)
    (handbrake_pressed self) (horn_pressed self) (controller_type self)
    (keys_pressed self) (device self) (log self) = self.
Proof. destruct self; reflexivity. Qed.

Lemma release_each l : forall self,
  NoDup l -> (forall key, key ∈ l -> key ∈ keys_pressed self) ->
  for_each l release_key self =
  (Ok tt, set_keys_pressed (keys_pressed self ∖ list_to_set l)
            (set_device (device self ++ map keyUp l) self)).
Proof.
  induction l as [|key l IH]; intros self Hnd Hin; simpl.
  - unfold mret, M_ret, set_keys_pressed, set_device; simpl.
    rewrite app_nil_r, difference_empty_L. rewrite server_eta. reflexivity.
  - apply NoDup_cons in Hnd as [Hk Hnd].
    unfold mbind, M_bind. rewrite release_key_eq.
    rewrite bool_decide_eq_true_2 by (apply Hin; left).
    rewrite IH; [|exact Hnd|].
    + unfold key_up, set_keys_pressed, set_device; simpl.
      rewrite <- app_assoc; simpl.
      replace (keys_pressed self ∖ {[key]} ∖ list_to_set l)
        with (keys_pressed self ∖ ({[key]} ∪ list_to_set l)) by set_solver.
      reflexivity.
    + intros k Hkl. unfold key_up; simpl.
      apply elem_of_difference. split; [apply Hin; right; exact Hkl|].
      intros Heq. apply elem_of_singleton in Heq. subst k. contradiction.
Qed.

Lemma update_keyboard_neutral self :
  control self = neutral -> keys_pressed self = ∅ ->
  update_keyboard_controller self = (Ok tt, self).
Proof.
  destruct self as [cc st msa acc br hb horn ct keys dev lg]; unfold control; simpl.
  intros H ->. injection H as Hs Ha Hb Hh Hn. subst. reflexivity.
Qed.

Lemma snoc_calls (dev : list call) calls :
  dev ++ calls = fold_left (fun l c => l ++ [c]) calls dev.
Proof.
  revert dev. induction calls as [|c calls IH]; intros dev; simpl.
  - apply app_nil_r.
  - rewrite <- IH, <- app_assoc. reflexivity.
Qed.

Lemma release_all_inputs_calls self :
  max_steering_angle self = f900 ->
  device (after release_all_inputs self) =
    device self ++ reset_calls (controller_type self) (keys_pressed self) /\
  (controller_type self = KEYBOARD -> keys_pressed (after release_all_inputs self) = ∅).
Proof.
  intros Hm. unfold after. rewrite release_all_inputs_eq.
  destruct self as [cc st msa acc br hb horn ct keys dev lg].
  cbn [max_steering_angle device controller_type keys_pressed] in *. subst msa.
  destruct ct.
  - split; [|discriminate]. rewrite snoc_calls. vm_compute. reflexivity.
  - split; [|discriminate]. rewrite snoc_calls. vm_compute. reflexivity.
  - unfold reset_then_apply, update_controller, mbind, M_bind, attr, zeroed.
    cbn [controller_type keys_pressed set_horn_pressed set_handbrake_pressed
         set_current_brake set_current_accelerator set_current_steering
         connected_clients current_steering max_steering_angle
         current_accelerator current_brake handbrake_pressed horn_pressed
         device log].
    rewrite release_each;
      [| apply NoDup_elements | intros key Hk; apply elem_of_elements, Hk].
    assert (E : keys ∖ list_to_set (elements keys) = ∅)
      by (rewrite list_to_set_elements_L; set_solver).
    cbn [fst snd]. rewrite update_keyboard_neutral; [| reflexivity | exact E].
    split; [reflexivity | intros _; exact E].
  - split; [|discriminate]. rewrite snoc_calls. vm_compute. reflexivity.
Qed.

Lemma unregister_last ws self :
  connected_clients self = {[ws]} ->
  unregister_client ws self = release_all_inputs (set_connected_clients ∅ self).
Proof.
  intros H. unfold unregister_client, mbind, M_bind, assign, attr; simpl.
  assert (E : connected_clients self ∖ {[ws]} = ∅) by (rewrite H; set_solver).
  rewrite E. rewrite bool_decide_eq_true_2 by reflexivity. reflexivity.
Qed.

Lemma unregister_not_last ws self :
  connected_clients self ∖ {[ws]} <> ∅ ->
  unregister_client ws self =
  (Ok tt, set_connected_clients (connected_clients self ∖ {[ws]}) self).
Proof.
  intros H. unfold unregister_client, mbind, M_bind, assign, attr; simpl.
  rewrite bool_decide_eq_false_2 by exact H. reflexivity.
Qed.

(** C3. When the only connected client disconnects, it is removed from the
    registry and, the registry being empty, the server runs the
    reset-then-apply path: whatever the control state was (a held
    accelerator, say), its five fields are back to zero and false, and the
    output adapter gets its variant's reset followed by one apply of the
    neutral state (for the keyboard, one release per held key, after which
    no key is held). A disconnect that leaves another client connected only
    removes the client: no state reset, no device call. *)
Theorem disconnect_of_last_client_resets ws self :
  (connected_clients self = {[ws]} ->
   let self' := after (unregister_client ws) self in
   unregister_client ws self =
     release_all_inputs (set_connected_clients ∅ self) /\
   outcome (unregister_client ws) self = Ok tt /\
   connected_clients self' = ∅ /\
   control self' = neutral /\
   (max_steering_angle self = f900 ->
    (exists calls,
       device self' = device self ++ calls /\
       reset_then_apply_calls (controller_type self) (keys_pressed self) calls) /\
    (controller_type self = KEYBOARD -> keys_pressed self' = ∅))) /\
  (connected_clients self ∖ {[ws]} <> ∅ ->
   unregister_client ws self =
   (Ok tt, set_connected_clients (connected_clients self ∖ {[ws]}) self)).
Proof.
  split; [|apply unregister_not_last].
  intros H self'. pose proof (unregister_last ws self H) as E.
  split; [exact E|].
  split; [apply returns_unregister_client|].
  unfold self', after. rewrite E.
  fold (after release_all_inputs (set_connected_clients ∅ self)).
  split; [|split].
  - pose proof (adapter_only_reset_then_apply (zeroed (set_connected_clients ∅ self))) as Hc.
    unfold after in *. rewrite release_all_inputs_eq.
    apply (f_equal (fun c => fst (fst (fst c)))) in Hc. exact Hc.
  - apply release_all_inputs_control.
  - intros Hm.
    destruct (release_all_inputs_calls (set_connected_clients ∅ self) Hm) as [Hd Hk].
    split; [|exact Hk].
    exists (reset_calls (controller_type self) (keys_pressed self)).
    split; [exact Hd|].
    unfold reset_then_apply_calls. destruct (controller_type self); reflexivity.
Qed.

Lemma disconnect_of_last_client_resets_witness :
  (connected_clients (racing VGAMEPAD_XBOX) = {[ 1%nat ]} /\
   accelerator (control (racing VGAMEPAD_XBOX)) = f1 /\
   max_steering_angle (racing VGAMEPAD_XBOX) = f900 /\
   connected_clients (set_connected_clients {[ 1%nat; 2%nat ]} (racing VJOY))
     ∖ {[ 1%nat ]} <> ∅) /\
  let self' := after (unregister_client 1) (racing VGAMEPAD_XBOX) in
  connected_clients self' = ∅ /\
  control self' = neutral /\
  (exists calls,
     device self' = device (racing VGAMEPAD_XBOX) ++ calls /\
     reset_then_apply_calls VGAMEPAD_XBOX ∅ calls) /\
  unregister_client 1 (set_connected_clients {[ 1%nat; 2%nat ]} (racing VJOY)) =
  (Ok tt, set_connected_clients ({[ 1%nat; 2%nat ]} ∖ {[ 1%nat ]}) (racing VJOY)).
Proof.
  assert (H1 : connected_clients (racing VGAMEPAD_XBOX) = {[ 1%nat ]}) by reflexivity.
  assert (H2 : connected_clients (set_connected_clients {[ 1%nat; 2%nat ]} (racing VJOY))
                 ∖ {[ 1%nat ]} <> ∅) by (vm_compute; discriminate).
  split; [repeat split; assumption|].
  destruct (disconnect_of_last_client_resets 1%nat (racing VGAMEPAD_XBOX)) as [Hlast _].
  destruct (Hlast H1) as (_ & _ & Hc & Hn & Hd).
  destruct (disconnect_of_last_client_resets 1%nat
              (set_connected_clients {[ 1%nat; 2%nat ]} (racing VJOY))) as [_ Hmore].
  split; [exact Hc|]. split; [exact Hn|].
  split; [exact (proj1 (Hd eq_refl))|].
  exact (Hmore H2).
Defined.

(** ** The keyboard apply step *)

Lemma keys_to_ret c : keys_to c (mret tt) (fun held => held).
Proof. intros self _. repeat split. Qed.

Lemma keys_to_bind c (m k : M unit) g g' :
  keys_to c m g -> keys_to c k g' -> keys_to c (m ;; k) (fun held => g' (g held)).
Proof.
  intros Hm Hk self Hc. destruct (Hm self Hc) as (Ho & Hcore & Hkeys).
  unfold outcome, after. rewrite (seq_Ok _ _ _ Ho).
  destruct (Hk (after m self)) as (Ho' & Hcore' & Hkeys').
  { rewrite (core_control _ _ Hcore). exact Hc. }
  unfold outcome, after in *. rewrite Ho', Hcore', Hkeys', Hcore, Hkeys. auto.
Qed.

Lemma keys_to_attr {A} c (f : control_state -> A) (k : A -> M unit) g :
  keys_to c (k (f c)) g -> keys_to c (attr (fun self => f (control self)) ≫= k) g.
Proof. intros Hk self Hc. specialize (Hk self Hc). rewrite <- Hc in Hk. exact Hk. Qed.

Lemma keys_to_try_except c body handler g :
  keys_to c body g -> keys_to c (try_except body handler) g.
Proof.
  intros Hb self Hc. destruct (Hb self Hc) as (Ho & Hcore & Hkeys).
  unfold outcome, after. rewrite (try_except_Ok _ _ _ _ Ho).
  unfold outcome, after in *. auto.
Qed.

Lemma keys_to_press_key c key : keys_to c (press_key key) (fun held => {[key]} ∪ held).
Proof.
  intros self _. split; [apply returns_press_key|].
  split; [apply adapter_only_press_key|].
  unfold after. rewrite press_key_eq; simpl.
  destruct (bool_decide (key ∈ keys_pressed self)) eqn:E; [|reflexivity].
  apply bool_decide_eq_true in E. set_solver.
Qed.

Lemma keys_to_release_key c key : keys_to c (release_key key) (fun held => held ∖ {[key]}).
Proof.
  intros self _. split; [apply returns_release_key|].
  split; [apply adapter_only_release_key|].
  unfold after. rewrite release_key_eq; simpl.
  destruct (bool_decide (key ∈ keys_pressed self)) eqn:E; [reflexivity|].
  apply bool_decide_eq_false in E. set_solver.
Qed.

Lemma keys_to_set_key c (down : bool) key :
  keys_to c (if down then press_key key else release_key key) (with_key down key).
Proof. destruct down; [apply keys_to_press_key | apply keys_to_release_key]. Qed.

Lemma keys_to_update_keyboard_controller c :
  keys_to c update_keyboard_controller (keys_applied c).
Proof.
  unfold update_keyboard_controller. apply keys_to_try_except.
  apply (keys_to_attr c steering_angle).
  apply (keys_to_bind c _ _ (steer_keys (steering_angle c))
           (fun held => with_key (horn_engaged c) "h"
              (with_key (handbrake_engaged c) "space"
                 (with_key (num_gt (NFloat (brake c)) (NFloat f0_1)) "s"
                    (with_key (num_gt (NFloat (accelerator c)) (NFloat f0_1)) "w"
                       held))))).
  { unfold steer_keys.
    destruct (num_lt (Py.abs (steering_angle c)) (NInt 10)).
    - apply (keys_to_bind c _ _ (fun held => held ∖ {["a"]}) (fun held => held ∖ {["d"]}));
        apply keys_to_release_key.
    - destruct (num_lt (steering_angle c) (NInt (-10))).
      + apply (keys_to_bind c _ _ (fun held => held ∖ {["d"]}) (fun held => {["a"]} ∪ held));
          [apply keys_to_release_key | apply keys_to_press_key].
      + destruct (num_gt (steering_angle c) (NInt 10)).
        * apply (keys_to_bind c _ _ (fun held => held ∖ {["a"]}) (fun held => {["d"]} ∪ held));
            [apply keys_to_release_key | apply keys_to_press_key].
        * apply keys_to_ret. }
  apply (keys_to_attr c accelerator).
  apply (keys_to_bind c _ _
           (with_key (num_gt (NFloat (accelerator c)) (NFloat f0_1)) "w")
           (fun held => with_key (horn_engaged c) "h"
              (with_key (handbrake_engaged c) "space"
                 (with_key (num_gt (NFloat (brake c)) (NFloat f0_1)) "s" held))));
    [apply keys_to_set_key|].
  apply (keys_to_attr c brake).
  apply (keys_to_bind c _ _
           (with_key (num_gt (NFloat (brake c)) (NFloat f0_1)) "s")
           (fun held => with_key (horn_engaged c) "h"
              (with_key (handbrake_engaged c) "space" held)));
    [apply keys_to_set_key|].
  apply (keys_to_attr c handbrake_engaged).
  apply (keys_to_bind c _ _
           (with_key (handbrake_engaged c) "space")
           (with_key (horn_engaged c) "h"));
    [apply keys_to_set_key|].
  apply (keys_to_attr c horn_engaged).
  apply keys_to_set_key.
Qed.

(** The three tests of the left/right step exclude one another, and none
    holds at the edge of the deadzone. *)
Ltac compare_cases :=
  repeat match goal with
         | H : context [?a ?= ?b] |- _ => destruct (Z.compare_spec a b)
         | |- context [?a ?= ?b] => destruct (Z.compare_spec a b)
         end;
  simpl in *; try congruence; try lia.

Lemma steering_tests st :
  let centred := num_lt (abs st) (NInt 10) in
  let left := num_lt st (NInt (-10)) in
  let right := num_gt st (NInt 10) in
  (left = true -> centred = false) /\
  (right = true -> centred = false /\ left = false) /\
  (num_eq (abs st) (NInt 10) = true ->
   centred = false /\ left = false /\ right = false).
Proof.
  destruct st as [b|z|f]; cbv zeta.
  - destruct b; cbv; repeat split; congruence.
  - unfold num_lt, num_gt, num_eq, abs, num_compare.
    destruct (Z.abs_spec z) as [[? ->]|[? ->]]; compare_cases; repeat split; congruence.
  - destruct f as [s|s| |s m e].
    + cbv; repeat split; congruence.
    + destruct s; cbv; repeat split; congruence.
    + cbv; repeat split; congruence.
    + unfold num_lt, num_gt, num_eq, abs, fabs, SFabs, num_compare, compare_opp,
        compare_int_float, signed.
      destruct (0 <=? e) eqn:He.
      * apply Z.leb_le in He.
        assert (HP : 0 < Z.pos m * 2 ^ e)
          by (apply Z.mul_pos_pos; [lia | apply Z.pow_pos_nonneg; lia]).
        destruct s; [change (Z.neg m) with (- Z.pos m); rewrite Z.mul_opp_l|];
          generalize dependent (Z.pos m * 2 ^ e); intros P HP;
          compare_cases; repeat split; congruence.
      * assert (HP : 0 < 2 ^ (- e))
          by (apply Z.pow_pos_nonneg; apply Z.leb_gt in He; lia).
        destruct s; [change (Z.neg m) with (- Z.pos m)|];
          generalize dependent (2 ^ (- e)); intros P HP;
          compare_cases; repeat split; congruence.
Qed.

Lemma with_key_other down key k held :
  k <> key -> k ∈ with_key down key held <-> k ∈ held.
Proof. intros H. unfold with_key. destruct down; set_solver. Qed.

Lemma with_key_same down key held :
  key ∈ with_key down key held <-> down = true.
Proof. unfold with_key. destruct down; set_solver. Qed.

Lemma keys_applied_left_right c held k :
  k = "a"%string \/ k = "d"%string ->
  k ∈ keys_applied c held <-> k ∈ steer_keys (steering_angle c) held.
Proof.
  intros Hk. unfold keys_applied.
  rewrite !with_key_other; [reflexivity | | | |];
    destruct Hk as [-> | ->]; discriminate.
Qed.

Lemma keys_applied_accelerator c held :
  "w"%string ∈ keys_applied c held <->
  num_gt (NFloat (accelerator c)) (NFloat f0_1) = true.
Proof.
  unfold keys_applied.
  rewrite !(with_key_other _ _ "w"%string) by discriminate. apply with_key_same.
Qed.

Lemma keys_applied_brake c held :
  "s"%string ∈ keys_applied c held <->
  num_gt (NFloat (brake c)) (NFloat f0_1) = true.
Proof.
  unfold keys_applied.
  rewrite !(with_key_other _ _ "s"%string) by discriminate. apply with_key_same.
Qed.

Lemma keys_after_apply self :
  keys_pressed (after update_keyboard_controller self) =
  keys_applied (control self) (keys_pressed self).
Proof. apply (keys_to_update_keyboard_controller (control self) self eq_refl). Qed.

(** Off the edge of the deadzone the apply step does what the three cases
    say, and the pedal keys follow the 0.1 threshold. *)
Lemma keyboard_apply_off_the_edge self :
  let steering := current_steering self in
  let held := keys_pressed (after update_keyboard_controller self) in
  (num_lt (abs steering) (NInt 10) = true ->
   ("a"%string ∉ held) /\ ("d"%string ∉ held)) /\
  (num_lt steering (NInt (-10)) = true ->
   ("a"%string ∈ held) /\ ("d"%string ∉ held)) /\
  (num_gt steering (NInt 10) = true ->
   ("d"%string ∈ held) /\ ("a"%string ∉ held)) /\
  ("w"%string ∈ held <->
   num_gt (NFloat (current_accelerator self)) (NFloat f0_1) = true) /\
  ("s"%string ∈ held <->
   num_gt (NFloat (current_brake self)) (NFloat f0_1) = true).
Proof.
  intros steering held. unfold held. rewrite keys_after_apply.
  destruct (steering_tests steering) as (Hl & Hr & _).
  rewrite !(keys_applied_left_right (control self)) by auto.
  change (steering_angle (control self)) with steering.
  split; [|split; [|split; [|split]]].
  - intros H. unfold steer_keys. rewrite H. set_solver.
  - intros H. unfold steer_keys. rewrite (Hl H), H. set_solver.
  - intros H. destruct (Hr H) as [H1 H2]. unfold steer_keys. rewrite H1, H2, H.
    set_solver.
  - apply keys_applied_accelerator.
  - apply keys_applied_brake.
Qed.

(** At the edge of the deadzone, [|angle| = 10], none of the three cases
    applies and the left/right keys stay as they were. *)
Lemma keyboard_apply_at_the_edge self :
  num_eq (abs (current_steering self)) (NInt 10) = true ->
  let held := keys_pressed (after update_keyboard_controller self) in
  ("a"%string ∈ held <-> "a"%string ∈ keys_pressed self) /\
  ("d"%string ∈ held <-> "d"%string ∈ keys_pressed self).
Proof.
  intros H held. unfold held. rewrite keys_after_apply.
  destruct (steering_tests (current_steering self)) as (_ & _ & He).
  destruct (He H) as (H1 & H2 & H3).
  rewrite !(keys_applied_left_right (control self)) by auto.
  change (steering_angle (control self)) with (current_steering self).
  unfold steer_keys. rewrite H1, H2, H3. tauto.
Qed.

(** C6. In the keyboard variant the left/right step has no case for the
    edge of the deadzone. After a steering of -50 the left key is down; an
    [update] with steering 10, a positive angle not inside the deadzone,
    makes no key call: the left key stays down and the right key stays up. *)
Theorem keyboard_deadzone_edge_keeps_left_key :
  let self := snd (run [Connect 1; Receive 1 (steer (-50)); Receive 1 (steer 10)]
                       (init (host_of KEYBOARD))) in
  current_steering self = NInt 10 /\
  num_lt (abs (current_steering self)) (NInt 10) = false /\
  device self = [keyDown "a"] /\
  ("a"%string ∈ keys_pressed self) /\ ("d"%string ∉ keys_pressed self).
Proof.
  cbv zeta.
  assert (E : snd (run [Connect 1; Receive 1 (steer (-50)); Receive 1 (steer 10)]
                       (init (host_of KEYBOARD))) =
              set_device [keyDown "a"] (set_keys_pressed {["a"%string]}
                (set_current_steering (NInt 10)
                   (set_connected_clients {[ 1%nat ]} (init (host_of KEYBOARD))))))
    by (vm_compute; reflexivity).
  rewrite E. simpl. repeat split; set_solver.
Qed.

(** ** Magnitude of binary64 values *)

Lemma digits2_pos_bounds p :
  2 ^ (Z.pos (digits2_pos p) - 1) <= Z.pos p < 2 ^ Z.pos (digits2_pos p).
Proof.
  induction p as [p IH|p IH|]; simpl digits2_pos.
  - rewrite Pos2Z.inj_succ.
    replace (Z.succ (Z.pos (digits2_pos p)) - 1) with (Z.succ (Z.pos (digits2_pos p) - 1)) by lia.
    rewrite !Z.pow_succ_r by lia. lia.
  - rewrite Pos2Z.inj_succ.
    replace (Z.succ (Z.pos (digits2_pos p)) - 1) with (Z.succ (Z.pos (digits2_pos p) - 1)) by lia.
    rewrite !Z.pow_succ_r by lia. lia.
  - simpl. lia.
Qed.

Lemma Zdigits2_nonneg x : 0 <= Zdigits2 x.
Proof. destruct x; simpl; lia. Qed.

Lemma Zdigits2_lt_pow x : 0 <= x -> x < 2 ^ Zdigits2 x.
Proof.
  destruct x as [|p|p]; simpl; try lia. intros _. apply digits2_pos_bounds.
Qed.

Lemma Zdigits2_le x k : 0 <= x < 2 ^ k -> 0 <= k -> Zdigits2 x <= k.
Proof.
  destruct x as [|p|p]; simpl; try lia. intros [_ H] Hk.
  pose proof (digits2_pos_bounds p) as [Hl _].
  assert (Hlt : 2 ^ (Z.pos (digits2_pos p) - 1) < 2 ^ k) by lia.
  apply Z.pow_lt_mono_r_iff in Hlt; lia.
Qed.

Lemma Zdigits2_succ x : 0 <= x -> Zdigits2 (x + 1) <= Zdigits2 x + 1.
Proof.
  intros Hx. pose proof (Zdigits2_lt_pow x Hx) as H.
  pose proof (Zdigits2_nonneg x) as Hn.
  apply Zdigits2_le; [|lia].
  rewrite Z.pow_add_r by lia. simpl (2 ^ 1). lia.
Qed.

Lemma shr_1_digits s :
  0 <= shr_m s ->
  0 <= shr_m (shr_1 s) /\
  Zdigits2 (shr_m (shr_1 s)) = Z.max 0 (Zdigits2 (shr_m s) - 1).
Proof.
  destruct s as [m r t]; simpl. destruct m as [|p|p]; [simpl; lia| |lia].
  intros _. destruct p; simpl; rewrite ?Pos2Z.inj_succ; lia.
Qed.

Lemma iter_shr_1_digits p : forall s,
  0 <= shr_m s ->
  0 <= shr_m (SpecFloat.iter_pos shr_1 p s) /\
  Zdigits2 (shr_m (SpecFloat.iter_pos shr_1 p s)) = Z.max 0 (Zdigits2 (shr_m s) - Z.pos p).
Proof.
  induction p as [p IH|p IH|]; intros s Hs; simpl.
  - destruct (shr_1_digits s Hs) as [H0 E0].
    destruct (IH _ H0) as [H1 E1]. destruct (IH _ H1) as [H2 E2].
    split; [exact H2|]. rewrite E2, E1, E0. lia.
  - destruct (IH _ Hs) as [H1 E1]. destruct (IH _ H1) as [H2 E2].
    split; [exact H2|]. rewrite E2, E1. lia.
  - apply shr_1_digits, Hs.
Qed.

Lemma shr_record_of_loc_m m l : shr_m (shr_record_of_loc m l) = m.
Proof. destruct l as [|[]]; reflexivity. Qed.

(** After [shr_fexp] the mantissa is still not negative, and neither the
    magnitude nor the exponent has grown past what [fexp] asks for. *)
Lemma shr_fexp_bounds m e l :
  0 <= m ->
  let '(mrs, e') := shr_fexp prec emax m e l in
  0 <= shr_m mrs /\
  Zdigits2 (shr_m mrs) + e' <= Z.max (Zdigits2 m + e) (emin prec emax) /\
  e' <= Z.max e (fexp prec emax (Zdigits2 m + e)).
Proof.
  intros Hm. unfold shr_fexp, shr.
  pose proof (Zdigits2_nonneg m) as Hd.
  destruct (fexp prec emax (Zdigits2 m + e) - e) as [|p|p] eqn:En;
    rewrite ?shr_record_of_loc_m; try (split; [exact Hm | unfold fexp, prec in *; lia]).
  destruct (iter_shr_1_digits p (shr_record_of_loc m l)) as [H0 E];
    [rewrite shr_record_of_loc_m; exact Hm|].
  rewrite shr_record_of_loc_m in E.
  split; [exact H0|]. rewrite E. unfold fexp, prec in *. lia.
Qed.

Lemma round_nearest_even_bounds x l :
  0 <= x -> 0 <= round_nearest_even x l /\
  Zdigits2 (round_nearest_even x l) <= Zdigits2 x + 1.
Proof.
  intros Hx. pose proof (Zdigits2_succ x Hx). unfold round_nearest_even.
  destruct l as [|[]]; try destruct (Z.even x); split; lia.
Qed.

Lemma binary_round_aux_magnitude s m e l k :
  0 <= m -> Zdigits2 m + e <= k -> emin prec emax <= k -> k <= 970 ->
  magnitude_le (k + 1) (binary_round_aux prec emax s m e l).
Proof.
  intros Hm Hk Hlo Hhi. unfold binary_round_aux.
  pose proof (shr_fexp_bounds m e l Hm) as H1.
  destruct (shr_fexp prec emax m e l) as [mrs' e'].
  destruct H1 as (H1m & H1d & H1e).
  destruct (round_nearest_even_bounds (shr_m mrs') (loc_of_shr_record mrs') H1m)
    as [Hr Hrd].
  pose proof (shr_fexp_bounds _ e' loc_Exact Hr) as H2.
  destruct (shr_fexp prec emax _ e' loc_Exact) as [mrs'' e''].
  destruct H2 as (H2m & H2d & H2e).
  pose proof (Zdigits2_nonneg m) as Hdm.
  pose proof (Zdigits2_nonneg (shr_m mrs')) as Hd1.
  assert (He' : e' <= k) by (unfold fexp, emin, prec, emax in *; lia).
  assert (He'' : e'' <= k + 1) by (unfold fexp, emin, prec, emax in *; lia).
  destruct (shr_m mrs'') as [|p|p] eqn:Em; simpl; [exact I| |lia].
  assert (Hle : (e'' <=? emax - prec) = true)
    by (apply Z.leb_le; unfold emax, prec; lia).
  rewrite Hle. simpl. simpl in H2d. unfold emin, prec, emax in *. lia.
Qed.

Lemma digits2_pos_iter_xO m d :
  digits2_pos (Pos.iter xO m d) = (digits2_pos m + d)%positive.
Proof.
  induction d as [|d IH] using Pos.peano_ind.
  - simpl. lia.
  - rewrite Pos.iter_succ. simpl. rewrite IH. lia.
Qed.

Lemma shl_align_magnitude mx ex ex' :
  Zdigits2 (Z.pos (fst (shl_align mx ex ex'))) + snd (shl_align mx ex ex') =
  Zdigits2 (Z.pos mx) + ex.
Proof.
  unfold shl_align. destruct (ex' - ex) as [|d|d] eqn:E; simpl; try reflexivity.
  rewrite digits2_pos_iter_xO. lia.
Qed.

Lemma shl_align_exponent mx ex ex' : ex' <= ex -> snd (shl_align mx ex ex') = ex'.
Proof.
  intros H. unfold shl_align. destruct (ex' - ex) as [|d|d] eqn:E; simpl; lia.
Qed.

Lemma binary_round_magnitude s m e k :
  Zdigits2 (Z.pos m) + e <= k -> emin prec emax <= k -> k <= 970 ->
  magnitude_le (k + 1) (binary_round prec emax s m e).
Proof.
  intros Hk Hlo Hhi. unfold binary_round.
  pose proof (shl_align_magnitude m e (fexp prec emax (Z.pos (digits2_pos m) + e))) as H.
  destruct (shl_align m e (fexp prec emax (Z.pos (digits2_pos m) + e))) as [mz ez].
  simpl fst in H; simpl snd in H. unfold Zdigits2 in *.
  apply binary_round_aux_magnitude; unfold Zdigits2; lia.
Qed.

Lemma binary_normalize_magnitude m e k :
  Zdigits2 m + e <= k -> emin prec emax <= k -> k <= 970 ->
  magnitude_le (k + 1) (binary_normalize prec emax m e false).
Proof.
  intros Hk Hlo Hhi. destruct m as [|p|p]; simpl; [exact I| |];
    apply binary_round_magnitude; assumption.
Qed.

Lemma Zdigits2_abs x : Zdigits2 (Z.abs x) = Zdigits2 x.
Proof. destruct x; reflexivity. Qed.

Lemma Zdigits2_add a b : Zdigits2 (a + b) <= Z.max (Zdigits2 a) (Zdigits2 b) + 1.
Proof.
  rewrite <- (Zdigits2_abs (a + b)), <- (Zdigits2_abs a), <- (Zdigits2_abs b).
  pose proof (Zdigits2_lt_pow (Z.abs a) (Z.abs_nonneg a)) as Ha.
  pose proof (Zdigits2_lt_pow (Z.abs b) (Z.abs_nonneg b)) as Hb.
  pose proof (Zdigits2_nonneg (Z.abs a)) as Hna.
  pose proof (Zdigits2_nonneg (Z.abs b)) as Hnb.
  set (da := Zdigits2 (Z.abs a)) in *. set (db := Zdigits2 (Z.abs b)) in *.
  assert (Hma : 2 ^ da <= 2 ^ Z.max da db) by (apply Z.pow_le_mono_r; lia).
  assert (Hmb : 2 ^ db <= 2 ^ Z.max da db) by (apply Z.pow_le_mono_r; lia).
  apply Zdigits2_le; [|lia].
  rewrite Z.pow_add_r by lia. simpl (2 ^ 1). lia.
Qed.

Lemma Zdigits2_mul a b :
  0 <= a -> 0 <= b -> Zdigits2 (a * b) <= Zdigits2 a + Zdigits2 b.
Proof.
  intros Ha Hb.
  pose proof (Zdigits2_lt_pow a Ha) as Ha'. pose proof (Zdigits2_lt_pow b Hb) as Hb'.
  pose proof (Zdigits2_nonneg a) as Hna. pose proof (Zdigits2_nonneg b) as Hnb.
  apply Zdigits2_le; [|lia]. rewrite Z.pow_add_r by lia. nia.
Qed.

Lemma fmul_magnitude x y kx ky :
  magnitude_le kx x -> magnitude_le ky y ->
  emin prec emax <= kx + ky -> kx + ky <= 970 ->
  magnitude_le (kx + ky + 1) (fmul x y).
Proof.
  intros Hx Hy Hlo Hhi.
  destruct x as [sx|sx| |sx mx ex], y as [sy|sy| |sy my ey]; simpl in *;
    try tauto.
  apply binary_round_aux_magnitude; try lia.
  pose proof (Zdigits2_mul (Z.pos mx) (Z.pos my)) as H. simpl in H.
  simpl. lia.
Qed.

Lemma cond_Zopp_digits s m : Zdigits2 (cond_Zopp s (Z.pos m)) = Z.pos (digits2_pos m).
Proof. destruct s; reflexivity. Qed.

Lemma fadd_magnitude x y k :
  magnitude_le k x -> magnitude_le k y ->
  emin prec emax <= k + 1 -> k + 1 <= 970 ->
  magnitude_le (k + 2) (fadd x y).
Proof.
  intros Hx Hy Hlo Hhi.
  assert (Hmono : forall f, magnitude_le k f -> magnitude_le (k + 2) f)
    by (intros [| | |]; simpl; try tauto; lia).
  destruct x as [sx|sx| |sx mx ex], y as [sy|sy| |sy my ey];
    try (simpl in *; tauto);
    try (destruct sx, sy; exact I);
    try (apply Hmono; assumption).
  unfold fadd, SFadd.
  pose proof (shl_align_magnitude mx ex (Z.min ex ey)) as Ax.
  pose proof (shl_align_magnitude my ey (Z.min ex ey)) as Ay.
  rewrite shl_align_exponent in Ax, Ay by lia.
  set (ax := fst (shl_align mx ex (Z.min ex ey))) in *.
  set (ay := fst (shl_align my ey (Z.min ex ey))) in *.
  replace (k + 2) with (k + 1 + 1) by lia.
  apply binary_normalize_magnitude; try lia.
  pose proof (Zdigits2_add (cond_Zopp sx (Z.pos ax)) (cond_Zopp sy (Z.pos ay))) as H.
  rewrite !cond_Zopp_digits in H. simpl in Hx, Hy, Ax, Ay. lia.
Qed.

Lemma div_digits a b :
  0 <= a -> 0 < b ->
  0 <= a / b /\
  Zdigits2 (a / b) <= Z.max 0 (Zdigits2 a - Zdigits2 b + 1).
Proof.
  intros Ha Hb.
  assert (Hq : 0 <= a / b) by (apply Z.div_pos; lia).
  split; [exact Hq|].
  pose proof (Zdigits2_lt_pow a Ha) as Ha'.
  pose proof (Zdigits2_nonneg a) as Hna.
  destruct b as [|pb|pb]; try lia.
  pose proof (digits2_pos_bounds pb) as [Hlb _]. simpl Zdigits2.
  set (da := Zdigits2 a) in *. set (db := Z.pos (digits2_pos pb)) in *.
  assert (Hdb : 1 <= db) by (unfold db; lia).
  apply Zdigits2_le; [|lia]. split; [exact Hq|].
  apply Z.div_lt_upper_bound; [lia|].
  destruct (Z_lt_le_dec (da - db + 1) 0) as [Hneg|Hpos].
  - rewrite Z.max_l by lia. simpl (2 ^ 0).
    assert (2 ^ da <= 2 ^ (db - 1)) by (apply Z.pow_le_mono_r; lia). lia.
  - rewrite Z.max_r by lia.
    assert (E : 2 ^ da = 2 ^ (db - 1) * 2 ^ (da - db + 1)).
    { rewrite <- Z.pow_add_r by lia. f_equal. lia. }
    assert (0 < 2 ^ (da - db + 1)) by (apply Z.pow_pos_nonneg; lia).
    nia.
Qed.

Lemma fdiv_magnitude x my ey sy kx k :
  magnitude_le kx x ->
  k = Z.max (kx - (Z.pos (digits2_pos my) + ey) + 1) (emin prec emax) ->
  k <= 970 ->
  magnitude_le (k + 1) (fdiv x (S754_finite sy my ey)).
Proof.
  intros Hx Ek Hhi.
  destruct x as [sx|sx| |sx mx ex]; simpl in *; try tauto.
  unfold SFdiv_core_binary.
  set (d1 := Zdigits2 (Z.pos mx)). set (d2 := Zdigits2 (Z.pos my)).
  set (e' := Z.min (fexp prec emax (d1 + ex - (d2 + ey))) (ex - ey)).
  set (s := ex - ey - e').
  set (m' := match s with Z.pos _ => Z.shiftl (Z.pos mx) s | 0 => Z.pos mx | Z.neg _ => 0 end).
  assert (Hs : 0 <= s) by (unfold s, e'; lia).
  assert (Em : m' = Z.pos mx * 2 ^ s).
  { unfold m'. destruct s as [|p|p] eqn:Es; try lia.
    rewrite Z.shiftl_mul_pow2 by lia. reflexivity. }
  assert (Hp : 0 < 2 ^ s) by (apply Z.pow_pos_nonneg; lia).
  assert (Hm' : 0 <= m') by nia.
  assert (Hd' : Zdigits2 m' <= d1 + s).
  { apply Zdigits2_le; [|unfold d1; simpl; lia]. split; [exact Hm'|].
    rewrite Em, Z.pow_add_r by (unfold d1; simpl; lia).
    pose proof (Zdigits2_lt_pow (Z.pos mx)) as H. fold d1 in H. nia. }
  pose proof (div_digits m' (Z.pos my) Hm') as Hq.
  unfold Z.div in Hq. destruct (Z.div_eucl m' (Z.pos my)) as [q r].
  destruct Hq as [Hq0 Hqd]; [lia|]. simpl fst in *.
  fold d2 in Hqd. unfold d1, d2, e', fexp, emin, prec, emax in *. simpl in *.
  apply binary_round_aux_magnitude; unfold emin, prec, emax; lia.
Qed.

(** ** The joystick axes *)

Lemma binary64_digits s m e :
  binary64 (S754_finite s m e) = true -> Z.pos (digits2_pos m) <= 53.
Proof.
  unfold binary64, valid_binary, bounded, canonical_mantissa, fexp, emin, prec, emax.
  intros H. apply andb_prop in H as [H _]. apply Z.eqb_eq in H. lia.
Qed.

Lemma unit_magnitude f :
  binary64 f = true -> in_range (NFloat f0) (NFloat f1) (NFloat f) = true ->
  magnitude_le 1 f.
Proof.
  intros Hv Hr. destruct f as [s|s| |s m e]; try exact I.
  - destruct s; discriminate.
  - discriminate.
  - pose proof (binary64_digits _ _ _ Hv) as Hd.
    apply andb_prop in Hr as [H0 H1].
    destruct s; [discriminate|].
    unfold num_le, num_compare, fcompare, SFcompare, f1 in H1.
    simpl. destruct (Z.compare_spec e (-52)); try discriminate; lia.
Qed.

Lemma float_of_int_magnitude z :
  -900 <= z <= 900 -> exists f, float_of_int z = Ok f /\ magnitude_le 11 f.
Proof.
  intros Hz. unfold float_of_int.
  assert (H : magnitude_le (10 + 1) (binary_normalize prec emax z 0 false)).
  { apply binary_normalize_magnitude; unfold emin, prec, emax; try lia.
    assert (Zdigits2 z <= 10); [|lia].
    rewrite <- Zdigits2_abs. apply Zdigits2_le; [|lia].
    change (2 ^ 10) with 1024. lia. }
  destruct (binary_normalize prec emax z 0 false) as [s|s| |s m e];
    simpl in H; try tauto; eexists; split; try reflexivity; exact H.
Qed.

Lemma num_le_int_float z s m e :
  e < 0 ->
  num_le (NInt z) (NFloat (S754_finite s m e)) = true <->
  z * 2 ^ (- e) <= signed s m.
Proof.
  intros He. unfold num_le, num_compare, compare_int_float.
  destruct (0 <=? e) eqn:E; [apply Z.leb_le in E; lia|].
  destruct (Z.compare_spec (z * 2 ^ (- e)) (signed s m)); split; intros; try lia; try discriminate; reflexivity.
Qed.

Lemma num_le_float_int z s m e :
  e < 0 ->
  num_le (NFloat (S754_finite s m e)) (NInt z) = true <->
  signed s m <= z * 2 ^ (- e).
Proof.
  intros He. unfold num_le, num_compare, compare_opp, compare_int_float.
  destruct (0 <=? e) eqn:E; [apply Z.leb_le in E; lia|].
  destruct (Z.compare_spec (z * 2 ^ (- e)) (signed s m)); split; intros; try lia; try discriminate; reflexivity.
Qed.

Lemma int_within_900 z :
  in_range (NFloat (fopp f900)) (NFloat f900) (NInt z) = true -> -900 <= z <= 900.
Proof.
  intros Hr. apply andb_prop in Hr as [Hlo Hhi].
  apply num_le_float_int in Hlo; [|lia]. apply num_le_int_float in Hhi; [|lia].
  assert (E : 2 ^ (- -43) = 8796093022208) by reflexivity.
  rewrite E in Hlo, Hhi. cbv [signed negb] in Hlo, Hhi. lia.
Qed.

Lemma float_within_900 f :
  binary64 f = true ->
  in_range (NFloat (fopp f900)) (NFloat f900) (NFloat f) = true ->
  magnitude_le 11 f.
Proof.
  intros Hv Hr. apply andb_prop in Hr as [Hlo Hhi].
  destruct f as [s|s| |s m e]; try exact I.
  - destruct s; discriminate.
  - discriminate.
  - pose proof (binary64_digits _ _ _ Hv) as Hd.
    unfold num_le, num_compare, fcompare, SFcompare, f900, fopp, SFopp in Hlo, Hhi.
    simpl negb in Hlo. simpl. destruct s.
    + destruct (Z.compare_spec (-43) e); try discriminate; lia.
    + destruct (Z.compare_spec e (-43)); try discriminate; lia.
Qed.

Lemma magnitude_le_mono k k' f : k <= k' -> magnitude_le k f -> magnitude_le k' f.
Proof. destruct f; simpl; try tauto. lia. Qed.

Lemma int_of_float_truncate f k : magnitude_le k f -> int_of_float f = Ok (truncate f).
Proof. destruct f; simpl; try tauto; reflexivity. Qed.

Lemma axis_value_defined unit :
  magnitude_le 1 unit ->
  int_of_float (fmul unit f32767) = Ok (axis_value unit - 1).
Proof.
  intros H. unfold axis_value. replace (truncate _ + 1 - 1) with (truncate (fmul unit (lit AXIS_MAX))) by lia.
  apply (int_of_float_truncate _ (1 + 15 + 1)).
  apply fmul_magnitude; [exact H | simpl; lia | unfold emin, prec, emax; lia | lia].
Qed.

Lemma fmin_fmax_cases a b q :
  fmax a (fmin b q) = q \/ fmax a (fmin b q) = a \/ fmax a (fmin b q) = b.
Proof.
  unfold fmax, fmin. destruct (fcompare q b) as [[]|];
    match goal with |- context [fcompare ?x a] => destruct (fcompare x a) as [[]|] end;
    auto.
Qed.

Lemma steering_axis_value_defined steering :
  in_range (NFloat (fopp f900)) (NFloat f900) steering = true ->
  match steering with NFloat f => binary64 f = true | _ => True end ->
  exists q, truediv steering f900 = Ok q /\
    int_of_float (fmul (fdiv (fadd (fmax (fopp f1) (fmin f1 q)) f1) f2) f32767) =
    Ok (steering_axis_value (fmax (fopp f1) (fmin f1 q)) - 1).
Proof.
  intros Hr Hv.
  assert (Hx : exists x, to_float steering = Ok x /\ magnitude_le 11 x).
  { destruct steering as [b|z|f]; simpl.
    - apply float_of_int_magnitude. destruct b; simpl; lia.
    - apply float_of_int_magnitude, int_within_900, Hr.
    - exists f. split; [reflexivity | apply float_within_900; assumption]. }
  destruct Hx as (x & Ex & Hx).
  exists (fdiv x f900). unfold truediv. rewrite Ex. split; [reflexivity|].
  assert (Hq : magnitude_le 3 (fdiv x f900)).
  { apply (fdiv_magnitude x _ _ _ 11 2); [exact Hx | reflexivity | lia]. }
  set (q := fdiv x f900) in *.
  assert (Hn : magnitude_le 3 (fmax (fopp f1) (fmin f1 q))).
  { destruct (fmin_fmax_cases (fopp f1) f1 q) as [-> | [-> | ->]];
      [exact Hq | simpl; lia | simpl; lia]. }
  set (n := fmax (fopp f1) (fmin f1 q)) in *.
  assert (H1 : magnitude_le 5 (fadd n f1)).
  { apply (fadd_magnitude n f1 3); [exact Hn | simpl; lia | unfold emin, prec, emax; lia | lia]. }
  assert (H2 : magnitude_le 5 (fdiv (fadd n f1) f2)).
  { apply (fdiv_magnitude _ _ _ _ 5 4); [exact H1 | reflexivity | lia]. }
  unfold steering_axis_value.
  replace (truncate _ + 1 - 1) with (truncate (fmul (fdiv (fadd n f1) f2) (lit AXIS_MAX))) by lia.
  apply (int_of_float_truncate _ (5 + 15 + 1)).
  apply fmul_magnitude; [exact H2 | simpl; lia | unfold emin, prec, emax; lia | lia].
Qed.

(** C8 (amended). In the joystick variant, for every control state within
    its domain, one apply writes the steering axis
    [((normalized + 1) / 2) * AXIS_MAX + 1] (truncated, [AXIS_MAX] = 32767,
    [normalized] the steering over the maximum rotation clamped to
    [[-1, 1]]), the accelerator axis inverted as [32768 - value], that is
    [AXIS_MAX + 1 - value] with [value = accelerator * AXIS_MAX + 1]
    (truncated), the brake axis [brake * AXIS_MAX + 1] not inverted, and the
    two buttons; no conversion raises and nothing else is called. *)
Theorem joystick_axis_values self :
  controller_type self = VJOY ->
  max_steering_angle self = f900 ->
  in_domain self = true ->
  binary64_state self = true ->
  update_controller self =
  (Ok tt, set_device (device self ++ joystick_calls self) self).
Proof.
  intros Hct Hm Hd Hv.
  unfold in_domain, in_domain_of in Hd. rewrite Hm in Hd.
  apply andb_prop in Hd as [Hd Hb]. apply andb_prop in Hd as [Hs Ha].
  unfold binary64_state in Hv.
  apply andb_prop in Hv as [Hv Hvb]. apply andb_prop in Hv as [Hvs Hva].
  change (steering_angle (control self)) with (current_steering self) in Hs.
  change (accelerator (control self)) with (current_accelerator self) in Ha.
  change (brake (control self)) with (current_brake self) in Hb.
  assert (Hvs' : match current_steering self with
                 | NFloat f => binary64 f = true
                 | _ => True
                 end) by (destruct (current_steering self); auto).
  destruct (steering_axis_value_defined _ Hs Hvs') as (q & Eq & Ex).
  pose proof (axis_value_defined _ (unit_magnitude _ Hva Ha)) as Ey.
  pose proof (axis_value_defined _ (unit_magnitude _ Hvb Hb)) as Ez.
  unfold joystick_calls, normalized_steering. rewrite Hm, Eq.
  unfold update_controller, mbind, M_bind, attr. rewrite Hct.
  unfold update_vjoy_controller, try_except, mbind, M_bind, attr, lift, emit, assign.
  rewrite Hm, Eq. cbv zeta. rewrite Ex. simpl. rewrite Ey. simpl. rewrite Ez. simpl.
  unfold set_device; simpl. rewrite <- !app_assoc. simpl.
  repeat f_equal; lia.
Qed.

Lemma joystick_axis_values_witness :
  (controller_type (racing VJOY) = VJOY /\
   max_steering_angle (racing VJOY) = f900 /\
   in_domain (racing VJOY) = true /\
   binary64_state (racing VJOY) = true) /\
  update_controller (racing VJOY) =
  (Ok tt, set_device [set_axis HID_USAGE_X 24576; set_axis HID_USAGE_Y 0;
                      set_axis HID_USAGE_Z 1; set_button 1 true;
                      set_button 2 false] (racing VJOY)).
Proof.
  split; [repeat split|].
  exact (joystick_axis_values (racing VJOY) eq_refl eq_refl eq_refl eq_refl).
Defined.

(** At the neutral state the joystick apply writes 32767 to the accelerator
    axis, where [AXIS_MAX - value] is 32766. *)
Lemma joystick_accelerator_axis_counterexample :
  let self := init (host_of VJOY) in
  device (after update_controller self) =
    [set_axis HID_USAGE_X 16384; set_axis HID_USAGE_Y 32767;
     set_axis HID_USAGE_Z 1; set_button 1 false; set_button 2 false] /\
  claimed_accelerator_axis self = 32766 /\
  ~ In (set_axis HID_USAGE_Y (claimed_accelerator_axis self))
       (device (after update_controller self)).
Proof.
  cbv zeta. split; [reflexivity|]. split; [reflexivity|].
  intros H. vm_compute in H.
  repeat (destruct H as [H|H]; [discriminate H|]). exact H.
Qed.

(** ** One connection, start to end *)

Lemma run_frames ws frames : forall events self,
  run (map (Receive ws) frames ++ events) self =
  run events (after (for_each frames (handle_message ws)) self).
Proof.
  induction frames as [|m frames IH]; intros events self; [reflexivity|].
  simpl. pose proof (returns_handle_message ws m self) as Hr.
  unfold after at 1. rewrite (seq_Ok _ _ _ Hr). unfold outcome in Hr.
  fold (after (for_each frames (handle_message ws)) (after (handle_message ws m) self)).
  rewrite <- IH. unfold after.
  destruct (handle_message ws m self) as [[[]|e] self']; simpl in *;
    [reflexivity | discriminate].
Qed.

(** A connection that delivers [frames] and closes is, for the server, a
    connect, the frames in order and a disconnect. *)
Lemma handle_client_run ws frames self :
  handle_client ws frames self =
  run (Connect ws :: map (Receive ws) frames ++ [Disconnect ws]) self.
Proof.
  unfold handle_client. simpl run.
  rewrite (seq_Ok _ _ _ (returns_register_client ws self)).
  unfold after at 1. simpl (register_client ws self).
  set (s1 := set_connected_clients ({[ws]} ∪ connected_clients self) self).
  rewrite run_frames. simpl run.
  assert (Hl : returns (for_each frames (handle_message ws)))
    by (apply returns_for_each, returns_handle_message).
  unfold try_finally.
  rewrite (try_except_Ok _ _ s1 tt (Hl s1)).
  rewrite (run_eq (for_each frames (handle_message ws)) s1), (Hl s1).
  pose proof (returns_unregister_client ws (after (for_each frames (handle_message ws)) s1)) as Hu.
  unfold outcome in Hu.
  destruct (unregister_client ws (after (for_each frames (handle_message ws)) s1))
    as [[[]|e] s3]; simpl in *; [reflexivity | discriminate].
Qed.

(** * Further properties *)

(** ** Commands *)

(** X1. A frame whose [command] is none of the six the handler knows (an
    unknown string, a value that is not a string, or no [command] at all)
    is ignored: the handler returns and the server is exactly as it was,
    with no device call and no log entry. *)
Theorem unknown_command_ignored ws top self :
  known_command (command_of top) = false ->
  handle_message ws (Json (ODict top)) self = (Ok tt, self).
Proof.
  intros H. rewrite handle_message_object. unfold known_command in H.
  repeat (apply orb_false_elim in H as [H ?]).
  unfold try_except, on_command.
  repeat match goal with E : eq_str _ _ = false |- _ => rewrite E; clear E end.
  reflexivity.
Qed.

Lemma unknown_command_ignored_witness :
  known_command (command_of ping) = false /\
  handle_message 1 (Json (ODict ping)) (racing KEYBOARD) = (Ok tt, racing KEYBOARD).
Proof. split; [reflexivity | apply (unknown_command_ignored 1 ping); reflexivity]. Defined.

Lemma handle_button ws top name g self :
  command_of top = OStr name ->
  on_command (OStr name) (payload_of top) = (assign g ;; update_controller) ->
  handle_message ws (Json (ODict top)) self = update_controller (g self).
Proof.
  intros Hc Hn. rewrite handle_message_object, Hc, Hn.
  rewrite try_except_Ok with (a := tt).
  - reflexivity.
  - unfold outcome. change ((assign g ;; update_controller) self) with (update_controller (g self)).
    apply returns_update_controller.
Qed.

(** X2. Each of the four button commands sets its flag and then runs one
    apply of the new state, whatever the frame's [data] holds; the other
    four fields of the control state are as they were. *)
Theorem button_commands ws top self :
  let handled := handle_message ws (Json (ODict top)) self in
  (command_of top = OStr "handbrake_press" ->
   handled = update_controller (set_handbrake_pressed true self) /\
   control (snd handled) = with_handbrake true (control self)) /\
  (command_of top = OStr "handbrake_release" ->
   handled = update_controller (set_handbrake_pressed false self) /\
   control (snd handled) = with_handbrake false (control self)) /\
  (command_of top = OStr "horn_press" ->
   handled = update_controller (set_horn_pressed true self) /\
   control (snd handled) = with_horn true (control self)) /\
  (command_of top = OStr "horn_release" ->
   handled = update_controller (set_horn_pressed false self) /\
   control (snd handled) = with_horn false (control self)).
Proof.
  cbv zeta.
  assert (Hc : forall s, control (snd (update_controller s)) = control s).
  { intros s. apply core_control, adapter_only_update_controller. }
  repeat split; try (rewrite (handle_button ws top _ _ self H eq_refl));
    try reflexivity; rewrite Hc; reflexivity.
Qed.

Lemma button_commands_witness :
  command_of (button_command "horn_press") = OStr "horn_press" /\
  handle_message 1 (Json (ODict (button_command "horn_press"))) (racing VJOY) =
  (Ok tt, set_device [set_axis HID_USAGE_X 24576; set_axis HID_USAGE_Y 0;
                      set_axis HID_USAGE_Z 1; set_button 1 true;
                      set_button 2 true]
            (set_horn_pressed true (racing VJOY))) /\
  control (snd (handle_message 1 (Json (ODict (button_command "horn_press"))) (racing VJOY))) =
  with_horn true (control (racing VJOY)).
Proof.
  split; [reflexivity|].
  destruct (button_commands 1 (button_command "horn_press") (racing VJOY))
    as (_ & _ & H & _).
  destruct (H eq_refl) as [H1 H2]. split; [rewrite H1; reflexivity | exact H2].
Defined.


(** ** The registry over a run *)

Lemma keeps_settings_update_controller : keeps settings update_controller.
Proof.
  intros self. pose proof (adapter_only_update_controller self) as H.
  unfold core, settings in *. congruence.
Qed.

Lemma keeps_settings_release_all_inputs : keeps settings release_all_inputs.
Proof.
  intros self. unfold after. rewrite release_all_inputs_eq.
  pose proof (adapter_only_reset_then_apply (zeroed self)) as H.
  unfold core, settings, after in *.
  change (connected_clients (zeroed self)) with (connected_clients self) in H.
  change (max_steering_angle (zeroed self)) with (max_steering_angle self) in H.
  change (controller_type (zeroed self)) with (controller_type self) in H.
  congruence.
Qed.

Lemma keeps_settings_handle_message ws m : keeps settings (handle_message ws m).
Proof.
  pose proof keeps_settings_update_controller as Hu.
  pose proof keeps_settings_release_all_inputs as Hr.
  unfold handle_message, logger_error.
  repeat first [exact Hu | exact Hr | keeps_step].
Qed.

Lemma on_event_registry e self :
  connected_clients (after (on_event e) self) = online [e] (connected_clients self).
Proof.
  destruct e as [ws|ws m|ws]; simpl.
  - reflexivity.
  - exact (f_equal (fun s => fst (fst s)) (keeps_settings_handle_message ws m self)).
  - unfold unregister_client, after, mbind, M_bind, assign, attr.
    destruct (bool_decide _); [|reflexivity].
    exact (f_equal (fun s => fst (fst s))
             (keeps_settings_release_all_inputs
                (set_connected_clients (connected_clients self ∖ {[ws]}) self))).
Qed.

Lemma run_step e events self :
  run (e :: events) self = run events (after (on_event e) self).
Proof.
  simpl. pose proof (returns_on_event e self) as H. unfold outcome, after in *.
  destruct (on_event e self) as [[[]|x] self']; [reflexivity | discriminate].
Qed.

Lemma run_registry events : forall self,
  connected_clients (snd (run events self)) = online events (connected_clients self).
Proof.
  induction events as [|e events IH]; intros self; [reflexivity|].
  rewrite run_step, IH, on_event_registry. destruct e; reflexivity.
Qed.

(** X3. No frame, whatever its content, changes the registry, the maximum
    rotation or the output variant; after any sequence of events the
    registry holds exactly the clients that connected and have not
    disconnected since. *)
Theorem registry_follows_connections ws m events self :
  settings (after (handle_message ws m) self) = settings self /\
  connected_clients (snd (run events self)) = online events (connected_clients self).
Proof. split; [apply keeps_settings_handle_message | apply run_registry]. Qed.

(** ** Invariants over a run *)

Lemma run_returns events : forall self, fst (run events self) = Ok tt.
Proof.
  induction events as [|e events IH]; intros self; [reflexivity|].
  rewrite run_step. apply IH.
Qed.

Lemma run_preserves (P : server -> Prop) :
  (forall e, preserves P (on_event e)) ->
  forall events self, P self -> P (snd (run events self)).
Proof.
  intros HP events. induction events as [|e events IH]; intros self H; [exact H|].
  rewrite run_step. apply IH, HP, H.
Qed.

(** ** The calls of a backend *)

Lemma own_backend ct self self' :
  backend self' = backend self -> own ct self -> own ct self'.
Proof.
  unfold backend, own. intros E [H1 H2].
  injection E as E1 E2. rewrite E1, E2. auto.
Qed.

Lemma preserves_own_emit ct c :
  backend_call ct c = true -> preserves (own ct) (emit c).
Proof.
  intros Hc self [H1 H2]. split; [exact H1|].
  unfold after, emit, assign; simpl. rewrite forallb_app, H2; simpl. rewrite Hc. reflexivity.
Qed.

Lemma preserves_own_attr ct (k : controller -> M unit) :
  preserves (own ct) (k ct) -> preserves (own ct) (attr controller_type ≫= k).
Proof.
  intros Hk self H. pose proof (Hk self H) as Hs. destruct H as [E _].
  unfold after, mbind, M_bind, attr in *. rewrite E. exact Hs.
Qed.

Ltac own_step :=
  first
    [ (apply preserves_own_emit; reflexivity)
    | (apply preserves_own_attr; cbv beta iota)
    | apply preserves_for_each; intros ?
    | apply preserves_try_except; [|intros ?]
    | apply preserves_bind; [|intros ?]
    | match goal with
      | |- preserves _ (if ?c then _ else _) => destruct c
      | |- preserves _ (match ?c with _ => _ end) => destruct c
      end
    | match goal with
      | |- preserves (own ?ct) _ =>
          apply (preserves_keeps (own ct) backend);
            [apply own_backend | solve [repeat keeps_step]]
      end
    | progress cbv zeta ].

Lemma preserves_own_update_controller ct : preserves (own ct) update_controller.
Proof.
  unfold update_controller, update_vgamepad_controller,
    update_vjoy_controller, update_keyboard_controller, press_key, release_key,
    logger_error.
  destruct ct; repeat own_step.
Qed.

Lemma preserves_own_release_all_inputs ct : preserves (own ct) release_all_inputs.
Proof.
  pose proof (preserves_own_update_controller ct) as Hu.
  unfold release_all_inputs, release_key, logger_error.
  destruct ct; repeat first [exact Hu | own_step].
Qed.

Lemma preserves_own_handle_message ct ws m : preserves (own ct) (handle_message ws m).
Proof.
  pose proof (preserves_own_update_controller ct) as Hu.
  pose proof (preserves_own_release_all_inputs ct) as Hr.
  unfold handle_message, logger_error.
  repeat first [exact Hu | exact Hr | own_step].
Qed.

Lemma preserves_own_on_event ct e : preserves (own ct) (on_event e).
Proof.
  pose proof (preserves_own_release_all_inputs ct) as Hr.
  destruct e as [ws|ws m|ws]; simpl.
  - unfold register_client. own_step.
  - apply preserves_own_handle_message.
  - unfold unregister_client. repeat first [exact Hr | own_step].
Qed.

(** X4. From start-up, every device call made belongs to the library of the
    variant chosen at start-up (gamepad calls for the gamepad, axis and
    button writes for the joystick, key events for the keyboard); when no
    backend is available, no call is ever made. *)
Theorem backend_calls_only h events :
  let self := snd (run events (init h)) in
  forallb (backend_call (init_controller h)) (device self) = true /\
  (init_controller h = NONE -> device self = []).
Proof.
  cbv zeta.
  assert (H : own (init_controller h) (snd (run events (init h)))).
  { apply run_preserves; [apply preserves_own_on_event | split; reflexivity]. }
  destruct H as [_ H]. split; [exact H|].
  intros E. rewrite E in H. destruct (device _) as [|c l]; [reflexivity|].
  simpl in H. destruct c; discriminate.
Qed.

Lemma backend_calls_only_witness :
  init_controller (host_of NONE) = NONE /\
  device (snd (run two_clients (init (host_of NONE)))) = [] /\
  forallb (backend_call KEYBOARD)
    (device (snd (run two_clients (init (host_of KEYBOARD))))) = true.
Proof.
  split; [reflexivity|]. split.
  - apply (backend_calls_only (host_of NONE) two_clients). reflexivity.
  - apply (backend_calls_only (host_of KEYBOARD) two_clients).
Defined.

(** ** Nobody connected, nothing engaged *)

Lemma unregister_empties ws self :
  connected_clients self ∖ {[ws]} = ∅ ->
  unregister_client ws self =
  release_all_inputs (set_connected_clients ∅ self).
Proof.
  intros H. unfold unregister_client, mbind, M_bind, assign, attr.
  cbn [connected_clients set_connected_clients]. rewrite H.
  rewrite bool_decide_eq_true_2 by reflexivity. reflexivity.
Qed.

Lemma idle_neutral_on_event e self :
  from_clients [e] (connected_clients self) = true ->
  idle_neutral self -> idle_neutral (after (on_event e) self).
Proof.
  intros Hf Hi. unfold idle_neutral. rewrite on_event_registry.
  destruct e as [ws|ws m|ws]; simpl in *.
  - intros E. set_solver.
  - apply andb_prop in Hf as [Hf _]. apply bool_decide_eq_true in Hf.
    intros E. set_solver.
  - intros E. unfold after. rewrite (unregister_empties _ _ E).
    apply release_all_inputs_control.
Qed.

Lemma from_clients_cons e events clients :
  from_clients (e :: events) clients =
  from_clients [e] clients && from_clients events (online [e] clients).
Proof. destruct e; simpl; rewrite ?andb_true_r; reflexivity. Qed.

Lemma idle_neutral_run events : forall self,
  from_clients events (connected_clients self) = true ->
  idle_neutral self -> idle_neutral (snd (run events self)).
Proof.
  induction events as [|e events IH]; intros self Hf H; [exact H|].
  rewrite from_clients_cons in Hf. apply andb_prop in Hf as [Hf1 Hf2].
  rewrite run_step. apply IH.
  - rewrite on_event_registry. exact Hf2.
  - apply idle_neutral_on_event; assumption.
Qed.

(** X5. No control value stays engaged while nobody is connected. From
    start-up, after any sequence of events in which frames come from
    connected clients, if the registry is empty then the five control
    fields are neutral: the last client to leave has them zeroed, and only
    a frame can set them again. *)
Theorem control_neutral_while_idle h events :
  from_clients events ∅ = true ->
  let self := snd (run events (init h)) in
  connected_clients self = ∅ -> control self = neutral.
Proof.
  intros Hf self Hc.
  assert (H : idle_neutral self).
  { apply idle_neutral_run; [exact Hf|]. intros _. reflexivity. }
  exact (H Hc).
Qed.

Lemma control_neutral_while_idle_witness :
  let self := snd (run two_clients (init (host_of KEYBOARD))) in
  (from_clients two_clients ∅ = true /\ connected_clients self = ∅) /\
  control self = neutral.
Proof.
  cbv zeta.
  assert (Hf : from_clients two_clients ∅ = true) by (vm_compute; reflexivity).
  assert (Hc : connected_clients (snd (run two_clients (init (host_of KEYBOARD)))) = ∅)
    by (rewrite run_registry; vm_compute; reflexivity).
  split; [split; assumption|].
  exact (control_neutral_while_idle (host_of KEYBOARD) two_clients Hf Hc).
Defined.

(** ** One connection, start to end *)

Lemma online_frames ws frames events clients :
  online (map (Receive ws) frames ++ events) clients = online events clients.
Proof. induction frames as [|m frames IH]; [reflexivity | exact IH]. Qed.

(** X6. A connection from start to end is: register, every frame handled in
    order (no frame ends the read loop, since the handler lets no exception
    out), unregister. The client is not registered afterwards while the
    others stay, and when no other client is connected the control state
    ends neutral. *)
Theorem connection_always_unregisters ws frames self :
  let self' := after (handle_client ws frames) self in
  handle_client ws frames self =
    run (Connect ws :: map (Receive ws) frames ++ [Disconnect ws]) self /\
  connected_clients self' = connected_clients self ∖ {[ws]} /\
  (connected_clients self ⊆ {[ws]} -> control self' = neutral).
Proof.
  cbv zeta. split; [apply handle_client_run|].
  unfold after. rewrite handle_client_run.
  split.
  - rewrite run_registry. simpl. rewrite online_frames. simpl. set_solver.
  - intros Hs. rewrite run_step, run_frames, run_step.
    change (on_event (Connect ws)) with (register_client ws).
    set (s := after (for_each frames (handle_message ws))
                (after (register_client ws) self)).
    change (control (after (unregister_client ws) s) = neutral). unfold after at 1.
    assert (Hr : connected_clients s = {[ws]} ∪ connected_clients self).
    { pose proof (run_registry (map (Receive ws) frames)
                    (after (register_client ws) self)) as H.
      rewrite <- (app_nil_r (map _ _)) in H. rewrite run_frames, online_frames in H.
      exact H. }
    rewrite unregister_empties by (rewrite Hr; set_solver).
    apply release_all_inputs_control.
Qed.

Lemma connection_always_unregisters_witness :
  let self' := after (handle_client 1 [steer 300]) (init (host_of KEYBOARD)) in
  connected_clients (init (host_of KEYBOARD)) ⊆ {[ 1%nat ]} /\
  connected_clients self' = ∅ ∖ {[ 1%nat ]} /\
  control self' = neutral.
Proof.
  cbv zeta.
  assert (Hs : connected_clients (init (host_of KEYBOARD)) ⊆ {[ 1%nat ]})
    by (simpl; set_solver).
  destruct (connection_always_unregisters 1 [steer 300] (init (host_of KEYBOARD)))
    as (_ & Hr & Hn).
  split; [exact Hs|]. split; [exact Hr|]. exact (Hn Hs).
Defined.

(** ** The keys of the keyboard variant *)













(** ** One apply of the keyboard variant *)






(** ** A second apply *)





Lemma bind_attr {A B} (f : server -> A) (k : A -> M B) self :
  (attr f ≫= k) self = k (f self) self.
Proof. reflexivity. Qed.








(** ** The gamepad variant *)


Lemma normalized_in_range q :
  in_range (NFloat (fopp f1)) (NFloat f1) (NFloat (fmax (fopp f1) (fmin f1 q))) = true.
Proof.
  rewrite <- max_float, <- min_float. apply max_min_in_range. reflexivity.
Qed.



(** X11. The apply step never raises, whatever the state (each adapter
    catches what its body raises, and logs it), and changes nothing but the
    adapter's book-keeping; [release_all_inputs] always leaves the control
    state neutral, and leaves the registry, the maximum rotation and the
    variant as they were. *)
Theorem apply_never_raises self :
  outcome update_controller self = Ok tt /\
  core (after update_controller self) = core self /\
  control (after release_all_inputs self) = neutral /\
  settings (after release_all_inputs self) = settings self.
Proof.
  split; [apply returns_update_controller|].
  split; [apply adapter_only_update_controller|].
  split; [apply release_all_inputs_control | apply keeps_settings_release_all_inputs].
Qed.

(** ** What an [update] assigns *)

Lemma update_fields ws top d self :
  command_of top = OStr "update" -> payload_of top = ODict d ->
  let self' := after (handle_message ws (Json (ODict top))) self in
  (forall x, dict_lookup "steering" d = Some (ONum x) ->
     current_steering self' =
     max (NFloat (fopp (max_steering_angle self)))
         (min (NFloat (max_steering_angle self)) x)) /\
  (forall x q, numeric (dict_lookup "steering" d) ->
     dict_lookup "accelerator" d = Some (ONum x) -> truediv x f100 = Ok q ->
     current_accelerator self' = fmax f0 (fmin f1 q)) /\
  (forall x q, numeric (dict_lookup "steering" d) ->
     percentage (dict_lookup "accelerator" d) ->
     dict_lookup "brake" d = Some (ONum x) -> truediv x f100 = Ok q ->
     current_brake self' = fmax f0 (fmin f1 q)).
Proof.
  intros Hc Hp self'. unfold self', after at 1 2 3.
  rewrite (handle_update_dict _ _ _ _ Hc Hp).
  fold (after (try_except
    (ingest_steering (ODict d) ;; ingest_accelerator (ODict d) ;;
     ingest_brake (ODict d) ;; update_controller) on_exception) self).
  assert (Hh : forall {X} (f : server -> X),
             (forall l s, f (set_log l s) = f s) ->
             forall e, keeps f (on_exception e))
    by (intros X f Hf e; apply keeps_on_exception, Hf).
  split; [|split].
  - intros x Hx.
    rewrite (after_try_seq current_steering).
    + unfold after. rewrite (ingest_steering_num _ _ _ Hx). reflexivity.
    + unfold outcome. rewrite (ingest_steering_num _ _ _ Hx). reflexivity.
    + apply keeps_bind; [apply keeps_ingest_accelerator; reflexivity | intros _].
      apply keeps_bind; [apply keeps_ingest_brake; reflexivity | intros _].
      apply (keeps_update_controller_control steering_angle).
    + apply Hh. reflexivity.
  - intros x q Hs Hx Hq.
    destruct (ingest_steering_numeric d self Hs) as [Hs1 _].
    unfold after at 1. rewrite (try_except_seq _ _ _ _ Hs1).
    fold (after (try_except
      (ingest_accelerator (ODict d) ;; ingest_brake (ODict d) ;; update_controller)
      on_exception) (after (ingest_steering (ODict d)) self)).
    rewrite (after_try_seq current_accelerator).
    + unfold after at 1. rewrite (ingest_accelerator_num _ _ _ _ Hx Hq). reflexivity.
    + unfold outcome. rewrite (ingest_accelerator_num _ _ _ _ Hx Hq). reflexivity.
    + apply keeps_bind; [apply keeps_ingest_brake; reflexivity | intros _].
      apply (keeps_update_controller_control accelerator).
    + apply Hh. reflexivity.
  - intros x q Hs Ha Hx Hq.
    destruct (ingest_steering_numeric d self Hs) as [Hs1 _].
    unfold after at 1. rewrite (try_except_seq _ _ _ _ Hs1).
    destruct (ingest_accelerator_percentage d (after (ingest_steering (ODict d)) self) Ha)
      as [Ha1 _].
    rewrite (try_except_seq _ _ _ _ Ha1).
    fold (after (try_except (ingest_brake (ODict d) ;; update_controller) on_exception)
            (after (ingest_accelerator (ODict d)) (after (ingest_steering (ODict d)) self))).
    rewrite (after_try_seq current_brake).
    + unfold after at 1. rewrite (ingest_brake_num _ _ _ _ Hx Hq). reflexivity.
    + unfold outcome. rewrite (ingest_brake_num _ _ _ _ Hx Hq). reflexivity.
    + apply (keeps_update_controller_control brake).
    + apply Hh. reflexivity.
Qed.

(** X12. A NaN in a field of an [update] is taken as the upper bound: NaN
    steering is stored as the maximum rotation, a NaN pedal as 1.0 (fully
    pressed), since [min(bound, nan)] is the bound. *)
Theorem nan_is_taken_as_upper_bound ws top d self :
  command_of top = OStr "update" -> payload_of top = ODict d ->
  max_steering_angle self = f900 ->
  let nan := ONum (NFloat S754_nan) in
  let self' := after (handle_message ws (Json (ODict top))) self in
  (dict_lookup "steering" d = Some nan -> current_steering self' = NFloat f900) /\
  (numeric (dict_lookup "steering" d) ->
   dict_lookup "accelerator" d = Some nan -> current_accelerator self' = f1) /\
  (numeric (dict_lookup "steering" d) ->
   percentage (dict_lookup "accelerator" d) ->
   dict_lookup "brake" d = Some nan -> current_brake self' = f1).
Proof.
  intros Hc Hp Hm nan self'.
  destruct (update_fields ws top d self Hc Hp) as (Hs & Ha & Hb).
  split; [|split].
  - intros H. unfold self'. rewrite (Hs _ H), Hm. reflexivity.
  - intros Hn H. unfold self'. rewrite (Ha _ S754_nan Hn H eq_refl). reflexivity.
  - intros Hn Hq H. unfold self'. rewrite (Hb _ S754_nan Hn Hq H eq_refl). reflexivity.
Qed.

Lemma nan_is_taken_as_upper_bound_witness :
  let self' := after (handle_message 1 (Json (ODict nan_update))) (init (host_of NONE)) in
  (command_of nan_update = OStr "update" /\
   max_steering_angle (init (host_of NONE)) = f900) /\
  current_steering self' = NFloat f900 /\
  current_accelerator self' = f1 /\
  current_brake self' = f1.
Proof.
  cbv zeta. split; [split; reflexivity|].
  destruct (nan_is_taken_as_upper_bound 1 nan_update
              [("steering"%string, ONum (NFloat S754_nan));
               ("accelerator"%string, ONum (NFloat S754_nan));
               ("brake"%string, ONum (NFloat S754_nan))]
              (init (host_of NONE)) eq_refl eq_refl eq_refl) as (Hs & Ha & Hb).
  split; [apply Hs; reflexivity|].
  split; [apply Ha; [eexists|]; reflexivity|].
  apply Hb; [eexists; reflexivity | eexists; eexists; split; reflexivity | reflexivity].
Defined.


(** ** Bounds of binary64 values *)

Lemma shr_1_round_up mrs B :
  0 <= shr_m mrs -> round_up mrs <= 2 * B ->
  0 <= shr_m (shr_1 mrs) /\ round_up (shr_1 mrs) <= B.
Proof.
  destruct mrs as [m r s]. destruct m as [|p|p]; [| |simpl; lia];
    try destruct p as [p|p|]; destruct r, s; simpl; unfold round_up; simpl; lia.
Qed.

Lemma iter_shr_1_round_up p : forall mrs B,
  0 <= shr_m mrs -> round_up mrs <= B * 2 ^ Z.pos p ->
  0 <= shr_m (SpecFloat.iter_pos shr_1 p mrs) /\
  round_up (SpecFloat.iter_pos shr_1 p mrs) <= B.
Proof.
  induction p as [p IH|p IH|]; intros mrs B Hm Hu; simpl.
  - replace (Z.pos p~1) with (Z.pos p + Z.pos p + 1) in Hu by lia.
    rewrite !Z.pow_add_r in Hu by lia. change (2 ^ 1) with 2 in Hu.
    destruct (shr_1_round_up mrs (B * 2 ^ Z.pos p * 2 ^ Z.pos p) Hm) as [H0 U0]; [lia|].
    destruct (IH _ (B * 2 ^ Z.pos p) H0 U0) as [H1 U1].
    apply IH; assumption.
  - replace (Z.pos p~0) with (Z.pos p + Z.pos p) in Hu by lia.
    rewrite !Z.pow_add_r in Hu by lia.
    destruct (IH mrs (B * 2 ^ Z.pos p) Hm) as [H1 U1]; [lia|].
    apply IH; assumption.
  - apply shr_1_round_up; [exact Hm|]. change (2 ^ 1) with 2 in Hu. lia.
Qed.

Lemma round_up_record m l : round_up (shr_record_of_loc m l) = located_up m l.
Proof. destruct l as [|[]]; reflexivity. Qed.

Lemma round_nearest_even_round_up mrs :
  0 <= shr_m mrs ->
  0 <= round_nearest_even (shr_m mrs) (loc_of_shr_record mrs) <= round_up mrs.
Proof.
  intros Hm. unfold round_up, round_nearest_even.
  destruct (loc_of_shr_record mrs) as [|[]]; try destruct (Z.even _); lia.
Qed.

Lemma shr_m_round_up mrs : shr_m mrs <= round_up mrs.
Proof. unfold round_up. destruct (loc_of_shr_record mrs); lia. Qed.

(** A shift to the exponent that [fexp] asks for keeps a value at or below
    an integer bound at or below it. *)
Lemma shr_fexp_round_up m e l K :
  0 <= m -> e <= 0 -> 0 <= K < 2 ^ 53 -> located_up m l <= K * 2 ^ (- e) ->
  let '(mrs, e') := shr_fexp prec emax m e l in
  0 <= shr_m mrs /\ e' <= 0 /\ round_up mrs <= K * 2 ^ (- e').
Proof.
  intros Hm He HK Hu. unfold shr_fexp, shr.
  destruct (fexp prec emax (Zdigits2 m + e) - e) as [|p|p] eqn:En;
    rewrite ?shr_record_of_loc_m, ?round_up_record; auto.
  assert (Hp : 0 < 2 ^ (- e)) by (apply Z.pow_pos_nonneg; lia).
  assert (Hd : Zdigits2 m + e <= 53).
  { assert (Zdigits2 m <= 53 - e); [|lia].
    apply Zdigits2_le; [|lia]. split; [exact Hm|].
    replace (53 - e) with (53 + - e) by lia. rewrite Z.pow_add_r by lia.
    assert (m <= K * 2 ^ (- e)) by (unfold located_up in Hu; destruct l; lia).
    nia. }
  assert (He' : e + Z.pos p <= 0) by (unfold fexp, emin, prec, emax in En; lia).
  destruct (iter_shr_1_round_up p (shr_record_of_loc m l) (K * 2 ^ (- (e + Z.pos p))))
    as [H0 U0].
  - rewrite shr_record_of_loc_m. exact Hm.
  - rewrite round_up_record, <- Z.mul_assoc, <- Z.pow_add_r by lia.
    replace (- (e + Z.pos p) + Z.pos p) with (- e) by lia. exact Hu.
  - auto.
Qed.

Lemma binary_round_aux_bounded s m e l K :
  0 <= m -> e <= 0 -> 0 <= K < 2 ^ 53 -> located_up m l <= K * 2 ^ (- e) ->
  bounded_by s K (binary_round_aux prec emax s m e l).
Proof.
  intros Hm He HK Hu. unfold binary_round_aux.
  pose proof (shr_fexp_round_up m e l K Hm He HK Hu) as H1.
  destruct (shr_fexp prec emax m e l) as [mrs' e'].
  destruct H1 as (H1m & H1e & H1u).
  destruct (round_nearest_even_round_up mrs' H1m) as [Hr0 Hr1].
  pose proof (shr_fexp_round_up _ e' loc_Exact K Hr0 H1e HK) as H2.
  destruct (shr_fexp prec emax _ e' loc_Exact) as [mrs'' e''].
  destruct H2 as (H2m & H2e & H2u); [simpl; lia|].
  pose proof (shr_m_round_up mrs'') as Hle.
  destruct (shr_m mrs'') as [|p|p] eqn:Em; simpl; [exact I| |lia].
  assert (Hb : (e'' <=? emax - prec) = true)
    by (apply Z.leb_le; unfold emax, prec; lia).
  rewrite Hb. simpl. repeat split; [exact H2e | lia].
Qed.

Lemma iter_xO_value m d : Z.pos (Pos.iter xO m d) = Z.pos m * 2 ^ Z.pos d.
Proof.
  induction d as [|d IH] using Pos.peano_ind.
  - simpl. lia.
  - rewrite Pos.iter_succ, Pos2Z.inj_succ, Z.pow_succ_r by lia.
    rewrite Pos2Z.inj_xO, IH. lia.
Qed.

Lemma shl_align_value mx ex ex' :
  let '(mz, ez) := shl_align mx ex ex' in
  ez <= ex /\ Z.pos mz = Z.pos mx * 2 ^ (ex - ez).
Proof.
  unfold shl_align. destruct (ex' - ex) as [|d|d] eqn:E.
  - rewrite Z.sub_diag. simpl. lia.
  - rewrite Z.sub_diag. simpl. lia.
  - split; [lia|]. rewrite iter_xO_value. f_equal. f_equal. lia.
Qed.

Lemma binary_round_bounded s m e K :
  e <= 0 -> 0 <= K < 2 ^ 53 -> Z.pos m <= K * 2 ^ (- e) ->
  bounded_by s K (binary_round prec emax s m e).
Proof.
  intros He HK Hm. unfold binary_round.
  pose proof (shl_align_value m e (fexp prec emax (Z.pos (digits2_pos m) + e))) as H.
  destruct (shl_align m e (fexp prec emax (Z.pos (digits2_pos m) + e))) as [mz ez].
  destruct H as [Hez Hmz].
  apply binary_round_aux_bounded; [lia | lia | exact HK |].
  simpl. rewrite Hmz.
  replace (- ez) with (- e + (e - ez)) by lia. rewrite Z.pow_add_r by lia.
  assert (0 < 2 ^ (e - ez)) by (apply Z.pow_pos_nonneg; lia). nia.
Qed.

Lemma binary_normalize_bounded z e K szero :
  e <= 0 -> 0 <= K < 2 ^ 53 -> Z.abs z <= K * 2 ^ (- e) ->
  bounded_by (z <? 0) K (binary_normalize prec emax z e szero).
Proof.
  intros He HK Hz. destruct z as [|p|p]; simpl; [exact I| |];
    apply binary_round_bounded; assumption.
Qed.

(** The product of two bounded floats is within the product of the
    bounds: rounding does not cross an integer. *)
Lemma fmul_bounded sx sy Kx Ky x y :
  bounded_by sx Kx x -> bounded_by sy Ky y ->
  0 <= Kx -> 0 <= Ky -> Kx * Ky < 2 ^ 53 ->
  bounded_by (xorb sx sy) (Kx * Ky) (fmul x y).
Proof.
  intros Hx Hy HKx HKy HK.
  destruct x as [s1| | |s1 m1 e1], y as [s2| | |s2 m2 e2]; simpl in *;
    try exact I; try contradiction.
  destruct Hx as (-> & He1 & Hm1), Hy as (-> & He2 & Hm2).
  apply binary_round_aux_bounded; [lia | lia | lia |].
  simpl. rewrite Pos2Z.inj_mul.
  replace (- (e1 + e2)) with (- e1 + - e2) by lia. rewrite Z.pow_add_r by lia.
  assert (0 < 2 ^ (- e1)) by (apply Z.pow_pos_nonneg; lia).
  assert (0 < 2 ^ (- e2)) by (apply Z.pow_pos_nonneg; lia).
  nia.
Qed.

Lemma int_of_float_bounded K f :
  0 <= K -> bounded_by false K f ->
  exists z, int_of_float f = Ok z /\ 0 <= z <= K.
Proof.
  intros HK. destruct f as [s| | |s m e]; simpl; try contradiction.
  - intros _. exists 0. split; [reflexivity | lia].
  - intros (-> & He & Hm). eexists. split; [reflexivity|].
    destruct (0 <=? e) eqn:E.
    + apply Z.leb_le in E. assert (e = 0) by lia. subst e. simpl in *. lia.
    + assert (0 < 2 ^ (- e)) by (apply Z.pow_pos_nonneg; lia).
      split; [apply Z.div_pos; lia|].
      apply Z.div_le_upper_bound; lia.
Qed.

Lemma located_up_new_location nb k q :
  located_up q (new_location nb k) = if k =? 0 then q else q + 1.
Proof.
  unfold new_location, new_location_even, new_location_odd.
  destruct (Z.even nb), (k =? 0); reflexivity.
Qed.

(** The quotient by a float [y] of a float within [Kx], when [Kx <= K * y]
    for an integer [K]: within [K]. *)
Lemma fdiv_bounded sx Kx K x sy my ey :
  bounded_by sx Kx x -> ey <= 0 -> 0 <= Kx -> 0 <= K < 2 ^ 53 ->
  Kx * 2 ^ (- ey) <= K * Z.pos my ->
  Kx < 2 ^ (Z.pos (digits2_pos my) + ey + 53) ->
  bounded_by (xorb sx sy) K (fdiv x (S754_finite sy my ey)).
Proof.
  intros Hx Hey HKx HK Hy Hd.
  destruct x as [s1| | |s1 m1 e1]; simpl in *; try exact I; try contradiction.
  destruct Hx as (-> & He1 & Hm1).
  assert (Hd2 : 0 <= Z.pos (digits2_pos my) + ey + 53).
  { destruct (Z.le_gt_cases 0 (Z.pos (digits2_pos my) + ey + 53)) as [H|H]; [exact H|].
    rewrite Z.pow_neg_r in Hd by lia. lia. }
  assert (Hp1 : 0 < 2 ^ (- e1)) by (apply Z.pow_pos_nonneg; lia).
  assert (Hd1 : Z.pos (digits2_pos m1) + e1 <= Z.pos (digits2_pos my) + ey + 53).
  { assert (Zdigits2 (Z.pos m1) <= Z.pos (digits2_pos my) + ey + 53 + - e1);
      [|simpl in *; lia].
    apply Zdigits2_le; [|lia]. split; [lia|].
    rewrite Z.pow_add_r by lia. nia. }
  unfold SFdiv_core_binary. unfold Zdigits2.
  set (e' := Z.min (fexp prec emax (Z.pos (digits2_pos m1) + e1 -
                                    (Z.pos (digits2_pos my) + ey))) (e1 - ey)).
  assert (He' : e' <= 0) by (unfold e', fexp, emin, prec, emax; lia).
  assert (Hs : 0 <= e1 - ey - e') by (unfold e'; lia).
  set (m' := match e1 - ey - e' with
             | 0 => Z.pos m1
             | Z.pos _ => Z.shiftl (Z.pos m1) (e1 - ey - e')
             | Z.neg _ => 0
             end).
  assert (Hm' : m' = Z.pos m1 * 2 ^ (e1 - ey - e')).
  { unfold m'. destruct (e1 - ey - e') as [|p|p] eqn:E.
    - simpl. lia.
    - apply Z.shiftl_mul_pow2. lia.
    - lia. }
  clearbody m'.
  pose proof (Z_div_mod m' (Z.pos my) eq_refl) as Hqr.
  destruct (Z.div_eucl m' (Z.pos my)) as [q r]. destruct Hqr as [Eq Hr].
  assert (Hp' : 0 < 2 ^ (- e')) by (apply Z.pow_pos_nonneg; lia).
  assert (Hpy : 0 < 2 ^ (- ey)) by (apply Z.pow_pos_nonneg; lia).
  assert (Hb : m' <= K * 2 ^ (- e') * Z.pos my).
  { rewrite Hm'.
    assert (E : 2 ^ (- e1) * 2 ^ (e1 - ey - e') = 2 ^ (- ey) * 2 ^ (- e')).
    { rewrite <- !Z.pow_add_r by lia. f_equal. lia. }
    assert (Z.pos m1 * 2 ^ (e1 - ey - e') <= Kx * (2 ^ (- e1) * 2 ^ (e1 - ey - e'))).
    { assert (0 < 2 ^ (e1 - ey - e')) by (apply Z.pow_pos_nonneg; lia). nia. }
    rewrite E in H. nia. }
  assert (Hq : 0 <= q) by nia.
  apply binary_round_aux_bounded; [exact Hq | exact He' | exact HK |].
  rewrite located_up_new_location.
  destruct (r =? 0) eqn:Er.
  - apply Z.eqb_eq in Er. nia.
  - apply Z.eqb_neq in Er. nia.
Qed.

(** One more than a float within [[-1, 1]] is within [[0, 2]]. *)
Lemma fadd_one_bounded neg n : bounded_by neg 1 n -> bounded_by false 2 (fadd n f1).
Proof.
  destruct n as [s| | |s m e]; simpl; try contradiction.
  - intros _. repeat split; lia.
  - intros (_ & He & Hm). clear neg.
    assert (Hz : Z.min e (-52) <= 0) by lia.
    pose proof (shl_align_value m e (Z.min e (-52))) as Ha.
    pose proof (shl_align_exponent m e (Z.min e (-52))) as Ea.
    pose proof (shl_align_value 4503599627370496 (-52) (Z.min e (-52))) as Hb.
    pose proof (shl_align_exponent 4503599627370496 (-52) (Z.min e (-52))) as Eb.
    destruct (shl_align m e (Z.min e (-52))) as [a ea].
    destruct (shl_align 4503599627370496 (-52) (Z.min e (-52))) as [b eb].
    simpl fst in *; simpl snd in *.
    rewrite Ea in Ha by lia. rewrite Eb in Hb by lia. clear Ea Eb ea eb.
    destruct Ha as [_ Ha], Hb as [_ Hb].
    set (ez := Z.min e (-52)) in *.
    assert (Hpz : 0 < 2 ^ (- ez)) by (apply Z.pow_pos_nonneg; lia).
    assert (Eb : Z.pos b = 2 ^ (- ez)).
    { rewrite Hb. change 4503599627370496 with (2 ^ 52).
      rewrite <- Z.pow_add_r by lia. f_equal. lia. }
    assert (La : Z.pos a <= 2 ^ (- ez)).
    { rewrite Ha.
      assert (E : 2 ^ (- e) * 2 ^ (e - ez) = 2 ^ (- ez))
        by (rewrite <- Z.pow_add_r by lia; f_equal; lia).
      assert (0 < 2 ^ (e - ez)) by (apply Z.pow_pos_nonneg; lia). nia. }
    set (z := cond_Zopp s (Z.pos a) + cond_Zopp false (Z.pos b)).
    assert (Hzr : 0 <= z <= 2 * 2 ^ (- ez))
      by (unfold z, cond_Zopp; destruct s; lia).
    replace false with (z <? 0) at 1 by (apply Z.ltb_ge; lia).
    apply binary_normalize_bounded; [exact Hz | split; [lia | reflexivity] |].
    change (Z.abs z <= 2 * 2 ^ (- ez)). lia.
Qed.

Lemma binary64_mantissa s m e :
  binary64 (S754_finite s m e) = true -> Z.pos m < 2 ^ 53.
Proof.
  intros H. apply binary64_digits in H.
  pose proof (digits2_pos_bounds m) as [_ Hm].
  apply (Z.lt_le_trans _ _ _ Hm). apply Z.pow_le_mono_r; lia.
Qed.

Lemma unit_bounded f :
  binary64 f = true -> in_range (NFloat f0) (NFloat f1) (NFloat f) = true ->
  bounded_by false 1 f.
Proof.
  intros Hv Hr. destruct f as [s|s| |s m e]; try exact I.
  - destruct s; discriminate.
  - discriminate.
  - pose proof (binary64_mantissa _ _ _ Hv) as Hm.
    apply andb_prop in Hr as [H0 H1].
    destruct s; [discriminate|].
    unfold num_le, num_compare, fcompare, SFcompare, f1 in H1.
    simpl. split; [reflexivity|].
    destruct (Z.compare_spec e (-52)) as [E|E|E]; try discriminate.
    + subst e. split; [lia|]. change (2 ^ (- -52)) with 4503599627370496.
      pose proof (Pos.compare_spec m 4503599627370496) as C.
      unfold Pos.compare in C. revert H1.
      destruct C as [C|C|C]; intros H1; try discriminate;
        [subst m | apply Pos2Z.pos_lt_pos in C]; lia.
    + split; [lia|].
      assert (2 ^ 53 <= 2 ^ (- e)) by (apply Z.pow_le_mono_r; lia). lia.
Qed.

Lemma float_bounded_900 f :
  binary64 f = true ->
  in_range (NFloat (fopp f900)) (NFloat f900) (NFloat f) = true ->
  exists neg, bounded_by neg 900 f.
Proof.
  intros Hv Hr. apply andb_prop in Hr as [Hlo Hhi].
  destruct f as [s|s| |s m e]; try (exists false; exact I).
  - destruct s; discriminate.
  - discriminate.
  - pose proof (binary64_mantissa _ _ _ Hv) as Hm.
    exists s. simpl. split; [reflexivity|].
    unfold num_le, num_compare, fcompare, SFcompare, f900, fopp, SFopp in Hlo, Hhi.
    simpl negb in Hlo.
    assert (Hfar : e < -43 -> Z.pos m <= 900 * 2 ^ (- e)).
    { intros He. assert (2 ^ 44 <= 2 ^ (- e)) by (apply Z.pow_le_mono_r; lia).
      change (2 ^ 44) with 17592186044416 in *. change (2 ^ 53) with 9007199254740992 in *.
      lia. }
    destruct s.
    + destruct (Z.compare_spec (-43) e) as [E|E|E]; try discriminate.
      * subst e. split; [lia|]. change (2 ^ (- -43)) with 8796093022208.
        pose proof (Pos.compare_spec 7916483719987200 m) as C.
        unfold Pos.compare in C. revert Hlo.
        destruct C as [C|C|C]; intros Hlo; try discriminate;
          [subst m | apply Pos2Z.pos_lt_pos in C]; lia.
      * split; [lia | apply Hfar; lia].
    + destruct (Z.compare_spec e (-43)) as [E|E|E]; try discriminate.
      * subst e. split; [lia|]. change (2 ^ (- -43)) with 8796093022208.
        pose proof (Pos.compare_spec m 7916483719987200) as C.
        unfold Pos.compare in C. revert Hhi.
        destruct C as [C|C|C]; intros Hhi; try discriminate;
          [subst m | apply Pos2Z.pos_lt_pos in C]; lia.
      * split; [lia | apply Hfar; lia].
Qed.

Lemma float_of_int_bounded z :
  -900 <= z <= 900 ->
  exists f, float_of_int z = Ok f /\ bounded_by (z <? 0) 900 f.
Proof.
  intros Hz. unfold float_of_int.
  assert (H : bounded_by (z <? 0) 900 (binary_normalize prec emax z 0 false)).
  { apply binary_normalize_bounded; [lia | | simpl; lia].
    change (2 ^ 53) with 9007199254740992. lia. }
  destruct (binary_normalize prec emax z 0 false) as [s|s| |s m e];
    simpl in H; try tauto; eexists; split; try reflexivity; exact H.
Qed.

(** The operand of the steering division, within the maximum rotation. *)
Lemma steering_bounded steering :
  in_range (NFloat (fopp f900)) (NFloat f900) steering = true ->
  match steering with NFloat f => binary64 f = true | _ => True end ->
  exists neg x, to_float steering = Ok x /\ bounded_by neg 900 x.
Proof.
  intros Hr Hv. destruct steering as [b|z|f].
  - destruct (float_of_int_bounded (Z.b2z b)) as (x & Hx & Hb);
      [destruct b; simpl; lia|].
    exists (Z.b2z b <? 0), x. auto.
  - destruct (float_of_int_bounded z (int_within_900 z Hr)) as (x & Hx & Hb).
    exists (z <? 0), x. auto.
  - destruct (float_bounded_900 f Hv Hr) as [neg Hb]. exists neg, f. auto.
Qed.

(** ** The joystick axes *)

Lemma pedal_axis_bounded unit :
  binary64 unit = true ->
  in_range (NFloat f0) (NFloat f1) (NFloat unit) = true ->
  exists z, int_of_float (fmul unit f32767) = Ok z /\ 0 <= z <= 32767.
Proof.
  intros Hv Hr. apply (int_of_float_bounded 32767); [lia|].
  apply (fmul_bounded false false 1 32767); [| | lia | lia | reflexivity].
  - apply unit_bounded; assumption.
  - simpl. repeat split; lia.
Qed.

Lemma normalized_bounded neg q :
  bounded_by neg 1 q -> exists neg', bounded_by neg' 1 (fmax (fopp f1) (fmin f1 q)).
Proof.
  intros Hq. destruct (fmin_fmax_cases (fopp f1) f1 q) as [-> | [-> | ->]].
  - exists neg. exact Hq.
  - exists true. simpl. repeat split; lia.
  - exists false. simpl. repeat split; lia.
Qed.

Lemma steering_axis_bounded steering :
  in_range (NFloat (fopp f900)) (NFloat f900) steering = true ->
  match steering with NFloat f => binary64 f = true | _ => True end ->
  exists q z,
    truediv steering f900 = Ok q /\
    int_of_float (fmul (fdiv (fadd (fmax (fopp f1) (fmin f1 q)) f1) f2) f32767) = Ok z /\
    0 <= z <= 32767.
Proof.
  intros Hr Hv. destruct (steering_bounded steering Hr Hv) as (neg & x & Hx & Hb).
  exists (fdiv x f900).
  assert (Hq : bounded_by (xorb neg false) 1 (fdiv x f900)).
  { apply (fdiv_bounded neg 900); [exact Hb | lia | lia | split; [lia | reflexivity] | | ].
    - change (2 ^ (- -43)) with 8796093022208. lia.
    - reflexivity. }
  destruct (normalized_bounded _ _ Hq) as [neg' Hn].
  pose proof (fadd_one_bounded _ _ Hn) as Ha.
  assert (Hh : bounded_by (xorb false false) 1
                 (fdiv (fadd (fmax (fopp f1) (fmin f1 (fdiv x f900))) f1) f2)).
  { apply (fdiv_bounded false 2); [exact Ha | lia | lia | split; [lia | reflexivity] | | ].
    - change (2 ^ (- -51)) with 2251799813685248. lia.
    - reflexivity. }
  assert (Hp : bounded_by (xorb false false) (1 * 32767)
                 (fmul (fdiv (fadd (fmax (fopp f1) (fmin f1 (fdiv x f900))) f1) f2) f32767)).
  { apply fmul_bounded; [exact Hh | simpl; repeat split; lia | lia | lia | reflexivity]. }
  destruct (int_of_float_bounded (1 * 32767) _ ltac:(lia) Hp) as (z & Hz & Hzr).
  exists z. split; [|split; [exact Hz | lia]].
  unfold truediv. rewrite Hx. reflexivity.
Qed.

Lemma update_vjoy_controller_within_range self :
  max_steering_angle self = f900 ->
  in_domain self = true ->
  binary64_state self = true ->
  exists x y z,
    update_vjoy_controller self =
    (Ok tt, set_device
              (device self ++
               [set_axis HID_USAGE_X x; set_axis HID_USAGE_Y y; set_axis HID_USAGE_Z z;
                set_button 1 (handbrake_pressed self);
                set_button 2 (horn_pressed self)]) self) /\
    1 <= x <= 32768 /\ 0 <= y <= 32767 /\ 1 <= z <= 32768.
Proof.
  intros Hm Hd Hv.
  unfold in_domain, in_domain_of in Hd. rewrite Hm in Hd.
  apply andb_prop in Hd as [Hd Hb]. apply andb_prop in Hd as [Hs Ha].
  unfold binary64_state in Hv.
  apply andb_prop in Hv as [Hv Hvb]. apply andb_prop in Hv as [Hvs Hva].
  change (steering_angle (control self)) with (current_steering self) in Hs.
  change (accelerator (control self)) with (current_accelerator self) in Ha.
  change (brake (control self)) with (current_brake self) in Hb.
  assert (Hvs' : match current_steering self with
                 | NFloat f => binary64 f = true
                 | _ => True
                 end) by (destruct (current_steering self); auto).
  destruct (steering_axis_bounded _ Hs Hvs') as (q & tx & Eq & Ex & Hx).
  destruct (pedal_axis_bounded _ Hva Ha) as (ty & Ey & Hy).
  destruct (pedal_axis_bounded _ Hvb Hb) as (tz & Ez & Hz).
  exists (tx + 1), (32768 - (ty + 1)), (tz + 1).
  split; [|lia].
  unfold update_vjoy_controller, try_except, mbind, M_bind, attr, lift, emit, assign.
  rewrite Hm, Eq. cbv zeta. rewrite Ex. simpl. rewrite Ey. simpl. rewrite Ez. simpl.
  unfold set_device; simpl. rewrite <- !app_assoc. reflexivity.
Qed.

(** X13. In the joystick variant, for every control state within its
    domain (binary64 values, maximum rotation 900), one apply writes a steering axis and a brake axis within
    1..32768 and an accelerator axis within 0..32767: no rounding of the
    float operations takes a value out of the range. *)
Theorem joystick_axes_within_range self :
  controller_type self = VJOY ->
  max_steering_angle self = f900 ->
  in_domain self = true ->
  binary64_state self = true ->
  exists x y z,
    update_controller self =
    (Ok tt, set_device
              (device self ++
               [set_axis HID_USAGE_X x; set_axis HID_USAGE_Y y; set_axis HID_USAGE_Z z;
                set_button 1 (handbrake_pressed self);
                set_button 2 (horn_pressed self)]) self) /\
    1 <= x <= 32768 /\ 0 <= y <= 32767 /\ 1 <= z <= 32768.
Proof.
  intros Hct Hm Hd Hv.
  destruct (update_vjoy_controller_within_range self Hm Hd Hv) as (x & y & z & E & H).
  exists x, y, z. split; [|exact H].
  unfold update_controller, mbind, M_bind, attr. rewrite Hct. exact E.
Qed.

Lemma joystick_axes_within_range_witness :
  (controller_type (racing VJOY) = VJOY /\
   max_steering_angle (racing VJOY) = f900 /\
   in_domain (racing VJOY) = true /\
   binary64_state (racing VJOY) = true) /\
  exists x y z,
    update_controller (racing VJOY) =
    (Ok tt, set_device
              (device (racing VJOY) ++
               [set_axis HID_USAGE_X x; set_axis HID_USAGE_Y y; set_axis HID_USAGE_Z z;
                set_button 1 (handbrake_pressed (racing VJOY));
                set_button 2 (horn_pressed (racing VJOY))]) (racing VJOY)) /\
    1 <= x <= 32768 /\ 0 <= y <= 32767 /\ 1 <= z <= 32768.
Proof.
  split; [repeat split|].
  exact (joystick_axes_within_range (racing VJOY) eq_refl eq_refl eq_refl eq_refl).
Defined.


(** ** Rounding gives binary64 values *)

Lemma Zdigits2_mono a b : 0 <= a <= b -> Zdigits2 a <= Zdigits2 b.
Proof.
  intros H. pose proof (Zdigits2_lt_pow b ltac:(lia)).
  apply Zdigits2_le; [lia | apply Zdigits2_nonneg].
Qed.

Lemma fexp_mono x y : x <= y -> fexp prec emax x <= fexp prec emax y.
Proof. unfold fexp. lia. Qed.

(** From an exponent not above the one [fexp] asks for, [shr_fexp] shifts
    to exactly that exponent. *)
Lemma shr_fexp_canonical m e l :
  0 <= m -> e <= fexp prec emax (Zdigits2 m + e) ->
  let '(mrs, e') := shr_fexp prec emax m e l in
  0 <= shr_m mrs /\ e' = fexp prec emax (Zdigits2 m + e) /\
  Zdigits2 (shr_m mrs) = Z.max 0 (Zdigits2 m - (e' - e)).
Proof.
  intros Hm He. unfold shr_fexp, shr.
  pose proof (Zdigits2_nonneg m) as Hd.
  destruct (fexp prec emax (Zdigits2 m + e) - e) as [|p|p] eqn:En;
    rewrite ?shr_record_of_loc_m; try lia.
  destruct (iter_shr_1_digits p (shr_record_of_loc m l)) as [H0 E];
    [rewrite shr_record_of_loc_m; exact Hm|].
  rewrite shr_record_of_loc_m in E.
  split; [exact H0|]. split; [lia|]. rewrite E. f_equal. lia.
Qed.

Lemma round_nearest_even_ge x l : x <= round_nearest_even x l.
Proof. unfold round_nearest_even. destruct l as [|[]]; try destruct (Z.even x); lia. Qed.

(** Rounding gives a binary64 value. *)
Lemma binary_round_aux_valid s m e l :
  0 <= m -> e <= fexp prec emax (Zdigits2 m + e) ->
  binary64 (binary_round_aux prec emax s m e l) = true.
Proof.
  intros Hm He. unfold binary_round_aux.
  pose proof (shr_fexp_canonical m e l Hm He) as H1.
  destruct (shr_fexp prec emax m e l) as [mrs' e'].
  destruct H1 as (H1m & E1 & D1).
  set (r := round_nearest_even (shr_m mrs') (loc_of_shr_record mrs')).
  assert (Hr : shr_m mrs' <= r) by apply round_nearest_even_ge.
  assert (Hdr : Zdigits2 (shr_m mrs') <= Zdigits2 r) by (apply Zdigits2_mono; lia).
  assert (He' : e' <= fexp prec emax (Zdigits2 r + e')).
  { rewrite E1 at 1. apply fexp_mono. lia. }
  pose proof (shr_fexp_canonical r e' loc_Exact ltac:(lia) He') as H2.
  destruct (shr_fexp prec emax r e' loc_Exact) as [mrs'' e''].
  destruct H2 as (H2m & E2 & D2).
  destruct (shr_m mrs'') as [|p|p] eqn:Em; [reflexivity| |lia].
  destruct (e'' <=? emax - prec) eqn:Eb; [|reflexivity].
  unfold binary64, valid_binary, bounded, canonical_mantissa.
  rewrite Eb, andb_true_r. apply Z.eqb_eq.
  simpl in D2. rewrite E2 at 2. f_equal. lia.
Qed.

Lemma binary_round_valid s m e : binary64 (binary_round prec emax s m e) = true.
Proof.
  unfold binary_round.
  pose proof (shl_align_magnitude m e (fexp prec emax (Z.pos (digits2_pos m) + e))) as H.
  pose proof (shl_align_value m e (fexp prec emax (Z.pos (digits2_pos m) + e))) as Hv.
  pose proof (shl_align_exponent m e (fexp prec emax (Z.pos (digits2_pos m) + e))) as He.
  destruct (shl_align m e (fexp prec emax (Z.pos (digits2_pos m) + e))) as [mz ez].
  simpl fst in *; simpl snd in *. destruct Hv as [Hle _].
  apply binary_round_aux_valid; [lia|].
  rewrite H. unfold Zdigits2.
  destruct (Z.le_gt_cases (fexp prec emax (Z.pos (digits2_pos m) + e)) e) as [C|C].
  - rewrite He by exact C. lia.
  - lia.
Qed.

Lemma binary_normalize_valid z e szero :
  binary64 (binary_normalize prec emax z e szero) = true.
Proof. destruct z; simpl; [reflexivity | apply binary_round_valid..]. Qed.

Lemma div_digits_lower a b :
  0 < a -> 0 < b -> Zdigits2 a - Zdigits2 b <= Zdigits2 (a / b).
Proof.
  intros Ha Hb.
  pose proof (Zdigits2_nonneg (a / b)) as Hq.
  destruct (Z.le_gt_cases (Zdigits2 a - Zdigits2 b) 0) as [C|C]; [lia|].
  destruct a as [|pa|pa]; try lia. destruct b as [|pb|pb]; try lia.
  pose proof (digits2_pos_bounds pa) as [Hal _].
  pose proof (digits2_pos_bounds pb) as [_ Hbu].
  simpl Zdigits2 in *.
  set (k := Z.pos (digits2_pos pa) - Z.pos (digits2_pos pb)) in *.
  assert (Hlow : 2 ^ (k - 1) <= Z.pos pa / Z.pos pb).
  { apply Z.div_le_lower_bound; [lia|].
    assert (E : 2 ^ (Z.pos (digits2_pos pa) - 1) =
                2 ^ Z.pos (digits2_pos pb) * 2 ^ (k - 1))
      by (rewrite <- Z.pow_add_r by lia; f_equal; lia).
    assert (0 < 2 ^ (k - 1)) by (apply Z.pow_pos_nonneg; lia). nia. }
  pose proof (Zdigits2_lt_pow (Z.pos pa / Z.pos pb) ltac:(apply Z.div_pos; lia)) as Hup.
  destruct (Z.le_gt_cases k (Zdigits2 (Z.pos pa / Z.pos pb))) as [D|D]; [exact D|].
  assert (2 ^ Zdigits2 (Z.pos pa / Z.pos pb) <= 2 ^ (k - 1))
    by (apply Z.pow_le_mono_r; lia).
  lia.
Qed.

(** A quotient is a binary64 value, whatever the operands. *)
Lemma fdiv_valid x y : binary64 (fdiv x y) = true.
Proof.
  destruct x as [s1|s1| |s1 m1 e1], y as [s2|s2| |s2 m2 e2]; try reflexivity.
  unfold fdiv, SFdiv, SFdiv_core_binary. unfold Zdigits2.
  set (d1 := Z.pos (digits2_pos m1)). set (d2 := Z.pos (digits2_pos m2)).
  set (e' := Z.min (fexp prec emax (d1 + e1 - (d2 + e2))) (e1 - e2)).
  assert (Hs : 0 <= e1 - e2 - e') by (unfold e'; lia).
  set (m' := match e1 - e2 - e' with
             | 0 => Z.pos m1
             | Z.pos _ => Z.shiftl (Z.pos m1) (e1 - e2 - e')
             | Z.neg _ => 0
             end).
  assert (Hm' : m' = Z.pos m1 * 2 ^ (e1 - e2 - e')).
  { unfold m'. destruct (e1 - e2 - e') as [|p|p] eqn:E.
    - simpl. lia.
    - apply Z.shiftl_mul_pow2. lia.
    - lia. }
  clearbody m'.
  assert (Hp : 0 < 2 ^ (e1 - e2 - e')) by (apply Z.pow_pos_nonneg; lia).
  assert (Hdm : d1 + (e1 - e2 - e') <= Zdigits2 m').
  { pose proof (digits2_pos_bounds m1) as [Hl _]. fold d1 in Hl.
    assert (Hlow : 2 ^ (d1 + (e1 - e2 - e') - 1) <= m').
    { replace (d1 + (e1 - e2 - e') - 1) with ((d1 - 1) + (e1 - e2 - e')) by lia.
      unfold d1 in *. rewrite Z.pow_add_r by lia. nia. }
    pose proof (Zdigits2_lt_pow m' ltac:(nia)) as Hup.
    destruct (Z.le_gt_cases (d1 + (e1 - e2 - e')) (Zdigits2 m')) as [D|D]; [exact D|].
    assert (2 ^ Zdigits2 m' <= 2 ^ (d1 + (e1 - e2 - e') - 1))
      by (apply Z.pow_le_mono_r; lia).
    lia. }
  pose proof (div_digits_lower m' (Z.pos m2) ltac:(nia) ltac:(lia)) as Hdq.
  pose proof (Z_div_mod m' (Z.pos m2) eq_refl) as Hqr.
  assert (Eq : fst (Z.div_eucl m' (Z.pos m2)) = m' / Z.pos m2) by reflexivity.
  destruct (Z.div_eucl m' (Z.pos m2)) as [q r]. simpl in Eq. subst q.
  apply binary_round_aux_valid.
  - apply Z.div_pos; nia.
  - simpl Zdigits2 in Hdq. fold d2 in Hdq.
    apply (Z.le_trans _ (fexp prec emax (d1 + e1 - (d2 + e2)))); [unfold e'; lia|].
    apply fexp_mono. lia.
Qed.

(** ** The floats the server holds *)

Lemma binary64_server_core self self' :
  core self' = core self -> binary64_server self -> binary64_server self'.
Proof.
  intros H. pose proof (core_control _ _ H) as Hc.
  assert (Hm : max_steering_angle self' = max_steering_angle self)
    by (apply (f_equal (fun c => snd (fst c))) in H; exact H).
  unfold binary64_server, binary64_state.
  change (current_steering self') with (steering_angle (control self')).
  change (current_accelerator self') with (accelerator (control self')).
  change (current_brake self') with (brake (control self')).
  rewrite Hc, Hm. tauto.
Qed.

Lemma preserves_binary64_adapter_only {A} (m : M A) :
  adapter_only m -> preserves binary64_server m.
Proof. intros H self. apply binary64_server_core, H. Qed.

Lemma binary64_fopp f : binary64 (fopp f) = binary64 f.
Proof. destruct f; reflexivity. Qed.

Lemma binary64_min a b :
  binary64_num a = true -> binary64_num b = true -> binary64_num (min a b) = true.
Proof. unfold min. destruct (num_lt b a); auto. Qed.

Lemma binary64_max a b :
  binary64_num a = true -> binary64_num b = true -> binary64_num (max a b) = true.
Proof. unfold max. destruct (num_gt b a); auto. Qed.

Lemma binary64_pedal q : binary64 q = true -> binary64 (fmax f0 (fmin f1 q)) = true.
Proof.
  intros H. destruct (fmin_fmax_cases f0 f1 q) as [-> | [-> | ->]];
    [exact H | reflexivity | reflexivity].
Qed.

Lemma truediv_valid x d q : truediv x d = Ok q -> binary64 q = true.
Proof.
  unfold truediv. destruct (to_float x) as [f|e]; [|discriminate].
  destruct (is_zero d); [discriminate|]. intros [= <-]. apply fdiv_valid.
Qed.

Lemma dict_lookup_binary64 k d x :
  binary64_payload (ODict d) = true -> dict_lookup k d = Some (ONum x) ->
  binary64_num x = true.
Proof.
  induction d as [|[k' v] d IH]; simpl; [discriminate|].
  intros H. apply andb_prop in H as [Hv Hd].
  destruct (String.eqb k k'); [intros [= ->]; exact Hv | apply IH, Hd].
Qed.

Lemma preserves_binary64_ingest_steering p :
  binary64_payload p = true -> preserves binary64_server (ingest_steering p).
Proof.
  intros Hp self H. unfold after, ingest_steering, mbind, M_bind, lift, clamp_steering.
  destruct (contains "steering" p) as [[]|e]; simpl; try assumption.
  destruct (getitem p "steering") as [v|e] eqn:Ev; simpl; try assumption.
  destruct (as_num v) as [x|e] eqn:Ex; simpl; try assumption.
  destruct v; try discriminate. injection Ex as ->.
  destruct p as [| | | |d]; try discriminate. simpl in Ev.
  destruct (dict_lookup "steering" d) as [v|] eqn:El; [|discriminate].
  injection Ev as ->. pose proof (dict_lookup_binary64 _ _ _ Hp El) as Hx.
  destruct H as [Hm Hs]. split; [exact Hm|].
  unfold binary64_state in *. apply andb_prop in Hs as [Hs Hb].
  apply andb_prop in Hs as [_ Ha]. cbn [current_steering current_accelerator
    current_brake set_current_steering].
  rewrite Ha, Hb, !andb_true_r.
  apply (binary64_max (NFloat _)); [simpl; rewrite binary64_fopp; exact Hm|].
  apply (binary64_min (NFloat _)); [exact Hm | exact Hx].
Qed.

Lemma preserves_binary64_ingest_accelerator p :
  preserves binary64_server (ingest_accelerator p).
Proof.
  intros self H. unfold after, ingest_accelerator, mbind, M_bind, lift, clamp_pedal.
  destruct (contains "accelerator" p) as [[]|e]; simpl; try assumption.
  destruct (getitem p "accelerator") as [v|e]; simpl; try assumption.
  destruct (as_num v) as [x|e]; simpl; try assumption.
  destruct (truediv x f100) as [q|e] eqn:Eq; simpl; try assumption.
  destruct H as [Hm Hs]. split; [exact Hm|].
  unfold binary64_state in *. apply andb_prop in Hs as [Hs Hb].
  apply andb_prop in Hs as [Hs _]. cbn [current_steering current_accelerator
    current_brake set_current_accelerator].
  rewrite Hs, Hb, (binary64_pedal _ (truediv_valid _ _ _ Eq)). reflexivity.
Qed.

Lemma preserves_binary64_ingest_brake p :
  preserves binary64_server (ingest_brake p).
Proof.
  intros self H. unfold after, ingest_brake, mbind, M_bind, lift, clamp_pedal.
  destruct (contains "brake" p) as [[]|e]; simpl; try assumption.
  destruct (getitem p "brake") as [v|e]; simpl; try assumption.
  destruct (as_num v) as [x|e]; simpl; try assumption.
  destruct (truediv x f100) as [q|e] eqn:Eq; simpl; try assumption.
  destruct H as [Hm Hs]. split; [exact Hm|].
  unfold binary64_state in *. apply andb_prop in Hs as [Hs _].
  cbn [current_steering current_accelerator current_brake set_current_brake].
  rewrite Hs, (binary64_pedal _ (truediv_valid _ _ _ Eq)). reflexivity.
Qed.

Lemma preserves_binary64_release_all_inputs :
  preserves binary64_server release_all_inputs.
Proof.
  intros self [Hm _]. unfold after. rewrite release_all_inputs_eq.
  apply (binary64_server_core (zeroed self)); [apply adapter_only_reset_then_apply|].
  split; [exact Hm | reflexivity].
Qed.

Lemma preserves_binary64_button g :
  (forall self, max_steering_angle (g self) = max_steering_angle self) ->
  (forall self, current_steering (g self) = current_steering self) ->
  (forall self, current_accelerator (g self) = current_accelerator self) ->
  (forall self, current_brake (g self) = current_brake self) ->
  preserves binary64_server (assign g).
Proof.
  intros Hm Hs Ha Hb self [H1 H2]. unfold after, assign; simpl.
  unfold binary64_server, binary64_state in *.
  rewrite Hm, Hs, Ha, Hb. auto.
Qed.

Lemma preserves_binary64_on_command command payload :
  binary64_payload payload = true ->
  preserves binary64_server (on_command command payload).
Proof.
  intros Hp.
  pose proof (preserves_binary64_adapter_only _ adapter_only_update_controller) as Hu.
  unfold on_command.
  repeat match goal with
         | |- preserves _ (if ?c then _ else _) => destruct c
         end.
  - apply preserves_bind; [apply preserves_binary64_ingest_steering, Hp | intros _].
    apply preserves_bind; [apply preserves_binary64_ingest_accelerator | intros _].
    apply preserves_bind; [apply preserves_binary64_ingest_brake | intros _].
    exact Hu.
  - apply preserves_bind; [apply preserves_binary64_button; reflexivity | intros _; exact Hu].
  - apply preserves_bind; [apply preserves_binary64_button; reflexivity | intros _; exact Hu].
  - apply preserves_bind; [apply preserves_binary64_button; reflexivity | intros _; exact Hu].
  - apply preserves_bind; [apply preserves_binary64_button; reflexivity | intros _; exact Hu].
  - apply preserves_binary64_release_all_inputs.
  - intros self H. exact H.
Qed.

Lemma preserves_binary64_handle_message ws m :
  binary64_message m = true -> preserves binary64_server (handle_message ws m).
Proof.
  destruct m as [text|text e|document].
  - intros _ self H. exact H.
  - intros _. destruct e; intros self H; exact H.
  - destruct document as [| | | |top]; try (intros _ self H; exact H).
    intros Hp.
    apply (preserves_ext binary64_server _ _ (handle_message_object ws top)).
    apply preserves_try_except; [apply preserves_binary64_on_command, Hp|].
    intros e. apply preserves_binary64_adapter_only.
    destruct e; apply adapter_only_logger_error.
Qed.

Lemma preserves_binary64_on_event e :
  binary64_event e = true -> preserves binary64_server (on_event e).
Proof.
  destruct e as [ws|ws m|ws]; simpl.
  - intros _ self H. exact H.
  - apply preserves_binary64_handle_message.
  - intros _. unfold unregister_client.
    apply preserves_bind; [intros self H; exact H | intros _].
    apply preserves_bind; [intros self H; exact H | intros clients].
    destruct (bool_decide _); [apply preserves_binary64_release_all_inputs|].
    intros self H. exact H.
Qed.

Lemma run_binary64 events : forall self,
  forallb binary64_event events = true -> binary64_server self ->
  binary64_server (snd (run events self)).
Proof.
  induction events as [|e events IH]; intros self Hf H; [exact H|].
  simpl in Hf. apply andb_prop in Hf as [He Hf].
  rewrite run_step. apply IH; [exact Hf|].
  apply preserves_binary64_on_event; assumption.
Qed.

Lemma run_settings events : forall self,
  settings (snd (run events self)) = (online events (connected_clients self),
    max_steering_angle self, controller_type self).
Proof.
  induction events as [|e events IH]; intros self; [reflexivity|].
  rewrite run_step, IH, on_event_registry.
  assert (H : (max_steering_angle (after (on_event e) self),
               controller_type (after (on_event e) self)) =
              (max_steering_angle self, controller_type self)).
  { destruct e as [ws|ws m|ws]; simpl.
    - reflexivity.
    - pose proof (keeps_settings_handle_message ws m self) as H.
      unfold settings in H. congruence.
    - unfold unregister_client, after, mbind, M_bind, assign, attr.
      destruct (bool_decide _); [|reflexivity].
      pose proof (keeps_settings_release_all_inputs
                    (set_connected_clients (connected_clients self ∖ {[ws]}) self)) as H.
      unfold settings in H. simpl in H. unfold after in H. congruence. }
  injection H as -> ->. destruct e; reflexivity.
Qed.

(** X14. Every state reached from start-up, by events whose floats are
    binary64 values, has the maximum rotation 900, the variant chosen at
    start-up, a control state within its domain, and binary64 floats: the
    divisions and clamps of the handler keep them so. *)
Theorem reachable_states_well_formed h events :
  forallb binary64_event events = true ->
  let self := snd (run events (init h)) in
  max_steering_angle self = f900 /\
  controller_type self = init_controller h /\
  in_domain self = true /\
  binary64_state self = true.
Proof.
  intros Hf self.
  pose proof (run_settings events (init h)) as Hs. unfold settings in Hs.
  fold self in Hs. injection Hs as _ Hm Hc.
  split; [exact Hm|]. split; [exact Hc|]. split.
  - apply (run_sound events (init h)), sound_init.
  - apply (run_binary64 events (init h) Hf). split; reflexivity.
Qed.


Lemma reachable_states_well_formed_witness :
  let self := snd (run drive (init (host_of VJOY))) in
  forallb binary64_event drive = true /\
  max_steering_angle self = f900 /\
  controller_type self = VJOY /\
  in_domain self = true /\
  binary64_state self = true.
Proof.
  cbv zeta. split; [reflexivity|].
  apply (reachable_states_well_formed (host_of VJOY) drive). reflexivity.
Defined.


(** ** The axes of the joystick variant, over a run *)

Lemma preserves_joystick_frame {A} (m : M A) :
  preserves sound m -> preserves binary64_server m -> keeps joystick_frame m ->
  preserves joystick_ok m.
Proof.
  intros Hs Hb Hk self [(Hc & H1 & H2) Hd]. specialize (Hk self).
  unfold joystick_frame in Hk. injection Hk as Hk1 Hk2 Hk3.
  split; [split; [|split]|].
  - rewrite Hk1, Hk2. exact Hc.
  - apply Hs, H1.
  - apply Hb, H2.
  - rewrite Hk3. exact Hd.
Qed.

Lemma preserves_joystick_update_controller : preserves joystick_ok update_controller.
Proof.
  intros self [(Hc & H1 & H2) Hd]. injection Hc as Hm Hct.
  destruct (update_vjoy_controller_within_range self Hm (proj2 H1) (proj2 H2))
    as (x & y & z & E & Hx & Hy & Hz).
  assert (Eu : update_controller self = update_vjoy_controller self)
    by (unfold update_controller; rewrite bind_attr, Hct; reflexivity).
  pose proof (adapter_only_update_controller self) as Hcore.
  split; [split; [|split]|].
  - apply (f_equal (fun c => (snd (fst c), snd c))) in Hcore. simpl in Hcore.
    rewrite Hcore, Hm, Hct. reflexivity.
  - apply (sound_core self); assumption.
  - apply (binary64_server_core self); assumption.
  - unfold after. rewrite Eu, E. simpl. rewrite forallb_app, Hd. simpl.
    repeat (apply andb_true_intro; split); try reflexivity; apply Z.leb_le; lia.
Qed.

Lemma preserves_joystick_release_all_inputs : preserves joystick_ok release_all_inputs.
Proof.
  intros self H. unfold after. rewrite release_all_inputs_eq.
  assert (Hz : joystick_ok (zeroed self)).
  { destruct H as [(Hc & H1 & H2) Hd]. split; [split; [|split]|].
    - exact Hc.
    - apply sound_zeroed, H1.
    - split; [apply H2 | reflexivity].
    - exact Hd. }
  assert (E : reset_then_apply (zeroed self) = update_controller (zeroed self)).
  { destruct H as [(Hc & _) _]. injection Hc as _ Hct.
    unfold reset_then_apply. rewrite bind_attr.
    change (controller_type (zeroed self)) with (controller_type self). rewrite Hct.
    reflexivity. }
  rewrite E. apply preserves_joystick_update_controller, Hz.
Qed.

Lemma preserves_joystick_button g :
  (forall self, max_steering_angle (g self) = max_steering_angle self) ->
  (forall self, controller_type (g self) = controller_type self) ->
  (forall self, device (g self) = device self) ->
  (forall self, current_steering (g self) = current_steering self) ->
  (forall self, current_accelerator (g self) = current_accelerator self) ->
  (forall self, current_brake (g self) = current_brake self) ->
  preserves joystick_ok (assign g).
Proof.
  intros Hm Hc Hd Hs Ha Hb. apply preserves_joystick_frame.
  - apply preserves_sound_button; [exact Hm | apply Hs | apply Ha | apply Hb].
  - apply preserves_binary64_button; assumption.
  - apply keeps_assign. intros self. unfold joystick_frame. rewrite Hm, Hc, Hd. reflexivity.
Qed.

Lemma preserves_joystick_logger_error e : preserves joystick_ok (logger_error e).
Proof.
  apply preserves_joystick_frame.
  - apply preserves_sound_adapter_only, adapter_only_logger_error.
  - apply preserves_binary64_adapter_only, adapter_only_logger_error.
  - unfold logger_error. apply keeps_assign. reflexivity.
Qed.

Lemma preserves_joystick_on_command command payload :
  binary64_payload payload = true -> preserves joystick_ok (on_command command payload).
Proof.
  intros Hp.
  pose proof preserves_joystick_update_controller as Hu.
  unfold on_command.
  repeat match goal with
         | |- preserves _ (if ?c then _ else _) => destruct c
         end.
  - apply preserves_bind; [|intros _].
    { apply preserves_joystick_frame;
        [apply preserves_sound_ingest_steering
        | apply preserves_binary64_ingest_steering, Hp
        | apply keeps_ingest_steering; reflexivity]. }
    apply preserves_bind; [|intros _].
    { apply preserves_joystick_frame;
        [apply preserves_sound_ingest_accelerator
        | apply preserves_binary64_ingest_accelerator
        | apply keeps_ingest_accelerator; reflexivity]. }
    apply preserves_bind; [|intros _; exact Hu].
    apply preserves_joystick_frame;
      [apply preserves_sound_ingest_brake
      | apply preserves_binary64_ingest_brake
      | apply keeps_ingest_brake; reflexivity].
  - apply preserves_bind; [apply preserves_joystick_button; reflexivity | intros _; exact Hu].
  - apply preserves_bind; [apply preserves_joystick_button; reflexivity | intros _; exact Hu].
  - apply preserves_bind; [apply preserves_joystick_button; reflexivity | intros _; exact Hu].
  - apply preserves_bind; [apply preserves_joystick_button; reflexivity | intros _; exact Hu].
  - apply preserves_joystick_release_all_inputs.
  - intros self H. exact H.
Qed.

Lemma preserves_joystick_handle_message ws m :
  binary64_message m = true -> preserves joystick_ok (handle_message ws m).
Proof.
  destruct m as [text|text e|document].
  - intros _. apply preserves_joystick_logger_error.
  - intros _. destruct e; apply preserves_joystick_logger_error.
  - destruct document as [| | | |top];
      try (intros _; apply preserves_joystick_logger_error).
    intros Hp.
    apply (preserves_ext joystick_ok _ _ (handle_message_object ws top)).
    apply preserves_try_except; [apply preserves_joystick_on_command, Hp|].
    intros e. destruct e; apply preserves_joystick_logger_error.
Qed.

Lemma preserves_joystick_on_event e :
  binary64_event e = true -> preserves joystick_ok (on_event e).
Proof.
  destruct e as [ws|ws m|ws]; simpl.
  - intros _. apply preserves_joystick_button; reflexivity.
  - apply preserves_joystick_handle_message.
  - intros _. unfold unregister_client.
    apply preserves_bind; [apply preserves_joystick_button; reflexivity | intros _].
    apply preserves_bind; [intros self H; exact H | intros clients].
    destruct (bool_decide _); [apply preserves_joystick_release_all_inputs|].
    intros self H. exact H.
Qed.

Lemma run_joystick events : forall self,
  forallb binary64_event events = true -> joystick_ok self ->
  joystick_ok (snd (run events self)).
Proof.
  induction events as [|e events IH]; intros self Hf H; [exact H|].
  simpl in Hf. apply andb_prop in Hf as [He Hf].
  rewrite run_step. apply IH; [exact Hf|].
  apply preserves_joystick_on_event; assumption.
Qed.

(** X15. With the joystick variant, every axis value written since start-up
    is within range: 1..32768 for steering and brake, 0..32767 for the
    accelerator. *)
Theorem joystick_axes_always_within_range h events :
  init_controller h = VJOY ->
  forallb binary64_event events = true ->
  forallb axis_in_range (device (snd (run events (init h)))) = true.
Proof.
  intros Hct Hf. apply (run_joystick events (init h) Hf).
  split; [split; [|split]|].
  - simpl. rewrite Hct. reflexivity.
  - apply sound_init.
  - split; reflexivity.
  - reflexivity.
Qed.

Lemma joystick_axes_always_within_range_witness :
  (init_controller (host_of VJOY) = VJOY /\ forallb binary64_event drive = true) /\
  forallb axis_in_range (device (snd (run drive (init (host_of VJOY))))) = true /\
  device (snd (run drive (init (host_of VJOY)))) =
  [set_axis HID_USAGE_X 32768; set_axis HID_USAGE_Y 0; set_axis HID_USAGE_Z 33;
   set_button 1 false; set_button 2 false;
   set_axis HID_USAGE_X 32768; set_axis HID_USAGE_Y 0; set_axis HID_USAGE_Z 33;
   set_button 1 false; set_button 2 true;
   set_axis HID_USAGE_X 1; set_axis HID_USAGE_Y 0; set_axis HID_USAGE_Z 33;
   set_button 1 false; set_button 2 true;
   set_axis HID_USAGE_X 16384; set_axis HID_USAGE_Y 32767; set_axis HID_USAGE_Z 1;
   set_button 1 false; set_button 2 false].
Proof.
  split; [split; reflexivity|]. split.
  - apply (joystick_axes_always_within_range (host_of VJOY) drive); reflexivity.
  - vm_compute. reflexivity.
Defined.

(** ** The values of the gamepad variant, over a run *)

Lemma preserves_gamepad_frame {A} (m : M A) :
  preserves sound m -> keeps gamepad_frame m -> preserves gamepad_ok m.
Proof.
  intros Hs Hk self (Hc & H1 & Hd). specialize (Hk self).
  unfold gamepad_frame in Hk. injection Hk as Hk1 Hk2.
  split; [rewrite Hk1; exact Hc|]. split; [apply Hs, H1 | rewrite Hk2; exact Hd].
Qed.

(** One apply of the gamepad variant: six calls, or none and a log entry
    when the division raises. *)
Lemma update_vgamepad_controller_eq self :
  update_vgamepad_controller self =
  match truediv (current_steering self) (max_steering_angle self) with
  | Ok q =>
      (Ok tt,
       set_device
         (device self ++
          [left_joystick_float (fmax (fopp f1) (fmin f1 q)) f0;
           right_trigger_float (current_accelerator self);
           left_trigger_float (current_brake self);
           (if handbrake_pressed self
            then press_button XUSB_GAMEPAD_A else release_button XUSB_GAMEPAD_A);
           (if horn_pressed self
            then press_button XUSB_GAMEPAD_X else release_button XUSB_GAMEPAD_X);
           update]) self)
  | Raise e => (Ok tt, set_log (log self ++ [vgamepad_error e]) self)
  end.
Proof.
  unfold update_vgamepad_controller, try_except, mbind, M_bind, attr, lift, emit, assign.
  destruct (truediv (current_steering self) (max_steering_angle self)) as [q|e];
    [|reflexivity].
  cbv zeta. destruct self as [cc st msa acc br hb horn ct keys dev lg].
  destruct hb, horn; unfold set_device; simpl; rewrite <- !app_assoc; reflexivity.
Qed.

Lemma preserves_gamepad_update_controller : preserves gamepad_ok update_controller.
Proof.
  intros self (Hc & H1 & Hd).
  assert (Eu : update_controller self = update_vgamepad_controller self)
    by (unfold update_controller; rewrite bind_attr, Hc; reflexivity).
  pose proof (adapter_only_update_controller self) as Hcore.
  split; [|split].
  - rewrite <- Hc. exact (f_equal snd Hcore).
  - apply (sound_core self); assumption.
  - unfold after. rewrite Eu, update_vgamepad_controller_eq.
    destruct (truediv _ _) as [q|e]; [|exact Hd].
    destruct H1 as [_ Hdom]. unfold in_domain, in_domain_of in Hdom.
    apply andb_prop in Hdom as [Hdom Hb]. apply andb_prop in Hdom as [_ Ha].
    simpl in Ha, Hb.
    cbn [snd device set_device]. rewrite forallb_app, Hd.
    cbn [forallb gamepad_in_range andb].
    rewrite normalized_in_range, Ha, Hb.
    destruct (handbrake_pressed self), (horn_pressed self); reflexivity.
Qed.

Lemma preserves_gamepad_release_all_inputs : preserves gamepad_ok release_all_inputs.
Proof.
  intros self H. unfold after. rewrite release_all_inputs_eq.
  destruct H as (Hc & H1 & Hd).
  assert (E : reset_then_apply (zeroed self) =
              update_controller
                (set_device (device self ++ [reset; update]) (zeroed self))).
  { unfold reset_then_apply. rewrite bind_attr.
    change (controller_type (zeroed self)) with (controller_type self). rewrite Hc.
    unfold mbind, M_bind, emit, assign. cbn [fst snd].
    f_equal. unfold set_device, zeroed; simpl. rewrite <- app_assoc. reflexivity. }
  rewrite E. apply preserves_gamepad_update_controller.
  split; [exact Hc|]. split; [apply sound_zeroed, H1|].
  cbn [device set_device]. rewrite forallb_app, Hd. reflexivity.
Qed.

Lemma preserves_gamepad_button g :
  (forall self, max_steering_angle (g self) = max_steering_angle self) ->
  (forall self, controller_type (g self) = controller_type self) ->
  (forall self, device (g self) = device self) ->
  (forall self, steering_angle (control (g self)) = steering_angle (control self)) ->
  (forall self, accelerator (control (g self)) = accelerator (control self)) ->
  (forall self, brake (control (g self)) = brake (control self)) ->
  preserves gamepad_ok (assign g).
Proof.
  intros Hm Hc Hd Hs Ha Hb. apply preserves_gamepad_frame.
  - apply preserves_sound_button; assumption.
  - apply keeps_assign. intros self. unfold gamepad_frame. rewrite Hc, Hd. reflexivity.
Qed.

Lemma preserves_gamepad_logger_error e : preserves gamepad_ok (logger_error e).
Proof.
  apply preserves_gamepad_frame.
  - apply preserves_sound_adapter_only, adapter_only_logger_error.
  - unfold logger_error. apply keeps_assign. reflexivity.
Qed.

Lemma preserves_gamepad_on_command command payload :
  preserves gamepad_ok (on_command command payload).
Proof.
  pose proof preserves_gamepad_update_controller as Hu.
  unfold on_command.
  repeat match goal with
         | |- preserves _ (if ?c then _ else _) => destruct c
         end.
  - apply preserves_bind; [|intros _].
    { apply preserves_gamepad_frame;
        [apply preserves_sound_ingest_steering
        | apply keeps_ingest_steering; reflexivity]. }
    apply preserves_bind; [|intros _].
    { apply preserves_gamepad_frame;
        [apply preserves_sound_ingest_accelerator
        | apply keeps_ingest_accelerator; reflexivity]. }
    apply preserves_bind; [|intros _; exact Hu].
    apply preserves_gamepad_frame;
      [apply preserves_sound_ingest_brake
      | apply keeps_ingest_brake; reflexivity].
  - apply preserves_bind; [apply preserves_gamepad_button; reflexivity | intros _; exact Hu].
  - apply preserves_bind; [apply preserves_gamepad_button; reflexivity | intros _; exact Hu].
  - apply preserves_bind; [apply preserves_gamepad_button; reflexivity | intros _; exact Hu].
  - apply preserves_bind; [apply preserves_gamepad_button; reflexivity | intros _; exact Hu].
  - apply preserves_gamepad_release_all_inputs.
  - intros self H. exact H.
Qed.

Lemma preserves_gamepad_on_event e : preserves gamepad_ok (on_event e).
Proof.
  destruct e as [ws|ws m|ws]; simpl.
  - apply preserves_gamepad_button; reflexivity.
  - destruct m as [text|text e|document];
      [apply preserves_gamepad_logger_error
      |destruct e; apply preserves_gamepad_logger_error|].
    destruct document as [| | | |top]; try apply preserves_gamepad_logger_error.
    apply (preserves_ext gamepad_ok _ _ (handle_message_object ws top)).
    apply preserves_try_except; [apply preserves_gamepad_on_command|].
    intros e. destruct e; apply preserves_gamepad_logger_error.
  - unfold unregister_client.
    apply preserves_bind; [apply preserves_gamepad_button; reflexivity | intros _].
    apply preserves_bind; [intros self H; exact H | intros clients].
    destruct (bool_decide _); [apply preserves_gamepad_release_all_inputs|].
    intros self H. exact H.
Qed.

(** X16. With the gamepad variant, every analog value sent since start-up
    is within range: the stick within [[-1, 1]] with its vertical axis at
    0.0, each trigger within [[0, 1]]. *)
Theorem gamepad_values_always_within_range h events :
  init_controller h = VGAMEPAD_XBOX ->
  forallb gamepad_in_range (device (snd (run events (init h)))) = true.
Proof.
  intros Hct.
  apply (run_preserves gamepad_ok preserves_gamepad_on_event events (init h)).
  split; [exact Hct|]. split; [apply sound_init | reflexivity].
Qed.

Lemma gamepad_values_always_within_range_witness :
  init_controller (host_of VGAMEPAD_XBOX) = VGAMEPAD_XBOX /\
  forallb gamepad_in_range
    (device (snd (run drive (init (host_of VGAMEPAD_XBOX))))) = true /\
  length (device (snd (run drive (init (host_of VGAMEPAD_XBOX))))) = 26%nat.
Proof.
  split; [reflexivity|]. split.
  - apply (gamepad_values_always_within_range (host_of VGAMEPAD_XBOX) drive). reflexivity.
  - vm_compute. reflexivity.
Defined.

(** ** A pedal value too large for a float *)

Lemma ingest_accelerator_raises d x e self :
  dict_lookup "accelerator" d = Some (ONum x) -> truediv x f100 = Raise e ->
  ingest_accelerator (ODict d) self = (Raise e, self).
Proof.
  intros H Hq. unfold ingest_accelerator, mbind, M_bind, lift; simpl. rewrite H.
  unfold clamp_pedal; simpl. rewrite Hq. reflexivity.
Qed.

(** X17. An [update] whose accelerator is an [int] too large for a float
    raises [OverflowError] at the division: the message is dropped with one
    log entry, the steering, taken in before, stays assigned, the pedals are
    as they were and no device call is made. *)
Theorem pedal_overflow_drops_update ws top d x z self :
  command_of top = OStr "update" -> payload_of top = ODict d ->
  dict_lookup "steering" d = Some (ONum x) ->
  dict_lookup "accelerator" d = Some (ONum (NInt z)) ->
  float_of_int z = Raise OverflowError ->
  handle_message ws (Json (ODict top)) self =
  (Ok tt, set_log (log self ++ [Error_handling_message OverflowError])
            (set_current_steering
               (max (NFloat (fopp (max_steering_angle self)))
                    (min (NFloat (max_steering_angle self)) x)) self)).
Proof.
  intros Hc Hp Hx Ha Hz.
  assert (Hs1 : outcome (ingest_steering (ODict d)) self = Ok tt)
    by (unfold outcome; rewrite (ingest_steering_num _ _ _ Hx); reflexivity).
  rewrite (handle_update_dict _ _ _ _ Hc Hp).
  rewrite (try_except_seq _ _ _ _ Hs1).
  unfold after at 1. rewrite (ingest_steering_num _ _ _ Hx). cbn [snd].
  assert (Hq : truediv (NInt z) f100 = Raise OverflowError)
    by (unfold truediv, to_float; rewrite Hz; reflexivity).
  unfold try_except.
  rewrite (seq_Raise _ _ _ OverflowError);
    unfold outcome, after; rewrite (ingest_accelerator_raises _ _ _ _ Ha Hq); reflexivity.
Qed.

Lemma pedal_overflow_drops_update_witness :
  float_of_int (2 ^ 1024) = Raise OverflowError /\
  handle_message 1 (Json (ODict overflowing_update)) (racing VJOY) =
  (Ok tt, set_log [Error_handling_message OverflowError]
            (set_current_steering (NFloat f900) (racing VJOY))).
Proof.
  assert (Hz : float_of_int (2 ^ 1024) = Raise OverflowError) by (vm_compute; reflexivity).
  split; [exact Hz|].
  exact (pedal_overflow_drops_update 1 overflowing_update
           [("steering"%string, ONum (NInt (2 ^ 1024)));
            ("accelerator"%string, ONum (NInt (2 ^ 1024)))]
           (NInt (2 ^ 1024)) (2 ^ 1024) (racing VJOY)
           eq_refl eq_refl eq_refl eq_refl Hz).
Defined.

(** ** What an [update] takes in *)

Lemma ingest_steering_taken d self :
  numeric (dict_lookup "steering" d) ->
  ingest_steering (ODict d) self = (Ok tt, take_steering d self).
Proof.
  unfold numeric, take_steering.
  destruct (dict_lookup "steering" d) as [v|] eqn:E.
  - intros [x ->]. apply (ingest_steering_num _ _ _ E).
  - intros _. apply (ingest_steering_absent _ _ E).
Qed.

Lemma ingest_accelerator_taken d self :
  percentage (dict_lookup "accelerator" d) ->
  ingest_accelerator (ODict d) self =
  (Ok tt, take_pedal "accelerator" set_current_accelerator d self).
Proof.
  unfold percentage, take_pedal.
  destruct (dict_lookup "accelerator" d) as [v|] eqn:E.
  - intros (x & q & -> & Hq). rewrite Hq. apply (ingest_accelerator_num _ _ _ _ E Hq).
  - intros _. apply (ingest_accelerator_absent _ _ E).
Qed.

Lemma ingest_brake_taken d self :
  percentage (dict_lookup "brake" d) ->
  ingest_brake (ODict d) self = (Ok tt, take_pedal "brake" set_current_brake d self).
Proof.
  unfold percentage, take_pedal.
  destruct (dict_lookup "brake" d) as [v|] eqn:E.
  - intros (x & q & -> & Hq). rewrite Hq. apply (ingest_brake_num _ _ _ _ E Hq).
  - intros _. apply (ingest_brake_absent _ _ E).
Qed.

Lemma handle_update_taken ws top d self :
  command_of top = OStr "update" -> payload_of top = ODict d ->
  well_formed_update d ->
  handle_message ws (Json (ODict top)) self = update_controller (taken d self).
Proof.
  intros Hc Hp (Hs & Ha & Hb).
  rewrite (handle_update_dict _ _ _ _ Hc Hp).
  rewrite try_except_seq
    by (unfold outcome; rewrite (ingest_steering_taken _ _ Hs); reflexivity).
  unfold after at 1. rewrite (ingest_steering_taken _ _ Hs). cbn [snd].
  rewrite try_except_seq
    by (unfold outcome; rewrite (ingest_accelerator_taken _ _ Ha); reflexivity).
  unfold after at 1. rewrite (ingest_accelerator_taken _ _ Ha). cbn [snd].
  rewrite try_except_seq
    by (unfold outcome; rewrite (ingest_brake_taken _ _ Hb); reflexivity).
  unfold after at 1. rewrite (ingest_brake_taken _ _ Hb). cbn [snd].
  apply (try_except_Ok _ _ _ tt), returns_update_controller.
Qed.

(** X18. An [update] whose fields, where present, are numbers the handler
    can take in is handled as: the clamped value of each field assigned, in
    the order steering, accelerator, brake, then exactly one apply of the
    resulting state; the handler itself logs nothing, and the control state
    it leaves is the one assigned. *)
Theorem well_formed_update_applies_once ws top d self :
  command_of top = OStr "update" -> payload_of top = ODict d ->
  well_formed_update d ->
  handle_message ws (Json (ODict top)) self = update_controller (taken d self) /\
  control (after (handle_message ws (Json (ODict top))) self) =
  control (taken d self).
Proof.
  intros Hc Hp Hw. unfold after.
  rewrite (handle_update_taken ws top d self Hc Hp Hw).
  split; [reflexivity|].
  apply core_control, adapter_only_update_controller.
Qed.

Lemma well_formed_update_applies_once_witness :
  (command_of full_update = OStr "update" /\
   well_formed_update [("steering"%string, ONum (NInt (-450)));
                       ("accelerator"%string, ONum (NInt 25));
                       ("brake"%string, ONum (NInt 100))]) /\
  handle_message 1 (Json (ODict full_update)) (racing VJOY) =
  (Ok tt, set_device [set_axis HID_USAGE_X 8192; set_axis HID_USAGE_Y 24576;
                      set_axis HID_USAGE_Z 32768; set_button 1 true;
                      set_button 2 false]
            (set_current_brake f1
               (set_current_accelerator (S754_finite false 4503599627370496 (-54))
                  (set_current_steering (NInt (-450)) (racing VJOY))))).
Proof.
  assert (Hw : well_formed_update [("steering"%string, ONum (NInt (-450)));
                                   ("accelerator"%string, ONum (NInt 25));
                                   ("brake"%string, ONum (NInt 100))]).
  { split; [eexists; reflexivity|].
    split; eexists; eexists; split; reflexivity. }
  split; [split; [reflexivity | exact Hw]|].
  rewrite (proj1 (well_formed_update_applies_once 1 full_update _ (racing VJOY)
                    eq_refl eq_refl Hw)).
  vm_compute. reflexivity.
Defined.

(** ** An [update] that cannot be taken in *)

Lemma truediv_raises x e : truediv x f100 = Raise e -> e = OverflowError.
Proof.
  unfold truediv, to_float, float_of_int.
  destruct x as [b|z|f].
  - destruct b; discriminate.
  - destruct (binary_normalize prec emax z 0 false); try discriminate.
    intros [= <-]. reflexivity.
  - discriminate.
Qed.

Lemma steering_cases d :
  numeric (dict_lookup "steering" d) \/
  exists v, dict_lookup "steering" d = Some v /\ non_numeric v.
Proof.
  unfold numeric, non_numeric.
  destruct (dict_lookup "steering" d) as [v|]; [|left; exact I].
  destruct v; try (right; eexists; split; [reflexivity | discriminate]).
  left. eexists. reflexivity.
Qed.

Lemma pedal_cases k d :
  percentage (dict_lookup k d) \/
  (exists v, dict_lookup k d = Some v /\ non_numeric v) \/
  (exists x, dict_lookup k d = Some (ONum x) /\ truediv x f100 = Raise OverflowError).
Proof.
  unfold percentage, non_numeric.
  destruct (dict_lookup k d) as [v|]; [|left; exact I].
  destruct v; try (right; left; eexists; split; [reflexivity | discriminate]).
  destruct (truediv n f100) as [q|e] eqn:E.
  - left. exists n, q. auto.
  - right. right. exists n. split; [reflexivity|].
    rewrite <- (truediv_raises _ _ E). exact E.
Qed.

Lemma ingest_brake_raises d x e self :
  dict_lookup "brake" d = Some (ONum x) -> truediv x f100 = Raise e ->
  ingest_brake (ODict d) self = (Raise e, self).
Proof.
  intros H Hq. unfold ingest_brake, mbind, M_bind, lift; simpl. rewrite H.
  unfold clamp_pedal; simpl. rewrite Hq. reflexivity.
Qed.

(** The handler of an [update] whose ingestion raises [e] at the server
    [self']: one log entry, and no apply. *)
Lemma update_dropped (body : M unit) e self self' :
  e <> JSONDecodeError -> body self = (Raise e, self') ->
  try_except body on_exception self =
  (Ok tt, set_log (log self' ++ [Error_handling_message e]) self').
Proof.
  intros He Hb. unfold try_except. rewrite Hb.
  destruct e; try reflexivity. destruct (He eq_refl).
Qed.

(** X19. An [update] with a field the handler cannot take in (not a number,
    or a pedal too large for a float) never reaches the device: the handler
    returns, no device call is made and no key changes, and exactly one
    entry is logged, for a [TypeError] or an [OverflowError]. *)
Theorem ill_formed_update_makes_no_call ws top d self :
  command_of top = OStr "update" -> payload_of top = ODict d ->
  ~ well_formed_update d ->
  let self' := after (handle_message ws (Json (ODict top))) self in
  outcome (handle_message ws (Json (ODict top))) self = Ok tt /\
  device self' = device self /\
  keys_pressed self' = keys_pressed self /\
  exists e, (e = TypeError \/ e = OverflowError) /\
            log self' = log self ++ [Error_handling_message e].
Proof.
  intros Hc Hp Hn self'. unfold self', outcome, after.
  rewrite (handle_update_dict _ _ _ _ Hc Hp).
  assert (Hdrop : forall (body : M unit) e s,
            (e = TypeError \/ e = OverflowError) ->
            body self = (Raise e, s) ->
            device s = device self -> keys_pressed s = keys_pressed self ->
            log s = log self ->
            fst (try_except body on_exception self) = Ok tt /\
            device (snd (try_except body on_exception self)) = device self /\
            keys_pressed (snd (try_except body on_exception self)) = keys_pressed self /\
            exists e, (e = TypeError \/ e = OverflowError) /\
              log (snd (try_except body on_exception self)) =
              log self ++ [Error_handling_message e]).
  { intros body e s He Hb Hd Hk Hl.
    rewrite (update_dropped body e self s); [|destruct He; subst; discriminate | exact Hb].
    simpl. rewrite Hl. repeat split; auto. exists e. auto. }
  destruct (steering_cases d) as [Hs | (v & Hv & Hnv)].
  2: { apply (Hdrop _ TypeError self); auto.
       apply bind_Raise, (ingest_steering_bad _ _ _ Hv Hnv). }
  pose proof (ingest_steering_taken d self Hs) as E1.
  set (s1 := take_steering d self) in *.
  assert (F1 : device s1 = device self /\ keys_pressed s1 = keys_pressed self /\
               log s1 = log self).
  { unfold s1, take_steering. destruct (dict_lookup "steering" d) as [[]|]; auto. }
  destruct F1 as (D1 & K1 & L1).
  destruct (pedal_cases "accelerator" d) as [Ha | [(v & Hv & Hnv) | (x & Hx & Hq)]].
  2: { apply (Hdrop _ TypeError s1); auto.
       rewrite (bind_Ok _ _ _ _ _ E1).
       apply bind_Raise, (ingest_accelerator_bad _ _ _ Hv Hnv). }
  2: { apply (Hdrop _ OverflowError s1); auto.
       rewrite (bind_Ok _ _ _ _ _ E1).
       apply bind_Raise. unfold ingest_accelerator, mbind, M_bind, lift; simpl.
       rewrite Hx. unfold clamp_pedal; simpl. rewrite Hq. reflexivity. }
  pose proof (ingest_accelerator_taken d s1 Ha) as E2.
  set (s2 := take_pedal "accelerator" set_current_accelerator d s1) in *.
  assert (F2 : device s2 = device self /\ keys_pressed s2 = keys_pressed self /\
               log s2 = log self).
  { unfold s2, take_pedal.
    destruct (dict_lookup "accelerator" d) as [[]|]; auto.
    destruct (truediv n f100); auto. }
  destruct F2 as (D2 & K2 & L2).
  destruct (pedal_cases "brake" d) as [Hb | [(v & Hv & Hnv) | (x & Hx & Hq)]].
  - destruct Hn. repeat split; assumption.
  - apply (Hdrop _ TypeError s2); auto.
    rewrite (bind_Ok _ _ _ _ _ E1), (bind_Ok _ _ _ _ _ E2).
    apply bind_Raise, (ingest_brake_bad _ _ _ Hv Hnv).
  - apply (Hdrop _ OverflowError s2); auto.
    rewrite (bind_Ok _ _ _ _ _ E1), (bind_Ok _ _ _ _ _ E2).
    apply bind_Raise, (ingest_brake_raises _ _ _ _ Hx Hq).
Qed.

Lemma ill_formed_update_makes_no_call_witness :
  let d := [("steering"%string, ONum (NInt 50)); ("brake"%string, ONone)] in
  let self' := after (handle_message 1 (Json (ODict mistyped_brake))) (racing KEYBOARD) in
  (command_of mistyped_brake = OStr "update" /\ ~ well_formed_update d) /\
  device self' = device (racing KEYBOARD) /\
  keys_pressed self' = keys_pressed (racing KEYBOARD) /\
  log self' = [Error_handling_message TypeError].
Proof.
  cbv zeta.
  assert (Hn : ~ well_formed_update
                 [("steering"%string, ONum (NInt 50)); ("brake"%string, ONone)]).
  { intros (_ & _ & (x & q & H & _)). discriminate H. }
  destruct (ill_formed_update_makes_no_call 1 mistyped_brake _ (racing KEYBOARD)
              eq_refl eq_refl Hn) as (_ & Hd & Hk & _).
  split; [split; [reflexivity | exact Hn]|].
  split; [exact Hd|]. split; [exact Hk|]. reflexivity.
Defined.

(** ** The keys after a frame *)





